(** * pyKinesis: the Thorlabs host-controller protocol engine

    A shallow embedding of [Tracking Solar Telescope/pyKinesis.py]:
    the [struct] wire codec it relies on, the discovery helpers
    ([getDestination], [getHWinfo]) and the [ThorController] class.

    Conventions of the embedding.
    - Python integers are [Z]; a byte string is a [list Z] of values
      below 256.
    - Python floats are the kernel's primitive [float]s: IEEE 754
      binary64 with the same correctly rounded operations, linked to
      their specification ([SpecFloat]) by the axioms of the standard
      library.  Scale factors and positions are floats, as in the
      class's own examples; where the scripts say so, a property that
      holds in exact arithmetic is stated over rationals ([Q]).
    - The serial connection is a record holding the trace of the calls
      made on it, and a script of what the successive [read] calls hand
      back; a script that has run out means every later read times out
      with no data.
    - A method is a function from the object's state to an [outcome]:
      it returns, raises, or never comes back. *)

From Stdlib Require Import ZArith QArith Qabs Qround Qpower List String Ascii Bool Lia Lqa.
From Stdlib Require Import DecimalString Floats.
Import ListNotations.
Open Scope Z_scope.

(** Decimal literals stand for the nearest float, as in Python. *)
#[global] Set Warnings "-inexact-float".

(** ** The [struct] module, little-endian standard sizes ([<]) *)

Module Struct.

(** Format characters used by the program. *)
Inductive item : Type :=
| fH               (* H: unsigned short, 2 bytes *)
| fB               (* B: unsigned char, 1 byte *)
| fI               (* I: unsigned int, 4 bytes *)
| fs (n : nat)     (* ns: char[n] *)
| fx (n : nat).    (* nx: n pad bytes *)

Inductive pyval : Type :=
| PInt (z : Z)
| PBytes (b : list Z).

Definition width (i : item) : nat :=
  match i with
  | fH => 2 | fB => 1 | fI => 4 | fs n => n | fx n => n
  end%nat.

Definition calcsize (fmt : list item) : nat :=
  fold_right (fun i acc => (width i + acc)%nat) 0%nat fmt.

Fixpoint le_bytes (n : nat) (z : Z) : list Z :=
  match n with
  | O => []
  | S k => z mod 256 :: le_bytes k (z / 256)
  end.

Fixpoint le_value (bs : list Z) : Z :=
  match bs with
  | [] => 0
  | b :: rest => b + 256 * le_value rest
  end.

Definition fits (n : nat) (z : Z) : bool :=
  (0 <=? z) && (z <? 256 ^ Z.of_nat n).

(** [n] bytes of [b], zero padded on the right when [b] is shorter. *)
Definition fixed (n : nat) (b : list Z) : list Z :=
  firstn n (b ++ repeat 0 n).

(** [struct.pack]; [None] stands for [struct.error]. *)
Fixpoint pack (fmt : list item) (args : list pyval) : option (list Z) :=
  match fmt with
  | [] => match args with [] => Some [] | _ :: _ => None end
  | fx n :: fmt' =>
      match pack fmt' args with
      | Some rest => Some (repeat 0 n ++ rest)
      | None => None
      end
  | fs n :: fmt' =>
      match args with
      | PBytes b :: args' =>
          match pack fmt' args' with
          | Some rest => Some (fixed n b ++ rest)
          | None => None
          end
      | _ => None
      end
  | i :: fmt' =>
      match args with
      | PInt z :: args' =>
          if fits (width i) z then
            match pack fmt' args' with
            | Some rest => Some (le_bytes (width i) z ++ rest)
            | None => None
            end
          else None
      | _ => None
      end
  end.

Fixpoint unpack_fields (fmt : list item) (buf : list Z) : list pyval :=
  match fmt with
  | [] => []
  | fx n :: fmt' => unpack_fields fmt' (skipn n buf)
  | fs n :: fmt' => PBytes (firstn n buf) :: unpack_fields fmt' (skipn n buf)
  | i :: fmt' =>
      PInt (le_value (firstn (width i) buf))
        :: unpack_fields fmt' (skipn (width i) buf)
  end.

(** [struct.unpack]: the buffer must have exactly [calcsize fmt] bytes. *)
Definition unpack (fmt : list item) (buf : list Z) : option (list pyval) :=
  if Nat.eqb (List.length buf) (calcsize fmt)
  then Some (unpack_fields fmt buf)
  else None.

End Struct.

Import Struct.

(** ** Outcomes of a call *)

Inductive exn : Type :=
| Exception (msg : string)
| ValueError
| AttributeError
| StructError
| SerialException
| ZeroDivisionError
| OverflowError.

Inductive outcome (St A : Type) : Type :=
| Returned (a : A) (st : St)
| Raised (e : exn) (st : St)
| Hangs (st : St).

Arguments Returned {St A} a st.
Arguments Raised {St A} e st.
Arguments Hangs {St A} st.

Definition M (St A : Type) : Type := St -> outcome St A.

Definition ret {St A} (a : A) : M St A := fun st => Returned a st.

Definition bind {St A B} (m : M St A) (k : A -> M St B) : M St B :=
  fun st =>
    match m st with
    | Returned a st' => k a st'
    | Raised e st' => Raised e st'
    | Hangs st' => Hangs st'
    end.

Definition raise {St A} (e : exn) : M St A := fun st => Raised e st.

Notation "x <- m ;; k" := (bind m (fun x => k))
  (at level 61, m at next level, right associativity).
Notation "m ;;; k" := (bind m (fun _ => k))
  (at level 61, right associativity).

Definition final_state {St A} (o : outcome St A) : St :=
  match o with
  | Returned _ st => st
  | Raised _ st => st
  | Hangs st => st
  end.

(** ** The serial connection (pyserial's [Serial] object) *)

Inductive event : Type :=
| EWrite (bytes : list Z)
| ERead (n : nat) (got : list Z)
| EFlushInput
| EFlushOutput
| EClose
| EOpen.

Record Serial : Type := mkSerial {
  log : list event;          (* calls made so far, oldest first *)
  rx : list (list Z);        (* what the next reads will deliver *)
  is_open : bool
}.

Definition emit (e : event) (sp : Serial) : Serial :=
  mkSerial (log sp ++ [e]) (rx sp) (is_open sp).

Definition guard_open : M Serial unit :=
  fun sp => if is_open sp then Returned tt sp else Raised SerialException sp.

Definition ser_write (bytes : list Z) : M Serial unit :=
  guard_open ;;; fun sp => Returned tt (emit (EWrite bytes) sp).

(** [read(n)]: at most [n] bytes of the next scripted delivery; an
    empty result is a timeout. *)
Definition ser_read (n : nat) : M Serial (list Z) :=
  guard_open ;;;
  fun sp =>
    match rx sp with
    | [] => Returned [] (emit (ERead n []) sp)
    | c :: rest =>
        Returned (firstn n c)
                 (mkSerial (log sp ++ [ERead n (firstn n c)]) rest (is_open sp))
    end.

Definition reset_input_buffer : M Serial unit :=
  guard_open ;;; fun sp => Returned tt (emit EFlushInput sp).

Definition reset_output_buffer : M Serial unit :=
  guard_open ;;; fun sp => Returned tt (emit EFlushOutput sp).

Definition ser_close : M Serial unit :=
  fun sp => Returned tt (mkSerial (log sp ++ [EClose]) (rx sp) false).

Definition ser_open : M Serial unit :=
  fun sp =>
    if is_open sp then Raised SerialException sp
    else Returned tt (mkSerial (log sp ++ [EOpen]) (rx sp) true).

(** A value built by [pack] is needed before the call that uses it. *)
Definition packed {St} (fmt : list item) (args : list pyval) : M St (list Z) :=
  match pack fmt args with
  | Some bytes => ret bytes
  | None => raise StructError
  end.

Definition unpacked {St} (fmt : list item) (buf : list Z) : M St (list pyval) :=
  match unpack fmt buf with
  | Some vs => ret vs
  | None => raise StructError
  end.

Definition short_fmt : list item := [fH; fB; fB; fB; fB].
Definition header_fmt : list item := [fH; fH; fB; fB].
Definition hwinfo_fmt : list item := [fI; fs 8; fH; fI; fs 48; fx 12; fH; fH; fH].

(** ** Module-level discovery helpers *)

Definition getDestination : M Serial Z :=
  let dest := 0x50 in
  msg <- packed short_fmt [PInt 0x0005; PInt 0x00; PInt 0x00; PInt dest; PInt 0x01] ;;
  ser_write msg ;;;
  rx <- ser_read 90 ;;
  reset_input_buffer ;;;
  reset_output_buffer ;;;
  if (0 <? Z.of_nat (List.length rx)) then ret 0x50 else ret 0x11.

Definition getHWinfo (destination : Z) : M Serial (Z * list Z * Z) :=
  msg <- packed short_fmt [PInt 0x0005; PInt 0x00; PInt 0x00; PInt destination; PInt 0x01] ;;
  ser_write msg ;;;
  header <- ser_read 6 ;;
  hd <- unpacked header_fmt header ;;
  match hd with
  | [PInt msgid; PInt length; PInt destOR; PInt source] =>
      data <- ser_read (Z.to_nat length) ;;
      fields <- unpacked hwinfo_fmt data ;;
      match fields with
      | [PInt serialnum; PBytes model; PInt hwtype; PInt swversion;
         PBytes notes; PInt hwversion; PInt modstate; PInt nchans] =>
          ret (serialnum, model, nchans)
      | _ => raise ValueError
      end
  | _ => raise ValueError
  end.

(** ** Strings and numbers of the host language *)

Definition lower_ascii (c : ascii) : ascii :=
  let n := nat_of_ascii c in
  if ((65 <=? n) && (n <=? 90))%nat then ascii_of_nat (n + 32) else c.

(** [str.lower] on ASCII text. *)
Fixpoint lower (t : string) : string :=
  match t with
  | EmptyString => EmptyString
  | String c rest => String (lower_ascii c) (lower rest)
  end.

(** *** Floats

    [pow2 e] is 2 to the power [e]; the rational a finite float stands
    for is its mantissa times a power of two. *)
Definition pow2 (e : Z) : Q := (2 ^ e)%Q.

Definition SFabsQ (x : spec_float) : Q :=
  match x with
  | S754_finite _ m e => inject_Z (Zpos m) * pow2 e
  | _ => 0
  end.

Definition SFsign (x : spec_float) : bool :=
  match x with
  | S754_zero s | S754_infinity s | S754_finite s _ _ => s
  | S754_nan => false
  end.

Definition SF2Q (x : spec_float) : Q := if SFsign x then (- SFabsQ x)%Q else SFabsQ x.

Definition SFfinite (x : spec_float) : bool :=
  match x with
  | S754_zero _ | S754_finite _ _ _ => true
  | _ => false
  end.

(** The number a float stands for (0 for an infinity or a NaN), and
    whether it stands for one. *)
Definition value (x : float) : Q := SF2Q (Prim2SF x).

Definition is_finite (x : float) : bool := SFfinite (Prim2SF x).

(** The integer part of a finite float. *)
Definition trunc (x : float) : option Z :=
  match Prim2SF x with
  | S754_zero _ => Some 0
  | S754_finite s m e => Some (cond_Zopp s (Z.shiftl (Zpos m) e))
  | _ => None
  end.

(** [r] is as close to [exact] as rounding to a float leaves it: the
    error is at most [2 ^ -53] of the value, or at most [2 ^ -1075]
    for a value below the normal range. *)
Definition rounds_to (r exact : Q) : Prop :=
  (Qabs (r - exact) <= pow2 (-53) * exact)%Q
  \/ (exact < pow2 (-1021) /\ Qabs (r - exact) <= pow2 (-1075))%Q.

(** Where a value lies between two consecutive integers, as the
    rounding procedure of [SpecFloat] records it; and the value a
    shifted mantissa with its two guard bits stands for. *)
Definition located (l : location) (theta : Q) : Prop :=
  match l with
  | loc_Exact => (theta == 0)%Q
  | loc_Inexact Lt => (0 < theta < 1 # 2)%Q
  | loc_Inexact Eq => (theta == 1 # 2)%Q
  | loc_Inexact Gt => ((1 # 2) < theta < 1)%Q
  end.

Definition represents (mrs : shr_record) (x : Q) : Prop :=
  0 <= shr_m mrs
  /\ located (loc_of_shr_record mrs) (x - inject_Z (shr_m mrs)).

(** [int(x)] of a float: the fractional part is dropped; an infinity
    raises [OverflowError] and a NaN [ValueError]. *)
Definition py_int {St} (x : float) : M St Z :=
  match trunc x with
  | Some z => ret z
  | None => raise (if is_nan x then ValueError else OverflowError)
  end.

(** The conversion of an integer operand of a float operation: the
    nearest float, ties to even; [OverflowError] beyond the range. *)
Definition py_float {St} (n : Z) : M St float :=
  match binary_normalize prec emax n 0 false with
  | S754_infinity _ => raise OverflowError
  | x => ret (SF2Prim x)
  end.

Fixpoint bytes_eqb (a b : list Z) : bool :=
  match a, b with
  | [], [] => true
  | u :: a', v :: b' => (u =? v) && bytes_eqb a' b'
  | _, _ => false
  end.

(** ** class ThorController *)

Record ThorController : Type := mkThorController {
  Controller_Type : string;
  Controller_Types : list string;
  port : string;
  posScaleFactor : float;
  velScaleFactor : float;
  accScaleFactor : float;
  source_byte : Z;
  Serial_Port : option Serial      (* [None]: the attribute was never set *)
}.

Definition set_Serial_Port (self : ThorController) (sp : Serial) : ThorController :=
  mkThorController (Controller_Type self) (Controller_Types self) (port self)
    (posScaleFactor self) (velScaleFactor self) (accScaleFactor self)
    (source_byte self) (Some sp).

(** What the program can observe of the machine it runs on. *)
Record Host : Type := mkHost {
  attempts : list string;    (* ports on which [serial.Serial] was called *)
  stdout : list string       (* lines printed *)
}.

Definition port_error_message (p : string) : string :=
  ("Port Error: Unable to connect to '" ++ p ++ "'. Device may already be in use.")%string.

(** [__init__]; [connect p] says whether port [p] can be opened and,
    if so, what the device on it will deliver. *)
Definition __init__ (connect : string -> option (list (list Z)))
    (PORT : string) (Scale_Factors : list float) (Controller_Type : string)
  : M Host ThorController :=
  let ct := lower Controller_Type in
  let cts := ["cube"; "benchtop"]%string in
  if negb (existsb (String.eqb ct) cts) then
    raise (Exception "Error: Invalid Controller Type")
  else
    match Scale_Factors with
    | [pos; vel; acc] =>
        fun h =>
          let h' := mkHost (attempts h ++ [PORT]) (stdout h) in
          match connect PORT with
          | Some script =>
              Returned (mkThorController ct cts PORT pos vel acc 0x01
                          (Some (mkSerial [] script true))) h'
          | None =>
              Returned (mkThorController ct cts PORT pos vel acc 0x01 None)
                       (mkHost (attempts h') (stdout h' ++ [port_error_message PORT]))
          end
    | _ => raise ValueError
    end.

Definition get_destination_byte (self : ThorController) (channel_num : Z) : Z :=
  if String.eqb (Controller_Type self) "benchtop" then 0x20 + channel_num
  else 0x50.

(** Looking up [self.Serial_Port]. *)
Definition has_port : M ThorController unit :=
  fun self =>
    match Serial_Port self with
    | Some _ => Returned tt self
    | None => Raised AttributeError self
    end.

(** A call on [self.Serial_Port]. *)
Definition on_port {A} (m : M Serial A) : M ThorController A :=
  fun self =>
    match Serial_Port self with
    | None => Raised AttributeError self
    | Some sp =>
        match m sp with
        | Returned a sp' => Returned a (set_Serial_Port self sp')
        | Raised e sp' => Raised e (set_Serial_Port self sp')
        | Hangs sp' => Hangs (set_Serial_Port self sp')
        end
    end.

(** [self.Serial_Port.write(pack(fmt, args))]: the attribute is looked
    up first, then the argument is built, then the call is made. *)
Definition Serial_Port_write (fmt : list item) (args : list pyval)
  : M ThorController unit :=
  has_port ;;;
  msg <- packed fmt args ;;
  on_port (ser_write msg).

Definition Flush_Buffers : M ThorController unit :=
  on_port reset_input_buffer ;;;
  on_port reset_output_buffer.

Definition Close_Port : M ThorController unit := on_port ser_close.

Definition Open_Port : M ThorController unit := on_port ser_open.

Definition Stay_Alive (channel_num : Z) : M ThorController unit :=
  fun self =>
    Serial_Port_write short_fmt
      [PInt 0x0492; PInt 0x00; PInt 0x00;
       PInt (get_destination_byte self channel_num); PInt (source_byte self)] self.

Definition Initialize (channel_num : Z) : M ThorController unit :=
  fun self =>
    (Serial_Port_write short_fmt
       [PInt 0x0005; PInt 0x00; PInt 0x00;
        PInt (get_destination_byte self channel_num); PInt (source_byte self)] ;;;
     on_port reset_input_buffer ;;;
     on_port reset_output_buffer ;;;
     Serial_Port_write short_fmt
       [PInt 0x0018; PInt 0x00; PInt 0x00;
        PInt (get_destination_byte self channel_num); PInt (source_byte self)] ;;;
     Flush_Buffers) self.

Definition Identify (channel_num : Z) : M ThorController unit :=
  fun self =>
    ((if String.eqb (Controller_Type self) "cube" then
        Serial_Port_write short_fmt
          [PInt 0x0223; PInt 0x01; PInt 0x00; PInt 0x50; PInt (source_byte self)]
      else if String.eqb (Controller_Type self) "benchtop" then
        Serial_Port_write short_fmt
          [PInt 0x0223; PInt channel_num; PInt 0x00; PInt 0x11; PInt (source_byte self)]
      else ret tt) ;;;
     Stay_Alive channel_num ;;;
     Flush_Buffers) self.

(** [time.sleep] has no effect on the state and is left out. *)
Definition Enable_Channel (channel_num : Z) : M ThorController unit :=
  fun self =>
    let Enable := 0x01 in
    let send :=
      Serial_Port_write short_fmt
        [PInt 0x0210; PInt 0x01; PInt Enable;
         PInt (get_destination_byte self channel_num); PInt (source_byte self)] in
    (send ;;;
     Flush_Buffers ;;;
     Stay_Alive channel_num ;;;
     if String.eqb (Controller_Type self) "benchtop" then
       send ;;; Flush_Buffers ;;; Stay_Alive channel_num
     else ret tt) self.

Definition Disable_Channel (channel_num : Z) : M ThorController unit :=
  fun self =>
    let Disable := 0x02 in
    (Serial_Port_write short_fmt
       [PInt 0x0210; PInt channel_num; PInt Disable;
        PInt (get_destination_byte self channel_num); PInt (source_byte self)] ;;;
     Flush_Buffers ;;;
     Stay_Alive channel_num ;;;
     if String.eqb (Controller_Type self) "benchtop" then
       Serial_Port_write short_fmt
         [PInt 0x0210; PInt 0x01; PInt Disable;
          PInt (get_destination_byte self channel_num); PInt (source_byte self)] ;;;
       Flush_Buffers ;;;
       Stay_Alive channel_num
     else ret tt) self.

(** [while Rx != code: Rx = self.Serial_Port.read(2)] on an open port.
    [Rx] starts empty, which differs from the two-byte code, so the
    body runs at least once.  Once the script is used up every read
    comes back empty and the loop never ends. *)
Fixpoint read_until_from (code : list Z) (script : list (list Z))
    (lg : list event) : outcome Serial unit :=
  match script with
  | [] => Hangs (mkSerial lg [] true)
  | c :: rest =>
      let got := firstn 2 c in
      let lg' := lg ++ [ERead 2 got] in
      if bytes_eqb got code then Returned tt (mkSerial lg' rest true)
      else read_until_from code rest lg'
  end.

Definition read_until (code : list Z) : M Serial unit :=
  guard_open ;;; fun sp => read_until_from code (rx sp) (log sp).

Definition wait_for (id : Z) : M ThorController unit :=
  code <- packed [fH] [PInt id] ;;
  on_port (read_until code).

Definition Home (channel_num : Z) (wait : bool) : M ThorController unit :=
  fun self =>
    (Serial_Port_write short_fmt
       [PInt 0x0443; PInt 0x01; PInt 0x00;
        PInt (get_destination_byte self channel_num); PInt (source_byte self)] ;;;
     (if wait then wait_for 0x0444 else ret tt) ;;;
     Flush_Buffers ;;;
     Stay_Alive channel_num) self.

Definition move_fmt : list item := [fH; fB; fB; fB; fB; fH; fI].

Definition Move_Absolute (Position : float) (channel_num : Z) (wait : bool)
  : M ThorController unit :=
  fun self =>
    (dUnitpos <- py_int (posScaleFactor self * Position)%float ;;
     Serial_Port_write move_fmt
       [PInt 0x0453; PInt 0x06; PInt 0x00;
        PInt (Z.lor (get_destination_byte self channel_num) 0x80);
        PInt (source_byte self); PInt 0x01; PInt dUnitpos] ;;;
     (if wait then wait_for 0x0464 else ret tt) ;;;
     Flush_Buffers ;;;
     Stay_Alive channel_num) self.

(** [num / den] on floats: a zero divisor, of either sign, raises. *)
Definition py_div {St} (num den : float) : M St float :=
  if (den =? 0)%float then raise ZeroDivisionError else ret (num / den)%float.

(** [n / den] with an integer [n]: [n] is converted first. *)
Definition py_int_div {St} (n : Z) (den : float) : M St float :=
  num <- py_float n ;; py_div num den.

Definition counter_fmt : list item := [fs 6; fH; fI].
Definition status_fmt : list item := [fs 8; fI; fH; fH; fI].

Definition getPosition (channel_num : Z) : M ThorController float :=
  fun self =>
    (Flush_Buffers ;;;
     Serial_Port_write short_fmt
       [PInt 0x0411; PInt 0x01; PInt 0x00;
        PInt (get_destination_byte self channel_num); PInt (source_byte self)] ;;;
     reply <- on_port (ser_read 12) ;;
     fields <- unpacked counter_fmt reply ;;
     match fields with
     | [PBytes header; PInt chan_dent; PInt position_dUnits] =>
         Stay_Alive channel_num ;;;
         Flush_Buffers ;;;
         py_int_div position_dUnits (posScaleFactor self)
     | _ => raise ValueError
     end) self.

Definition get_status_Update (channel_num : Z) : M ThorController (float * float) :=
  fun self =>
    (Flush_Buffers ;;;
     Serial_Port_write short_fmt
       [PInt 0x0490; PInt 0x01; PInt 0x00;
        PInt (get_destination_byte self channel_num); PInt (source_byte self)] ;;;
     msg <- on_port (ser_read 20) ;;
     fields <- unpacked status_fmt msg ;;
     match fields with
     | [PBytes unused; PInt positionDU; PInt velocityDU; PInt reserved; PInt status_bits] =>
         Flush_Buffers ;;;
         Stay_Alive channel_num ;;;
         pos <- py_int_div positionDU (posScaleFactor self) ;;
         vel <- py_int_div velocityDU 204.8%float ;;
         ret (pos, vel)
     | _ => raise ValueError
     end) self.

Definition getEncCounter (channel_num : Z) : M ThorController float :=
  fun self =>
    (Flush_Buffers ;;;
     Serial_Port_write short_fmt
       [PInt 0x040A; PInt 0x01; PInt 0x00;
        PInt (get_destination_byte self channel_num); PInt (source_byte self)] ;;;
     reply <- on_port (ser_read 12) ;;
     fields <- unpacked counter_fmt reply ;;
     match fields with
     | [PBytes header; PInt chan_dent; PInt EncCount] =>
         Stay_Alive channel_num ;;;
         Flush_Buffers ;;;
         py_int_div EncCount (posScaleFactor self)
     | _ => raise ValueError
     end) self.

(** ** Sequences of calls on one session *)

Inductive call : Type :=
| CInitialize (channel_num : Z)
| CIdentify (channel_num : Z)
| CEnable_Channel (channel_num : Z)
| CDisable_Channel (channel_num : Z)
| CHome (channel_num : Z) (wait : bool)
| CMove_Absolute (Position : float) (channel_num : Z) (wait : bool)
| CgetPosition (channel_num : Z)
| Cget_status_Update (channel_num : Z)
| CgetEncCounter (channel_num : Z)
| CStay_Alive (channel_num : Z)
| CFlush_Buffers
| CClose_Port
| COpen_Port.

Definition discard {St A} (m : M St A) : M St unit := m ;;; ret tt.

Definition perform (c : call) : M ThorController unit :=
  match c with
  | CInitialize ch => Initialize ch
  | CIdentify ch => Identify ch
  | CEnable_Channel ch => Enable_Channel ch
  | CDisable_Channel ch => Disable_Channel ch
  | CHome ch w => Home ch w
  | CMove_Absolute p ch w => Move_Absolute p ch w
  | CgetPosition ch => discard (getPosition ch)
  | Cget_status_Update ch => discard (get_status_Update ch)
  | CgetEncCounter ch => discard (getEncCounter ch)
  | CStay_Alive ch => Stay_Alive ch
  | CFlush_Buffers => Flush_Buffers
  | CClose_Port => Close_Port
  | COpen_Port => Open_Port
  end.

(** The calls one after the other; the first that raises or hangs ends
    the run. *)
Fixpoint run_calls (cs : list call) : M ThorController unit :=
  match cs with
  | [] => ret tt
  | c :: rest => perform c ;;; run_calls rest
  end.

Definition is_Initialize (c : call) : bool :=
  match c with CInitialize _ => true | _ => false end.

(** ** Reading the trace *)

Definition session_log (self : ThorController) : list event :=
  match Serial_Port self with
  | Some sp => log sp
  | None => []
  end.

(** The message id is the first, little-endian, 16-bit field. *)
Definition message_id (bytes : list Z) : Z := le_value (firstn 2 bytes).

Definition is_keep_alive (bytes : list Z) : bool := message_id bytes =? 0x0492.

(** One more command is outstanding after every written message but a
    keep-alive, which clears the count. *)
Definition step_count (c : nat) (e : event) : nat :=
  match e with
  | EWrite bytes => if is_keep_alive bytes then 0%nat else S c
  | _ => c
  end.

Definition count_from (c : nat) (d : list event) : nat := fold_left step_count d c.

Definition since_keep_alive (lg : list event) : nat := count_from 0 lg.

(** The position field of the last move-absolute message written. *)
Definition step_target (acc : option (list Z)) (e : event) : option (list Z) :=
  match e with
  | EWrite bytes => if message_id bytes =? 0x0453 then Some (skipn 8 bytes) else acc
  | _ => acc
  end.

Definition last_move_target (lg : list event) : option (list Z) :=
  fold_left step_target lg None.

Definition is_read (e : event) : Prop :=
  match e with ERead _ _ => True | _ => False end.

(** ** Vocabulary of the specification *)

Inductive topology : Type := Compact | Rack.

Definition topology_name (t : topology) : string :=
  match t with Compact => "cube" | Rack => "benchtop" end.

(** Two characters that are the same letter up to case. *)
Definition same_letter (a b : ascii) : bool :=
  let u := nat_of_ascii a in
  let v := nat_of_ascii b in
  let upper n := ((65 <=? n) && (n <=? 90))%nat in
  ((u =? v) || (upper u && (v =? u + 32)) || (upper v && (u =? v + 32)))%nat.

Fixpoint ci_eqb (u v : string) : bool :=
  match u, v with
  | EmptyString, EmptyString => true
  | String a u', String b v' => same_letter a b && ci_eqb u' v'
  | _, _ => false
  end.

(** The topology a controller-type string names, case-insensitively. *)
Definition topology_of (t : string) : option topology :=
  if ci_eqb t "cube" then Some Compact
  else if ci_eqb t "benchtop" then Some Rack
  else None.

(** Nearest-integer rounding, ties to the even neighbour ([round]). *)
Definition py_round (v : Q) : Z :=
  let f := Qfloor v in
  let r := (v - inject_Z f)%Q in
  match (r ?= 1 # 2)%Q with
  | Lt => f
  | Gt => f + 1
  | Eq => if Z.even f then f else f + 1
  end.

(** A session as the constructor leaves it when the port opened, its
    connection still open. *)
Record live (self : ThorController) (sp : Serial) : Prop := mkLive {
  live_port : Serial_Port self = Some sp;
  live_open : is_open sp = true;
  live_source : source_byte self = 0x01
}.

(** The channel's destination fits the one-byte address field. *)
Definition addressable (self : ThorController) (channel_num : Z) : Prop :=
  0 <= get_destination_byte self channel_num < 256.

(** ** Sessions used in examples *)

Definition session_of (o : outcome Host ThorController) : ThorController :=
  match o with
  | Returned self _ => self
  | _ => mkThorController "" [] "" 0 0 0 0 None
  end.

Definition fresh_host : Host := mkHost [] [].

Definition KBD101_factors : list float := [2000; 13421.77; 1.374]%float.
Definition BSC202_factors : list float := [409600; 21987328; 4506]%float.

Definition KBD101 (script : list (list Z)) : ThorController :=
  session_of (__init__ (fun _ => Some script) "COM14" KBD101_factors "cube" fresh_host).

Definition BSC202 (script : list (list Z)) : ThorController :=
  session_of (__init__ (fun _ => Some script) "COM14" BSC202_factors "benchtop" fresh_host).

(** Lower-case letters, and words made of them. *)
Definition lower_letter (b : ascii) : bool :=
  ((97 <=? nat_of_ascii b) && (nat_of_ascii b <=? 122))%nat.

Fixpoint lower_word (v : string) : bool :=
  match v with
  | EmptyString => true
  | String b v' => lower_letter b && lower_word v'
  end.

(** What the next [read(n)] delivers. *)
Definition next_read (n : nat) (sp : Serial) : list Z :=
  match rx sp with [] => [] | c :: _ => firstn n c end.

(** The six bytes of a short message whose fields are in range. *)
Definition short_message (id p1 p2 d src : Z) : list Z :=
  [id mod 256; id / 256; p1; p2; d; src].

(** Whether some delivery of the script starts with the awaited code. *)
Definition delivers (code : list Z) (script : list (list Z)) : bool :=
  existsb (fun c => bytes_eqb (firstn 2 c) code) script.

Definition returned {St A} (o : outcome St A) : bool :=
  match o with Returned _ _ => true | _ => false end.

(** How a motion call ends once its command went out on connection
    [sp1]: the optional wait for [code], then the flush and the
    keep-alive. *)
Definition settle (self : ThorController) (channel_num : Z) (wait : bool)
    (code : list Z) (sp1 : Serial) : outcome ThorController unit :=
  let ka := short_message 0x0492 0 0 (get_destination_byte self channel_num) 0x01 in
  let finish s := set_Serial_Port self (emit (EWrite ka) (emit EFlushOutput (emit EFlushInput s))) in
  if wait then
    match read_until_from code (rx sp1) (log sp1) with
    | Returned _ s2 => Returned tt (finish s2)
    | Raised e s2 => Raised e (set_Serial_Port self s2)
    | Hangs s2 => Hangs (set_Serial_Port self s2)
    end
  else Returned tt (finish sp1).

(** Keep-alive messages among the events of a trace. *)
Definition is_keep_alive_event (e : event) : bool :=
  match e with EWrite bytes => is_keep_alive bytes | _ => false end.

Definition keep_alives (d : list event) : nat :=
  List.length (filter is_keep_alive_event d).

(** The fourteen bytes of a move-absolute message: header with the
    data-packet bit set on the destination, channel field, target. *)
Definition move_message (d target : Z) : list Z :=
  [0x53; 0x04; 0x06; 0x00; Z.lor d 0x80; 0x01] ++ le_bytes 2 0x01 ++ le_bytes 4 target.

(** Dropping the fraction: down for a value that is not negative, up
    for a negative one. *)
Definition toward_zero (v : Q) : Z :=
  if Qle_bool 0 v then Qfloor v else Qceiling v.

(** The device-unit target a finished call left on the wire. *)
Definition sent_target (o : outcome ThorController unit) : option Z :=
  option_map le_value (last_move_target (session_log (final_state o))).

(** The largest count reached while the events of [d] go by, starting
    from count [c]. *)
Fixpoint peak_from (c : nat) (d : list event) : nat :=
  match d with
  | [] => c
  | e :: d' => Nat.max c (peak_from (step_count c e) d')
  end.

(** [paced lg m p q reset k]: running [m] only appends to the trace;
    from a count [c] the count never exceeds the larger of [c + p] and
    [q]; and when [m] returns the count is at most [k] above [c], or
    at most [k] outright when [reset] is set. *)
Definition paced {St A} (lg : St -> list event) (m : M St A)
    (p q : nat) (reset : bool) (k : nat) : Prop :=
  forall st, exists d,
    lg (final_state (m st)) = lg st ++ d
    /\ forall c,
        (peak_from c d <= Nat.max (c + p) q)%nat
        /\ (returned (m st) = true ->
            (count_from c d <= (if reset then 0 else c) + k)%nat).

Definition is_write (e : event) : bool :=
  match e with EWrite _ => true | _ => false end.

(** ** Further vocabulary: what a call leaves of the session *)

(** The calls that end by sending a keep-alive. *)
Definition sends_keep_alive (c : call) : bool :=
  match c with
  | CInitialize _ | CFlush_Buffers | CClose_Port | COpen_Port => false
  | _ => true
  end.

(** How many commands a call may write before its keep-alive, if it
    sends one. *)
Definition weight (c : call) : nat :=
  if is_Initialize c then 2 else if sends_keep_alive c then 1 else 0.

(** The calls one after the other, each in a [try] that swallows what
    it raises: the next call runs on the session as the last one left
    it.  A call that never comes back ends the run. *)
Fixpoint session_after (cs : list call) (self : ThorController) : ThorController :=
  match cs with
  | [] => self
  | k :: rest =>
      match perform k self with
      | Hangs st => st
      | o => session_after rest (final_state o)
      end
  end.

(** The count the code allows once call [k] is over: none when [k]
    returned from its keep-alive, its weight more than before
    otherwise. *)
Definition count_after (c : nat) (k : call) (o : outcome ThorController unit) : nat :=
  if sends_keep_alive k && returned o then 0%nat else (c + weight k)%nat.

(** The largest count the code allows during such a run, from a count
    [c] at its start. *)
Fixpoint pace (c : nat) (cs : list call) (self : ThorController) : nat :=
  match cs with
  | [] => c
  | k :: rest =>
      let o := perform k self in
      Nat.max (c + weight k)
        (match o with
         | Hangs _ => (c + weight k)%nat
         | _ => pace (count_after c k o) rest (final_state o)
         end)
  end.

(** Everything of a session but its connection. *)
Definition same_config (a b : ThorController) : Prop :=
  Controller_Type a = Controller_Type b
  /\ Controller_Types a = Controller_Types b
  /\ port a = port b
  /\ posScaleFactor a = posScaleFactor b
  /\ velScaleFactor a = velScaleFactor b
  /\ accScaleFactor a = accScaleFactor b
  /\ source_byte a = source_byte b.

(** [framed m]: [m] leaves the session as it was, or only replaces its
    connection. *)
Definition framed {A} (m : M ThorController A) : Prop :=
  forall self,
    final_state (m self) = self
    \/ exists sp', Serial_Port self <> None
                   /\ final_state (m self) = set_Serial_Port self sp'.

Definition is_byte (z : Z) : Prop := 0 <= z < 256.

(** ** Discovery: [getAllDevices] and its caller [findControllers] *)

(** An entry of [serial.tools.list_ports.comports()]; [port[0]] is the
    device name and [port[1]] the description. *)
Record ListPortInfo : Type := mkListPortInfo {
  device : string;
  description : string;
  hwid : string
}.

(** [needle in hay] on strings. *)
Fixpoint occurs_in (needle hay : string) : bool :=
  String.prefix needle hay
  || match hay with
     | EmptyString => false
     | String _ hay' => occurs_in needle hay'
     end.

Definition getAllDevices (comports : list ListPortInfo) : list ListPortInfo :=
  filter (fun port => occurs_in "APT" (description port)) comports.

(** [str(n)] of an integer. *)
Definition str (n : Z) : string := NilZero.string_of_int (Z.to_int n).

(** The dictionary built for each controller found. *)
Record deviceParams : Type := mkDeviceParams {
  COM_Port : string;
  Serial_Number : string;
  Model : list Z;
  Number_of_Channels : Z
}.

(** The discovery script's view of the machine: every serial object it
    has created, the latest first, and what it has printed.  The
    variable [ser] is the latest object. *)
Record Rig : Type := mkRig {
  handles : list (string * Serial);
  console : list string
}.

Definition open_serial (connect : string -> option (list (list Z))) (comm : string)
  : M Rig unit :=
  fun rig =>
    match connect comm with
    | Some script =>
        Returned tt (mkRig ((comm, mkSerial [] script true) :: handles rig) (console rig))
    | None => Raised SerialException rig
    end.

(** A call on [ser]. *)
Definition on_ser {A} (m : M Serial A) : M Rig A :=
  fun rig =>
    match handles rig with
    | [] => Raised AttributeError rig          (* cannot happen: opened first *)
    | (comm, ser) :: older =>
        match m ser with
        | Returned a ser' => Returned a (mkRig ((comm, ser') :: older) (console rig))
        | Raised e ser' => Raised e (mkRig ((comm, ser') :: older) (console rig))
        | Hangs ser' => Hangs (mkRig ((comm, ser') :: older) (console rig))
        end
    end.

Definition print_line (line : string) : M Rig unit :=
  fun rig => Returned tt (mkRig (handles rig) (console rig ++ [line])).

Definition no_cube_message : string :=
  "No K-Cubes Detected; ensure deivces are connected and virtual comports enabled".

Fixpoint findControllers_loop (connect : string -> option (list (list Z)))
    (detectedDevices : list ListPortInfo) (deviceInfo : list deviceParams)
  : M Rig (list deviceParams) :=
  match detectedDevices with
  | [] => ret deviceInfo
  | dev :: rest =>
      let comm := device dev in
      open_serial connect comm ;;;
      on_ser reset_input_buffer ;;;
      on_ser reset_output_buffer ;;;
      dest <- on_ser getDestination ;;
      deviceInfo' <-
        (if negb (dest =? 0x50) then
           print_line no_cube_message ;;; ret deviceInfo
         else
           info <- on_ser (getHWinfo dest) ;;
           let '(serialNum, model, nChannels) := info in
           ret (deviceInfo ++ [mkDeviceParams (device dev) (str serialNum) model nChannels])) ;;
      on_ser ser_close ;;;
      findControllers_loop connect rest deviceInfo'
  end.

Definition findControllers (connect : string -> option (list (list Z)))
    (comports : list ListPortInfo) : M Rig (list deviceParams) :=
  findControllers_loop connect (getAllDevices comports) [].

(** A device that answers the probe and then the hardware-info request
    with a six-byte header and the eighty-four bytes it announces. *)
Definition answers (script : list (list Z)) (serialnum : Z) (model : list Z) (nchans : Z)
  : Prop :=
  exists probe header_chunk data_chunk rest,
    let header := firstn 6 header_chunk in
    let length := le_value (firstn 2 (skipn 2 header)) in
    let data := firstn (Z.to_nat length) data_chunk in
    script = probe :: header_chunk :: data_chunk :: rest
    /\ firstn 90 probe <> []
    /\ List.length header = 6%nat
    /\ List.length data = 84%nat
    /\ le_value (firstn 4 data) = serialnum
    /\ firstn 8 (skipn 4 data) = model
    /\ le_value (firstn 2 (skipn 82 data)) = nchans.

Definition closed (h : string * Serial) : Prop := is_open (snd h) = false.

(** What the probe of a fresh connection hears, the connection once
    probed, and a connection once closed. *)
Definition heard (script : list (list Z)) : list Z :=
  match script with [] => [] | c :: _ => firstn 90 c end.

Definition probed (script : list (list Z)) : Serial :=
  mkSerial [EFlushInput; EFlushOutput;
            EWrite [0x05; 0x00; 0x00; 0x00; 0x50; 0x01]; ERead 90 (heard script);
            EFlushInput; EFlushOutput]
           (tl script) true.

Definition shut (ser : Serial) : Serial := mkSerial (log ser ++ [EClose]) (rx ser) false.

(** A hardware-info reply of a KDC101 with serial number 27005375. *)
Definition KDC101_header : list Z := [0x06; 0x00; 0x54; 0x00; 0x81; 0x50].

Definition KDC101_data : list Z :=
  [0xBF; 0x11; 0x9C; 0x01]
  ++ [0x4B; 0x44; 0x43; 0x31; 0x30; 0x31; 0x00; 0x00]
  ++ [0x10; 0x00] ++ [0x01; 0x00; 0x02; 0x00]
  ++ repeat 0 48 ++ repeat 0 12
  ++ [0x03; 0x00] ++ [0x00; 0x00] ++ [0x01; 0x00].

(** A bench with one port that is not a controller, one controller
    that answers and one that stays silent. *)
Definition bench_ports : list ListPortInfo :=
  [mkListPortInfo "COM1" "Communications Port (COM1)" "ACPI";
   mkListPortInfo "COM3" "APT USB Device Serial Port (COM3)" "USB VID:PID=0403:FAF0";
   mkListPortInfo "COM4" "APT USB Device Serial Port (COM4)" "USB VID:PID=0403:FAF0"].

Definition bench_connect (comm : string) : option (list (list Z)) :=
  if String.eqb comm "COM3" then
    Some [KDC101_header ++ KDC101_data; KDC101_header; KDC101_data]
  else if String.eqb comm "COM4" then Some []
  else None.

Definition empty_rig : Rig := mkRig [] [].

(** What a call returned, when it did. *)
Definition value_of {St A} (o : outcome St A) (default : A) : A :=
  match o with Returned a _ => a | _ => default end.

(** ** The tracking script: angles and moves *)





Record Telescope : Type := mkTelescope {
  elevationController : ThorController;
  azimuthController : ThorController
}.

Definition on_elevation {A} (m : M ThorController A) : M Telescope A :=
  fun scope =>
    match m (elevationController scope) with
    | Returned a c => Returned a (mkTelescope c (azimuthController scope))
    | Raised e c => Raised e (mkTelescope c (azimuthController scope))
    | Hangs c => Hangs (mkTelescope c (azimuthController scope))
    end.

Definition on_azimuth {A} (m : M ThorController A) : M Telescope A :=
  fun scope =>
    match m (azimuthController scope) with
    | Returned a c => Returned a (mkTelescope (elevationController scope) c)
    | Raised e c => Raised e (mkTelescope (elevationController scope) c)
    | Hangs c => Hangs (mkTelescope (elevationController scope) c)
    end.

(** The same folding as the script computes it, on floats. *)
Definition complementary_float (x : float) : float :=
  let x := if (x <? 0)%float then (360 + x)%float else x in
  if (180 <? x)%float then (360 - x)%float else x.

(** The moves of one turn of the tracking loop, from the position the
    ephemeris gave and the two offsets; printing and sleeping are left
    out. *)
Definition tracking_moves (azimuthOffset elevationOffset : float)
    (azimuthPosition elevationPosition : float) : M Telescope unit :=
  let azimuthPosition := (azimuthPosition + azimuthOffset)%float in
  let elevationPosition := (elevationPosition + elevationOffset)%float in
  let elevationPosition := complementary_float elevationPosition in
  let azimuthPosition := complementary_float azimuthPosition in
  on_elevation (Move_Absolute elevationPosition 1 false) ;;;
  on_azimuth (Move_Absolute azimuthPosition 1 false).

(** The rotation stage of the tracking script and its sessions. *)
Definition PRMTZ8_factors : list float := [1919.6418578623391; 42941.66; 14.66]%float.

Definition PRMTZ8 (script : list (list Z)) : ThorController :=
  session_of (__init__ (fun _ => Some script) "COM5" PRMTZ8_factors "cube" fresh_host).

Definition telescope : Telescope := mkTelescope (PRMTZ8 []) (PRMTZ8 []).

(** ** The control panel ([solarTrackingGUI.py]) *)

(** The dictionary exchanged through [trackingParams.json]. *)
Record TrackingParams : Type := mkTrackingParams {
  azimuthOffset : Q;
  elevationOffset : Q;
  updateRate : Q;
  killTracking : Q
}.

(** The panel: its two offsets, the dictionary [trackParams] (which is
    the object [defaultParams]) and the content of the file.  The text
    shown in the window is left out. *)
Record Panel : Type := mkPanel {
  aziOffset : Q;
  eliOffset : Q;
  trackParams : TrackingParams;
  trackingFile : TrackingParams
}.

Definition increment : Q := 1 # 20.

Definition defaultParams : TrackingParams := mkTrackingParams 0 0 1 0.

Definition writeTrackingParams (paramDict : TrackingParams) (p : Panel) : Panel :=
  mkPanel (aziOffset p) (eliOffset p) (trackParams p) paramDict.

(** The panel once the script has written the defaults and opened the
    window. *)
Definition panel_start : Panel :=
  writeTrackingParams defaultParams (mkPanel 0 0 defaultParams defaultParams).

Definition set_azi (v : Q) (p : Panel) : Panel :=
  let tp := trackParams p in
  mkPanel v (eliOffset p)
    (mkTrackingParams v (elevationOffset tp) (updateRate tp) (killTracking tp))
    (trackingFile p).

Definition set_eli (v : Q) (p : Panel) : Panel :=
  let tp := trackParams p in
  mkPanel (aziOffset p) v
    (mkTrackingParams (azimuthOffset tp) v (updateRate tp) (killTracking tp))
    (trackingFile p).

Definition set_kill (p : Panel) : Panel :=
  let tp := trackParams p in
  mkPanel (aziOffset p) (eliOffset p)
    (mkTrackingParams (azimuthOffset tp) (elevationOffset tp) (updateRate tp) 1)
    (trackingFile p).

Definition event_is (event : option string) (key : string) : bool :=
  match event with Some e => String.eqb e key | None => false end.

(** The five [if]s of the loop body, in order. *)
Definition on_event (event : option string) (p : Panel) : Panel :=
  let p := if event_is event "-aziIncrease-" then
             let p := set_azi (aziOffset p + increment) p in
             writeTrackingParams (trackParams p) p
           else p in
  let p := if event_is event "-aziDecrease-" then
             let p := set_azi (aziOffset p - increment) p in
             writeTrackingParams (trackParams p) p
           else p in
  let p := if event_is event "-eliIncrease-" then
             let p := set_eli (eliOffset p + increment) p in
             writeTrackingParams (trackParams p) p
           else p in
  let p := if event_is event "-eliDecrease-" then
             let p := set_eli (eliOffset p - increment) p in
             writeTrackingParams (trackParams p) p
           else p in
  if event_is event "-STOP-" then
    let p := set_kill p in writeTrackingParams (trackParams p) p
  else p.

(** [sg.WIN_CLOSED] is [None]. *)
Definition closes (event : option string) : bool :=
  match event with None => true | Some e => String.eqb e "Close" end.

(** The event loop over the events the window delivers; the flag says
    whether the loop was left. *)
Fixpoint event_loop (events : list (option string)) (p : Panel) : Panel * bool :=
  match events with
  | [] => (p, false)
  | event :: rest =>
      if closes event then (p, true) else event_loop rest (on_event event p)
  end.

(** ** The wire codec *)

Lemma le_value_le_bytes (n : nat) (z : Z) :
  0 <= z < 256 ^ Z.of_nat n -> le_value (le_bytes n z) = z.
Proof.
  revert z; induction n as [|n IH]; intros z Hz.
  - simpl in *. lia.
  - cbn [le_bytes le_value].
    rewrite IH.
    + pose proof (Z.div_mod z 256). lia.
    + rewrite Nat2Z.inj_succ, Z.pow_succ_r in Hz by lia.
      split; [apply Z.div_pos; lia | apply Z.div_lt_upper_bound; lia].
Qed.

Lemma length_le_bytes (n : nat) (z : Z) : List.length (le_bytes n z) = n.
Proof. revert z; induction n; intros; simpl; auto. Qed.

Lemma fits_true (n : nat) (z : Z) :
  0 <= z < 256 ^ Z.of_nat n -> fits n z = true.
Proof. intros; unfold fits; apply andb_true_intro; split; [apply Z.leb_le|apply Z.ltb_lt]; lia. Qed.

Lemma fits_false (n : nat) (z : Z) :
  z < 0 \/ 256 ^ Z.of_nat n <= z -> fits n z = false.
Proof.
  intros [Hz|Hz]; unfold fits.
  - replace (0 <=? z) with false by (symmetry; apply Z.leb_gt; lia). reflexivity.
  - replace (z <? 256 ^ Z.of_nat n) with false by (symmetry; apply Z.ltb_ge; lia).
    apply andb_false_r.
Qed.

Lemma byte_small (z : Z) : 0 <= z < 256 -> z mod 256 = z.
Proof. intros; apply Z.mod_small; lia. Qed.

Lemma pack_short (id p1 p2 d src : Z) :
  0 <= id < 65536 -> 0 <= p1 < 256 -> 0 <= p2 < 256 ->
  0 <= d < 256 -> 0 <= src < 256 ->
  pack short_fmt [PInt id; PInt p1; PInt p2; PInt d; PInt src]
  = Some (short_message id p1 p2 d src).
Proof.
  intros Hid Hp1 Hp2 Hd Hsrc.
  unfold short_fmt, short_message. cbn [pack width].
  rewrite !fits_true by (simpl; lia).
  cbn [le_bytes app].
  rewrite (byte_small (id / 256))
    by (split; [apply Z.div_pos; lia | apply Z.div_lt_upper_bound; lia]).
  rewrite (byte_small p1), (byte_small p2), (byte_small d), (byte_small src) by lia.
  reflexivity.
Qed.

(** C4. A short message whose five fields are in range is packed into
    six bytes, and unpacking those six bytes with the receive-side
    header layout gives back the id, the destination and the source,
    together with one 16-bit word whose low byte is [param1] and whose
    high byte is [param2]. *)
Theorem short_message_roundtrip (id p1 p2 d src : Z) :
  0 <= id < 65536 -> 0 <= p1 < 256 -> 0 <= p2 < 256 ->
  0 <= d < 256 -> 0 <= src < 256 ->
  exists hdr w,
    pack short_fmt [PInt id; PInt p1; PInt p2; PInt d; PInt src] = Some hdr
    /\ List.length hdr = 6%nat
    /\ unpack header_fmt hdr = Some [PInt id; PInt w; PInt d; PInt src]
    /\ w mod 256 = p1
    /\ w / 256 = p2.
Proof.
  intros Hid Hp1 Hp2 Hd Hsrc.
  rewrite pack_short by assumption. unfold short_message.
  exists [id mod 256; id / 256; p1; p2; d; src], (p1 + 256 * p2).
  split; [reflexivity|]. split; [reflexivity|].
  split.
  - unfold unpack, header_fmt. cbn -[Z.mul Z.add Z.div Z.modulo].
    repeat f_equal; try lia.
    pose proof (Z.div_mod id 256). lia.
  - split.
    + rewrite (Z.mul_comm 256 p2), Z.mod_add by lia. apply Z.mod_small; lia.
    + rewrite (Z.mul_comm 256 p2), Z.div_add by lia.
      rewrite Z.div_small by lia. lia.
Qed.

Lemma short_message_roundtrip_witness :
  exists hdr w,
    pack short_fmt [PInt 0x0443; PInt 1; PInt 0; PInt 0x50; PInt 1] = Some hdr
    /\ List.length hdr = 6%nat
    /\ unpack header_fmt hdr = Some [PInt 0x0443; PInt w; PInt 0x50; PInt 1]
    /\ w mod 256 = 1
    /\ w / 256 = 0.
Proof. apply (short_message_roundtrip 0x0443 1 0 0x50 1); lia. Defined.

(** C5. The destination byte of a session whose type is the compact
    one (cube) is 0x50 whatever the channel; that of a rack (benchtop)
    session is 0x20 plus the channel. *)
Theorem destination_byte_by_topology (self : ThorController) (t : topology) (channel_num : Z) :
  Controller_Type self = topology_name t ->
  get_destination_byte self channel_num
  = match t with Compact => 0x50 | Rack => 0x20 + channel_num end.
Proof.
  intros Ht. unfold get_destination_byte. rewrite Ht.
  destruct t; reflexivity.
Qed.

Lemma destination_byte_by_topology_witness :
  Controller_Type (BSC202 []) = topology_name Rack
  /\ get_destination_byte (BSC202 []) 2 = 0x22.
Proof.
  split; [reflexivity|].
  apply (destination_byte_by_topology (BSC202 []) Rack 2). reflexivity.
Defined.

(** ** Controller-type strings *)

Lemma ascii_eqb_nat (a b : ascii) :
  Ascii.eqb a b = (nat_of_ascii a =? nat_of_ascii b)%nat.
Proof.
  destruct (Ascii.eqb_spec a b) as [->|Hne].
  - symmetry; apply Nat.eqb_refl.
  - symmetry; apply Nat.eqb_neq. intros Heq. apply Hne.
    rewrite <- (ascii_nat_embedding a), <- (ascii_nat_embedding b), Heq.
    reflexivity.
Qed.

Lemma nat_of_lower_ascii (a : ascii) :
  nat_of_ascii (lower_ascii a)
  = (if ((65 <=? nat_of_ascii a) && (nat_of_ascii a <=? 90))%nat
     then nat_of_ascii a + 32 else nat_of_ascii a)%nat.
Proof.
  unfold lower_ascii.
  destruct ((65 <=? nat_of_ascii a) && (nat_of_ascii a <=? 90))%nat eqn:Hu; [|reflexivity].
  apply andb_prop in Hu. destruct Hu as [_ Hu]. apply Nat.leb_le in Hu.
  apply nat_ascii_embedding. lia.
Qed.

Lemma lower_ascii_same_letter (a b : ascii) :
  lower_letter b = true ->
  Ascii.eqb (lower_ascii a) b = same_letter a b.
Proof.
  unfold lower_letter, same_letter. intros Hb.
  rewrite ascii_eqb_nat, nat_of_lower_ascii.
  apply andb_prop in Hb. destruct Hb as [Hb1 Hb2].
  apply Nat.leb_le in Hb1. apply Nat.leb_le in Hb2.
  set (u := nat_of_ascii a) in *. set (v := nat_of_ascii b) in *.
  destruct ((65 <=? u) && (u <=? 90))%nat eqn:E.
  - apply andb_prop in E. destruct E as [E1 E2].
    apply Nat.leb_le in E1. apply Nat.leb_le in E2.
    apply Bool.eq_iff_eq_true.
    rewrite !orb_true_iff, !andb_true_iff, !Nat.eqb_eq, !Nat.leb_le. lia.
  - apply andb_false_iff in E.
    apply Bool.eq_iff_eq_true.
    rewrite !orb_true_iff, !andb_true_iff, !Nat.eqb_eq, !Nat.leb_le.
    destruct E as [E|E]; apply Nat.leb_gt in E; lia.
Qed.

Lemma lower_eqb_ci (u v : string) :
  lower_word v = true -> String.eqb (lower u) v = ci_eqb u v.
Proof.
  revert v; induction u as [|a u IH]; intros [|b v] Hv; try reflexivity.
  cbn [lower_word] in Hv. apply andb_prop in Hv. destruct Hv as [Hb Hv].
  cbn [lower String.eqb ci_eqb].
  rewrite <- (lower_ascii_same_letter a b Hb), <- (IH v Hv).
  destruct (Ascii.eqb (lower_ascii a) b); reflexivity.
Qed.

Lemma topology_check (t : string) :
  existsb (String.eqb (lower t)) ["cube"; "benchtop"]%string
  = match topology_of t with Some _ => true | None => false end.
Proof.
  unfold topology_of. cbn [existsb].
  rewrite !lower_eqb_ci by reflexivity.
  destruct (ci_eqb t "cube"); [reflexivity|].
  destruct (ci_eqb t "benchtop"); reflexivity.
Qed.

Lemma topology_of_lower (t : string) (k : topology) :
  topology_of t = Some k -> lower t = topology_name k.
Proof.
  unfold topology_of.
  destruct (ci_eqb t "cube") eqn:E1.
  - intros [= <-]. rewrite <- lower_eqb_ci in E1 by reflexivity.
    apply String.eqb_eq in E1. exact E1.
  - destruct (ci_eqb t "benchtop") eqn:E2; [|discriminate].
    intros [= <-]. rewrite <- lower_eqb_ci in E2 by reflexivity.
    apply String.eqb_eq in E2. exact E2.
Qed.

(** C8. A controller-type string that names neither topology, case
    being ignored, makes the constructor raise its configuration error
    at once, with the host untouched: no port was tried and nothing was
    printed.  A string that names one never raises that error: the
    constructor returns a session of that type, or the scale-factor
    list is not of length three. *)
Theorem invalid_topology_rejected
    (connect : string -> option (list (list Z))) (PORT : string)
    (Scale_Factors : list float) (ct : string) (h : Host) :
  match topology_of ct with
  | None =>
      __init__ connect PORT Scale_Factors ct h
      = Raised (Exception "Error: Invalid Controller Type") h
  | Some t =>
      (exists self h',
          __init__ connect PORT Scale_Factors ct h = Returned self h'
          /\ Controller_Type self = topology_name t)
      \/ (__init__ connect PORT Scale_Factors ct h = Raised ValueError h
          /\ List.length Scale_Factors <> 3%nat)
  end.
Proof.
  unfold __init__. rewrite topology_check.
  destruct (topology_of ct) as [t|] eqn:Ht; cbn [negb]; [|reflexivity].
  apply topology_of_lower in Ht.
  destruct Scale_Factors as [|pos [|vel [|acc [|extra more]]]];
    try (right; split; [reflexivity | cbn; lia]).
  left. destruct (connect PORT); eexists; eexists; split; try reflexivity; exact Ht.
Qed.

(** ** Calls on an open connection *)

Lemma ser_write_open (bytes : list Z) (sp : Serial) :
  is_open sp = true -> ser_write bytes sp = Returned tt (emit (EWrite bytes) sp).
Proof. intros Ho. unfold ser_write, bind, guard_open. rewrite Ho. reflexivity. Qed.

Lemma ser_read_open (n : nat) (sp : Serial) :
  is_open sp = true ->
  ser_read n sp
  = Returned (next_read n sp)
             (mkSerial (log sp ++ [ERead n (next_read n sp)]) (tl (rx sp)) true).
Proof.
  intros Ho. unfold ser_read, bind, guard_open, next_read, emit. rewrite Ho.
  destruct (rx sp); cbn [tl]; rewrite ?Ho; reflexivity.
Qed.

Lemma reset_input_buffer_open (sp : Serial) :
  is_open sp = true -> reset_input_buffer sp = Returned tt (emit EFlushInput sp).
Proof. intros Ho. unfold reset_input_buffer, bind, guard_open. rewrite Ho. reflexivity. Qed.

Lemma reset_output_buffer_open (sp : Serial) :
  is_open sp = true -> reset_output_buffer sp = Returned tt (emit EFlushOutput sp).
Proof. intros Ho. unfold reset_output_buffer, bind, guard_open. rewrite Ho. reflexivity. Qed.

(** C9. On an open connection the probe never raises.  It writes the
    info request, reads once, clears both buffers, and returns 0x50
    when that read delivered at least one byte and 0x11 when it
    delivered none. *)
Theorem probe_reports_presence (sp : Serial) :
  is_open sp = true ->
  exists sp',
    getDestination sp
    = Returned (match next_read 90 sp with [] => 0x11 | _ :: _ => 0x50 end) sp'
    /\ log sp' = log sp ++ [EWrite [0x05; 0x00; 0x00; 0x00; 0x50; 0x01];
                            ERead 90 (next_read 90 sp); EFlushInput; EFlushOutput]
    /\ is_open sp' = true.
Proof.
  intros Hopen.
  unfold getDestination, bind.
  change (packed short_fmt [PInt 5; PInt 0; PInt 0; PInt 80; PInt 1] sp)
    with (Returned (St:=Serial) [0x05; 0x00; 0x00; 0x00; 0x50; 0x01] sp).
  cbv beta iota.
  rewrite ser_write_open by exact Hopen. cbv beta iota.
  rewrite ser_read_open by exact Hopen. cbv beta iota.
  rewrite reset_input_buffer_open by reflexivity. cbv beta iota.
  rewrite reset_output_buffer_open by reflexivity. cbv beta iota.
  change (next_read 90 (emit (EWrite [5; 0; 0; 0; 80; 1]) sp)) with (next_read 90 sp).
  destruct (next_read 90 sp) as [|b bs];
    (eexists; split; [reflexivity|]; cbn [log emit is_open];
     rewrite <- !app_assoc; split; reflexivity).
Qed.

Lemma probe_reports_presence_witness :
  is_open (mkSerial [] [[0x06; 0x00; 0x54]] true) = true
  /\ exists sp',
      getDestination (mkSerial [] [[0x06; 0x00; 0x54]] true) = Returned 0x50 sp'
      /\ log sp' = [EWrite [0x05; 0x00; 0x00; 0x00; 0x50; 0x01];
                    ERead 90 [0x06; 0x00; 0x54]; EFlushInput; EFlushOutput]
      /\ is_open sp' = true.
Proof.
  split; [reflexivity|].
  apply (probe_reports_presence (mkSerial [] [[0x06; 0x00; 0x54]] true)). reflexivity.
Defined.

(** ** Calls on a live session *)

Lemma live_set (self : ThorController) (sp sp' : Serial) :
  live self sp -> is_open sp' = true -> live (set_Serial_Port self sp') sp'.
Proof. intros [Hp Ho Hs] Ho'. constructor; [reflexivity | exact Ho' | exact Hs]. Qed.

Lemma on_port_some {A} (m : M Serial A) (self : ThorController) (sp : Serial) :
  Serial_Port self = Some sp ->
  on_port m self
  = match m sp with
    | Returned a sp' => Returned a (set_Serial_Port self sp')
    | Raised e sp' => Raised e (set_Serial_Port self sp')
    | Hangs sp' => Hangs (set_Serial_Port self sp')
    end.
Proof. intros Hp. unfold on_port. rewrite Hp. reflexivity. Qed.

Lemma Serial_Port_write_live (fmt : list item) (args : list pyval)
    (self : ThorController) (sp : Serial) (bytes : list Z) :
  live self sp -> pack fmt args = Some bytes ->
  Serial_Port_write fmt args self
  = Returned tt (set_Serial_Port self (emit (EWrite bytes) sp)).
Proof.
  intros [Hp Ho Hs] Hpack.
  unfold Serial_Port_write, bind, has_port, packed. rewrite Hp, Hpack.
  cbv beta iota. unfold ret. rewrite (on_port_some _ _ _ Hp).
  rewrite ser_write_open by exact Ho. reflexivity.
Qed.

Lemma Serial_Port_write_refused (fmt : list item) (args : list pyval)
    (self : ThorController) (sp : Serial) :
  Serial_Port self = Some sp -> pack fmt args = None ->
  Serial_Port_write fmt args self = Raised StructError self.
Proof.
  intros Hp Hpack.
  unfold Serial_Port_write, bind, has_port, packed. rewrite Hp, Hpack.
  reflexivity.
Qed.

Lemma send_short_live (self : ThorController) (sp : Serial) (id p1 p2 channel_num : Z) :
  live self sp -> addressable self channel_num ->
  0 <= id < 65536 -> 0 <= p1 < 256 -> 0 <= p2 < 256 ->
  Serial_Port_write short_fmt
    [PInt id; PInt p1; PInt p2;
     PInt (get_destination_byte self channel_num); PInt (source_byte self)] self
  = Returned tt
      (set_Serial_Port self
         (emit (EWrite (short_message id p1 p2 (get_destination_byte self channel_num) 0x01)) sp)).
Proof.
  intros Hl Ha Hid Hp1 Hp2.
  apply Serial_Port_write_live; [exact Hl|].
  rewrite (live_source _ _ Hl). apply pack_short; try assumption; lia.
Qed.

Lemma Flush_Buffers_live (self : ThorController) (sp : Serial) :
  live self sp ->
  Flush_Buffers self
  = Returned tt (set_Serial_Port self (emit EFlushOutput (emit EFlushInput sp))).
Proof.
  intros [Hp Ho Hs]. unfold Flush_Buffers, bind.
  rewrite (on_port_some _ _ _ Hp), reset_input_buffer_open by exact Ho.
  rewrite (on_port_some _ _ (emit EFlushInput sp)) by reflexivity.
  rewrite reset_output_buffer_open by exact Ho. reflexivity.
Qed.

Lemma Stay_Alive_live (self : ThorController) (sp : Serial) (channel_num : Z) :
  live self sp -> addressable self channel_num ->
  Stay_Alive channel_num self
  = Returned tt
      (set_Serial_Port self
         (emit (EWrite (short_message 0x0492 0 0 (get_destination_byte self channel_num) 0x01)) sp)).
Proof. intros Hl Ha. unfold Stay_Alive. apply send_short_live; auto; lia. Qed.

(** ** The waiting loop *)

Lemma read_until_from_unfold (code : list Z) (sp : Serial) :
  is_open sp = true ->
  read_until code sp
  = match rx sp with
    | [] => Hangs sp
    | _ :: _ =>
        (got <- ser_read 2 ;;
         if bytes_eqb got code then ret tt else read_until code) sp
    end.
Proof.
  intros Ho. unfold read_until at 1. unfold bind at 1. unfold guard_open. rewrite Ho.
  destruct sp as [lg script o]. cbn [rx log is_open] in *. subst o.
  destruct script as [|c rest]; [reflexivity|].
  unfold bind. rewrite ser_read_open by reflexivity.
  cbn [next_read rx log tl read_until_from].
  destruct (bytes_eqb (firstn 2 c) code); reflexivity.
Qed.

Lemma read_until_from_trace (code : list Z) (script : list (list Z)) (lg : list event) :
  exists reads,
    Forall is_read reads
    /\ log (final_state (read_until_from code script lg)) = lg ++ reads
    /\ is_open (final_state (read_until_from code script lg)) = true
    /\ returned (read_until_from code script lg) = delivers code script
    /\ (forall e st, read_until_from code script lg <> Raised e st).
Proof.
  revert lg; induction script as [|c rest IH]; intros lg.
  - exists []. cbn. rewrite app_nil_r. repeat split; try constructor; discriminate.
  - cbn [read_until_from delivers existsb].
    destruct (bytes_eqb (firstn 2 c) code) eqn:Hc.
    + exists [ERead 2 (firstn 2 c)]. cbn.
      repeat split; try discriminate. constructor; [exact I | constructor].
    + destruct (IH (lg ++ [ERead 2 (firstn 2 c)])) as (reads & Hr & Hlog & Ho & Hret & Hne).
      exists (ERead 2 (firstn 2 c) :: reads).
      rewrite Hlog, <- app_assoc. cbn [orb].
      repeat split; try assumption. constructor; [exact I | exact Hr].
Qed.

Lemma set_Serial_Port_twice (self : ThorController) (a b : Serial) :
  set_Serial_Port (set_Serial_Port self a) b = set_Serial_Port self b.
Proof. reflexivity. Qed.

Lemma settle_live (self : ThorController) (sp sp1 : Serial) (channel_num id : Z) (wait : bool) :
  live self sp -> addressable self channel_num -> is_open sp1 = true ->
  0 <= id < 65536 ->
  ((if wait then wait_for id else ret tt) ;;;
   Flush_Buffers ;;;
   Stay_Alive channel_num) (set_Serial_Port self sp1)
  = settle self channel_num wait (le_bytes 2 id) sp1.
Proof.
  intros Hl Ha Ho1 Hid.
  pose proof (live_set _ _ _ Hl Ho1) as Hl1.
  assert (Hfin : forall s, is_open s = true ->
            (Flush_Buffers ;;; Stay_Alive channel_num) (set_Serial_Port self s)
            = Returned tt
                (set_Serial_Port self
                   (emit (EWrite (short_message 0x0492 0 0
                                    (get_destination_byte self channel_num) 0x01))
                      (emit EFlushOutput (emit EFlushInput s))))).
  { intros s Hs. pose proof (live_set _ _ _ Hl Hs) as Hls.
    unfold bind. rewrite (Flush_Buffers_live _ _ Hls). rewrite set_Serial_Port_twice.
    rewrite (Stay_Alive_live _ (emit EFlushOutput (emit EFlushInput s)));
      [reflexivity | apply (live_set _ _ _ Hl); exact Hs | exact Ha]. }
  unfold settle. destruct wait.
  - unfold bind at 1. unfold wait_for, bind at 1, packed.
    cbn [pack width]. rewrite fits_true by (cbn; lia). rewrite app_nil_r.
    unfold ret at 1. cbv beta iota.
    rewrite (on_port_some _ _ sp1) by reflexivity.
    unfold read_until, bind at 1, guard_open. rewrite Ho1.
    destruct (read_until_from_trace (le_bytes 2 id) (rx sp1) (log sp1))
      as (reads & _ & _ & Ho2 & _ & _).
    destruct (read_until_from (le_bytes 2 id) (rx sp1) (log sp1)) as [[] s2|e s2|s2];
      try reflexivity.
    cbn [final_state] in Ho2. rewrite set_Serial_Port_twice.
    apply Hfin. exact Ho2.
  - unfold bind at 1. unfold ret at 1. apply Hfin. exact Ho1.
Qed.

Lemma Home_live (self : ThorController) (sp : Serial) (channel_num : Z) (wait : bool) :
  live self sp -> addressable self channel_num ->
  Home channel_num wait self
  = settle self channel_num wait [0x44; 0x04]
      (emit (EWrite (short_message 0x0443 1 0 (get_destination_byte self channel_num) 0x01)) sp).
Proof.
  intros Hl Ha. unfold Home. unfold bind at 1.
  rewrite (send_short_live _ sp) by (auto; lia).
  apply (settle_live self sp _ channel_num 0x0444 wait Hl Ha); [exact (live_open _ _ Hl) | lia].
Qed.

Lemma keep_alives_app (d1 d2 : list event) :
  keep_alives (d1 ++ d2) = (keep_alives d1 + keep_alives d2)%nat.
Proof. unfold keep_alives. rewrite filter_app, length_app. reflexivity. Qed.

Lemma keep_alives_reads (reads : list event) :
  Forall is_read reads -> keep_alives reads = 0%nat.
Proof.
  induction 1 as [|e reads He _ IH]; [reflexivity|].
  destruct e; try contradiction. exact IH.
Qed.

Lemma live_KBD101 (script : list (list Z)) :
  live (KBD101 script) (mkSerial [] script true).
Proof. constructor; reflexivity. Qed.

Lemma live_BSC202 (script : list (list Z)) :
  live (BSC202 script) (mkSerial [] script true).
Proof. constructor; reflexivity. Qed.

Lemma addressable_KBD101 (script : list (list Z)) (channel_num : Z) :
  addressable (KBD101 script) channel_num.
Proof.
  unfold addressable.
  change (get_destination_byte (KBD101 script) channel_num) with 0x50. lia.
Qed.

Lemma constructed_live (connect : string -> option (list (list Z))) (PORT : string)
    (pos vel acc : float) (ct : string) (t : topology) (script : list (list Z)) (h : Host) :
  topology_of ct = Some t -> connect PORT = Some script ->
  exists self,
    __init__ connect PORT [pos; vel; acc] ct h
    = Returned self (mkHost (attempts h ++ [PORT]) (stdout h))
    /\ live self (mkSerial [] script true)
    /\ Controller_Type self = topology_name t
    /\ posScaleFactor self = pos.
Proof.
  intros Ht Hc. unfold __init__. rewrite topology_check, Ht, Hc. cbn [negb].
  eexists. split; [reflexivity|]. split; [constructor; reflexivity|].
  split; [exact (topology_of_lower _ _ Ht) | reflexivity].
Qed.

(** C7. On a live session and an addressable channel: with [wait]
    false, [Home] returns after writing the short home message, having
    read nothing; the trace grows by that message, the two flushes and
    one keep-alive.  Whenever [Home] returns, with [wait] true or
    false, the trace grew by the home message, then reads only, then
    the two flushes and the keep-alive, which is the only keep-alive
    among them.  With [wait] true it returns exactly when the device
    delivers the homed code. *)
Theorem Home_return_paths (self : ThorController) (sp : Serial) (channel_num : Z) :
  live self sp -> addressable self channel_num ->
  let dest := get_destination_byte self channel_num in
  let home := short_message 0x0443 1 0 dest 0x01 in
  let ka := short_message 0x0492 0 0 dest 0x01 in
  (exists sp',
      Home channel_num false self = Returned tt (set_Serial_Port self sp')
      /\ log sp' = log sp ++ [EWrite home; EFlushInput; EFlushOutput; EWrite ka]
      /\ rx sp' = rx sp)
  /\ (forall wait self',
         Home channel_num wait self = Returned tt self' ->
         exists reads,
           Forall is_read reads
           /\ (wait = false -> reads = [])
           /\ session_log self'
              = log sp ++ [EWrite home] ++ reads ++ [EFlushInput; EFlushOutput; EWrite ka]
           /\ keep_alives ([EWrite home] ++ reads ++ [EFlushInput; EFlushOutput; EWrite ka])
              = 1%nat)
  /\ returned (Home channel_num true self) = delivers [0x44; 0x04] (rx sp).
Proof.
  intros Hl Ha dest home ka.
  assert (Hka : forall reads, Forall is_read reads ->
            keep_alives ([EWrite home] ++ reads ++ [EFlushInput; EFlushOutput; EWrite ka])
            = 1%nat).
  { intros reads Hr. rewrite !keep_alives_app, (keep_alives_reads _ Hr). reflexivity. }
  split; [|split].
  - rewrite (Home_live _ _ _ _ Hl Ha). unfold settle. eexists.
    split; [reflexivity|]. cbn [log rx emit]. rewrite <- !app_assoc.
    split; reflexivity.
  - intros wait self'. rewrite (Home_live _ _ _ _ Hl Ha). unfold settle.
    fold dest. fold home. fold ka.
    destruct wait.
    + destruct (read_until_from_trace [0x44; 0x04] (rx (emit (EWrite home) sp))
                  (log (emit (EWrite home) sp)))
        as (reads & Hr & Hlog & _ & _ & _).
      destruct (read_until_from [0x44; 0x04] (rx (emit (EWrite home) sp))
                  (log (emit (EWrite home) sp))) as [[] s2|e s2|s2];
        try discriminate.
      intros [= <-]. exists reads. cbn [final_state] in Hlog.
      split; [exact Hr|]. split; [discriminate|].
      split; [|apply Hka; exact Hr].
      unfold session_log. cbn [Serial_Port set_Serial_Port log emit] in *.
      rewrite Hlog, <- !app_assoc. reflexivity.
    + intros [= <-]. exists [].
      split; [constructor|]. split; [reflexivity|].
      split; [|apply Hka; constructor].
      unfold session_log. cbn [Serial_Port set_Serial_Port log emit app].
      rewrite <- !app_assoc. reflexivity.
  - rewrite (Home_live _ _ _ _ Hl Ha). unfold settle. fold dest. fold home.
    destruct (read_until_from_trace [0x44; 0x04] (rx (emit (EWrite home) sp))
                (log (emit (EWrite home) sp)))
      as (reads & _ & _ & _ & Hret & _).
    cbn [rx log emit] in *. rewrite <- Hret.
    destruct (read_until_from [0x44; 0x04] (rx sp) (log sp ++ [EWrite home]))
      as [[] s2|e s2|s2]; reflexivity.
Qed.

Lemma Home_return_paths_witness :
  live (KBD101 []) (mkSerial [] [] true)
  /\ addressable (KBD101 []) 1
  /\ exists sp',
      Home 1 false (KBD101 []) = Returned tt (set_Serial_Port (KBD101 []) sp')
      /\ log sp' = [EWrite [0x43; 0x04; 0x01; 0x00; 0x50; 0x01];
                    EFlushInput; EFlushOutput;
                    EWrite [0x92; 0x04; 0x00; 0x00; 0x50; 0x01]]
      /\ rx sp' = [].
Proof.
  split; [apply live_KBD101|]. split; [apply addressable_KBD101|].
  exact (proj1 (Home_return_paths (KBD101 []) (mkSerial [] [] true) 1
                  (live_KBD101 []) (addressable_KBD101 [] 1))).
Defined.

(** ** A session whose port never opened *)

Lemma Serial_Port_write_without_port (fmt : list item) (args : list pyval)
    (self : ThorController) :
  Serial_Port self = None ->
  Serial_Port_write fmt args self = Raised AttributeError self.
Proof. intros Hp. unfold Serial_Port_write, bind, has_port. rewrite Hp. reflexivity. Qed.

Lemma on_port_without_port {A} (m : M Serial A) (self : ThorController) :
  Serial_Port self = None -> on_port m self = Raised AttributeError self.
Proof. intros Hp. unfold on_port. rewrite Hp. reflexivity. Qed.

Lemma Flush_Buffers_without_port (self : ThorController) :
  Serial_Port self = None -> Flush_Buffers self = Raised AttributeError self.
Proof.
  intros Hp. unfold Flush_Buffers, bind.
  rewrite on_port_without_port by exact Hp. reflexivity.
Qed.

Lemma Move_Absolute_not_finite (self : ThorController)
    (Position : float) (channel_num : Z) (wait : bool) :
  trunc (posScaleFactor self * Position) = None ->
  Move_Absolute Position channel_num wait self
  = Raised (if is_nan (posScaleFactor self * Position) then ValueError else OverflowError)
           self.
Proof.
  intros Hn. unfold Move_Absolute. unfold bind at 1. unfold py_int. rewrite Hn. reflexivity.
Qed.

Lemma trunc_is_finite (x : float) :
  is_finite x = match trunc x with Some _ => true | None => false end.
Proof. unfold is_finite, trunc. destruct (Prim2SF x); reflexivity. Qed.

Lemma perform_without_port (self : ThorController) (c : call) :
  Serial_Port self = None ->
  (forall Position channel_num wait,
      c = CMove_Absolute Position channel_num wait ->
      is_finite (posScaleFactor self * Position) = true) ->
  perform c self = Raised AttributeError self.
Proof.
  intros Hp Hfin.
  destruct c; cbn [perform];
    unfold discard, Initialize, Identify, Enable_Channel, Disable_Channel, Home,
      Move_Absolute, getPosition, get_status_Update, getEncCounter, Stay_Alive,
      Close_Port, Open_Port;
    try (unfold bind at 1);
    try (unfold bind at 1);
    repeat match goal with
           | |- context [String.eqb ?u ?v] => destruct (String.eqb u v)
           end;
    rewrite ?(Serial_Port_write_without_port _ _ _ Hp),
      ?(Flush_Buffers_without_port _ Hp), ?(on_port_without_port _ _ Hp);
    try reflexivity.
  all: unfold ret, bind; cbv beta iota.
  all: try (unfold Stay_Alive;
            rewrite (Serial_Port_write_without_port _ _ _ Hp); reflexivity).
  specialize (Hfin _ _ _ eq_refl). rewrite trunc_is_finite in Hfin.
  unfold py_int. destruct (trunc (posScaleFactor self * Position)); [|discriminate].
  unfold ret. rewrite (Serial_Port_write_without_port _ _ _ Hp). reflexivity.
Qed.

(** C10, as the code has it.  When the port cannot be opened, the
    constructor still returns a session, after printing its message;
    that session has no [Serial_Port].  Every call on it fails and
    leaves it as it was: with [AttributeError], except a
    [Move_Absolute] whose product of scale factor and position is an
    infinity or a NaN, which fails with [OverflowError] or
    [ValueError] from [int] before the attribute is looked up. *)
Theorem failed_open_leaves_no_port
    (connect : string -> option (list (list Z))) (PORT : string)
    (pos vel acc : float) (ct : string) (t : topology) (h : Host) :
  topology_of ct = Some t -> connect PORT = None ->
  exists self,
    __init__ connect PORT [pos; vel; acc] ct h
    = Returned self (mkHost (attempts h ++ [PORT])
                            (stdout h ++ [port_error_message PORT]))
    /\ Serial_Port self = None
    /\ (forall c,
          (forall Position channel_num wait,
              c = CMove_Absolute Position channel_num wait ->
              is_finite (pos * Position) = true) ->
          perform c self = Raised AttributeError self)
    /\ (forall Position channel_num wait,
          is_finite (pos * Position) = false ->
          Move_Absolute Position channel_num wait self
          = Raised (if is_nan (pos * Position) then ValueError else OverflowError) self).
Proof.
  intros Ht Hc. unfold __init__. rewrite topology_check, Ht, Hc. cbn [negb].
  eexists. split; [reflexivity|]. split; [reflexivity|]. split.
  - intros c Hfin. apply perform_without_port; [reflexivity | exact Hfin].
  - intros Position channel_num wait Hinf. apply Move_Absolute_not_finite.
    cbn [posScaleFactor]. rewrite trunc_is_finite in Hinf.
    destruct (trunc (pos * Position)); [discriminate | reflexivity].
Qed.

Lemma failed_open_leaves_no_port_witness :
  topology_of "Cube" = Some Compact
  /\ (fun _ : string => @None (list (list Z))) "COM14"%string = None
  /\ exists self,
      __init__ (fun _ => None) "COM14" [2000; 13421.77; 1.374]%float "Cube" fresh_host
      = Returned self
          (mkHost ["COM14"%string]
                  ["Port Error: Unable to connect to 'COM14'. Device may already be in use."%string])
      /\ Serial_Port self = None
      /\ perform (CHome 1 true) self = Raised AttributeError self
      /\ perform (CMove_Absolute 25 1 true) self = Raised AttributeError self.
Proof.
  split; [reflexivity|]. split; [reflexivity|].
  destruct (failed_open_leaves_no_port (fun _ => None) "COM14"
              2000 13421.77 1.374 "Cube" Compact fresh_host eq_refl eq_refl)
    as (self & Hinit & Hport & Hcalls & _).
  exists self. split; [exact Hinit|]. split; [exact Hport|]. split.
  - apply Hcalls. intros Position channel_num wait H. discriminate H.
  - apply Hcalls. intros Position channel_num wait H. injection H as <- _ _. reflexivity.
Defined.

(** C10 fails as stated: on a session whose port never opened, with
    scale factor 2000, [Move_Absolute] of 1e306 overflows to an
    infinity and raises [OverflowError], not [AttributeError]. *)
Lemma failed_open_move_overflows :
  let self := session_of (__init__ (fun _ => None) "COM14" KBD101_factors "cube"
                            fresh_host) in
  Serial_Port self = None
  /\ Move_Absolute 1e306 1 true self = Raised OverflowError self
  /\ perform (CMove_Absolute 1e306 1 true) self <> Raised AttributeError self.
Proof.
  cbv zeta. split; [reflexivity|]. split; [vm_compute; reflexivity|].
  vm_compute. discriminate.
Qed.

(** ** Floats: the rounding of [SpecFloat] against exact arithmetic

    The product and the quotient of two floats are the exact results
    rounded to nearest, ties to even.  The lemmas below derive this
    from the rounding procedure of [SpecFloat] ([binary_round_aux]),
    which the primitive operations implement. *)

Lemma pow2_pos (e : Z) : (0 < pow2 e)%Q.
Proof. apply Qpower_0_lt. reflexivity. Qed.

Lemma pow2_add (a b : Z) : (pow2 (a + b) == pow2 a * pow2 b)%Q.
Proof. apply Qpower_plus. discriminate. Qed.

Lemma pow2_opp (a : Z) : (pow2 (- a) == / pow2 a)%Q.
Proof. apply Qpower_opp. Qed.

Lemma pow2_sub (a b : Z) : (pow2 (a - b) == pow2 a / pow2 b)%Q.
Proof. unfold Z.sub. rewrite pow2_add, pow2_opp. reflexivity. Qed.

Lemma pow2_Z (e : Z) : 0 <= e -> (pow2 e == inject_Z (2 ^ e))%Q.
Proof. intros H. unfold pow2. rewrite Zpower_Qpower by exact H. reflexivity. Qed.

Lemma pow2_le (a b : Z) : a <= b -> (pow2 a <= pow2 b)%Q.
Proof. intros H. apply Qpower_le_compat_l; [exact H | discriminate]. Qed.

Lemma pow2_lt (a b : Z) : a < b -> (pow2 a < pow2 b)%Q.
Proof. intros H. apply Qpower_lt_compat_l; [exact H | reflexivity]. Qed.

Lemma pow2_succ (a : Z) : (pow2 (a + 1) == 2 * pow2 a)%Q.
Proof. rewrite pow2_add. change (pow2 1) with 2%Q. ring. Qed.

Lemma pow2_pred (a : Z) : (pow2 (a - 1) == pow2 a * (1 # 2))%Q.
Proof. rewrite pow2_sub. change (pow2 1) with 2%Q. field. Qed.

Lemma located_ext (l : location) (a b : Q) : (a == b)%Q -> located l a -> located l b.
Proof. intros E. destruct l as [|[| |]]; cbn; rewrite E; trivial. Qed.

Lemma represents_ext (mrs : shr_record) (x y : Q) :
  (x == y)%Q -> represents mrs x -> represents mrs y.
Proof.
  intros E [H0 H]. split; [exact H0|].
  eapply located_ext; [|exact H]. rewrite E. reflexivity.
Qed.

Lemma inject_Z_xO (p : positive) : (inject_Z (Zpos p~0) == 2 * inject_Z (Zpos p))%Q.
Proof. rewrite (Pos2Z.inj_xO p), inject_Z_mult. reflexivity. Qed.

Lemma inject_Z_xI (p : positive) : (inject_Z (Zpos p~1) == 2 * inject_Z (Zpos p) + 1)%Q.
Proof. rewrite (Pos2Z.inj_xI p), inject_Z_plus, inject_Z_mult. reflexivity. Qed.

Lemma shr_1_represents (mrs : shr_record) (x : Q) :
  represents mrs x -> represents (shr_1 mrs) (x * (1 # 2)).
Proof.
  destruct mrs as [m r s]. unfold represents. cbn [shr_m].
  intros [Hm H].
  destruct m as [|p|p]; [| |lia].
  - destruct r, s; cbn [shr_1 shr_m loc_of_shr_record orb located] in *;
      (split; [lia|]); change (inject_Z 0) with 0%Q in *; lra.
  - destruct p as [p|p|].
    + pose proof (inject_Z_xI p) as E.
      destruct r, s; cbn [shr_1 shr_m loc_of_shr_record orb located] in *;
        (split; [lia|]); revert H E;
        generalize (inject_Z (Zpos p~1)) (inject_Z (Zpos p)); intros A B H E; lra.
    + pose proof (inject_Z_xO p) as E.
      destruct r, s; cbn [shr_1 shr_m loc_of_shr_record orb located] in *;
        (split; [lia|]); revert H E;
        generalize (inject_Z (Zpos p~0)) (inject_Z (Zpos p)); intros A B H E; lra.
    + destruct r, s; cbn [shr_1 shr_m loc_of_shr_record orb located] in *;
        (split; [lia|]); change (inject_Z 0) with 0%Q in *;
        change (inject_Z 1) with 1%Q in *; lra.
Qed.

Lemma iter_pos_represents (p : positive) :
  forall mrs x, represents mrs x -> represents (iter_pos shr_1 p mrs) (x * pow2 (- Zpos p)).
Proof.
  induction p as [p IH|p IH|]; intros mrs x H; cbn [iter_pos].
  - apply (represents_ext _ ((x * (1 # 2)) * pow2 (- Zpos p) * pow2 (- Zpos p))).
    + replace (- Zpos p~1) with (-1 + (- Zpos p + - Zpos p)) by lia.
      rewrite !pow2_add. change (pow2 (-1)) with (1 # 2)%Q. ring.
    + apply IH, IH, shr_1_represents, H.
  - apply (represents_ext _ (x * pow2 (- Zpos p) * pow2 (- Zpos p))).
    + replace (- Zpos p~0) with (- Zpos p + - Zpos p) by lia.
      rewrite !pow2_add. ring.
    + apply IH, IH, H.
  - apply shr_1_represents, H.
Qed.

(** [shr]: shifting by [n] divides by [2 ^ n]. *)
Lemma shr_represents (mrs : shr_record) (e n : Z) (x : Q) :
  represents mrs x ->
  let '(mrs', e') := shr mrs e n in
  e' = e + Z.max n 0 /\ represents mrs' (x * pow2 (- Z.max n 0)).
Proof.
  intros H. unfold shr. destruct n as [|p|p].
  - split; [lia|]. apply (represents_ext _ x); [|exact H].
    change (pow2 (- Z.max 0 0)) with 1%Q. ring.
  - split; [lia|]. rewrite Z.max_l by lia. apply iter_pos_represents, H.
  - split; [lia|]. apply (represents_ext _ x); [|exact H].
    rewrite Z.max_r by lia. change (pow2 (- 0)) with 1%Q. ring.
Qed.

Lemma record_of_loc_represents (m : Z) (l : location) (x : Q) :
  0 <= m -> located l (x - inject_Z m) -> represents (shr_record_of_loc m l) x.
Proof.
  intros Hm H. split.
  - destruct l as [|[| |]]; exact Hm.
  - destruct l as [|[| |]]; exact H.
Qed.

(** Rounding to nearest, ties to even, of a located value. *)
Lemma round_nearest_even_close (mrs : shr_record) (x : Q) :
  represents mrs x ->
  let k := round_nearest_even (shr_m mrs) (loc_of_shr_record mrs) in
  shr_m mrs <= k <= shr_m mrs + 1
  /\ (Qabs (inject_Z k - x) <= 1 # 2)%Q
  /\ (loc_of_shr_record mrs = loc_Exact -> (inject_Z k == x)%Q).
Proof.
  intros [Hm H]. cbv zeta.
  set (m := shr_m mrs) in *. clearbody m.
  destruct (loc_of_shr_record mrs) as [|[| |]]; cbn [round_nearest_even located] in *.
  - split; [lia|]. split; [apply Qabs_Qle_condition; lra|]. intros _. lra.
  - destruct (Z.even m).
    + split; [lia|]. split; [apply Qabs_Qle_condition; lra | discriminate].
    + split; [lia|]. rewrite inject_Z_plus. change (inject_Z 1) with 1%Q.
      split; [apply Qabs_Qle_condition; lra | discriminate].
  - split; [lia|]. split; [apply Qabs_Qle_condition; lra | discriminate].
  - split; [lia|]. rewrite inject_Z_plus. change (inject_Z 1) with 1%Q.
    split; [apply Qabs_Qle_condition; lra | discriminate].
Qed.

Lemma located_range (l : location) (theta : Q) : located l theta -> (0 <= theta < 1)%Q.
Proof. destruct l as [|[| |]]; cbn; lra. Qed.

Lemma digits2_pos_bounds (p : positive) :
  2 ^ (Zpos (digits2_pos p) - 1) <= Zpos p < 2 ^ Zpos (digits2_pos p).
Proof.
  induction p as [p IH|p IH|]; cbn [digits2_pos].
  - rewrite Pos2Z.inj_succ, (Pos2Z.inj_xI p).
    replace (Z.succ (Zpos (digits2_pos p)) - 1) with (Z.succ (Zpos (digits2_pos p) - 1)) by lia.
    rewrite !Z.pow_succ_r by lia.
    revert IH. generalize (2 ^ (Zpos (digits2_pos p) - 1)) (2 ^ Zpos (digits2_pos p)). lia.
  - rewrite Pos2Z.inj_succ, (Pos2Z.inj_xO p).
    replace (Z.succ (Zpos (digits2_pos p)) - 1) with (Z.succ (Zpos (digits2_pos p) - 1)) by lia.
    rewrite !Z.pow_succ_r by lia.
    revert IH. generalize (2 ^ (Zpos (digits2_pos p) - 1)) (2 ^ Zpos (digits2_pos p)). lia.
  - cbn. lia.
Qed.

Lemma Zdigits2_bounds (m : Z) :
  0 <= m -> 0 <= Zdigits2 m /\ m < 2 ^ Zdigits2 m /\ (0 < m -> 2 ^ (Zdigits2 m - 1) <= m).
Proof.
  intros Hm. destruct m as [|p|p]; [cbn; lia| |lia].
  cbn [Zdigits2]. pose proof (digits2_pos_bounds p). lia.
Qed.

Lemma Zdigits2_le (m b : Z) : 0 <= m -> 0 <= b -> m < 2 ^ b -> Zdigits2 m <= b.
Proof.
  intros Hm Hb Hlt. destruct (Z.eq_dec m 0) as [->|Hz]; [cbn; lia|].
  destruct (Zdigits2_bounds m Hm) as (Hd & _ & Hlow). specialize (Hlow ltac:(lia)).
  destruct (Z_le_gt_dec (Zdigits2 m) b) as [H|H]; [exact H|].
  assert (2 ^ b <= 2 ^ (Zdigits2 m - 1)) by (apply Z.pow_le_mono_r; lia). lia.
Qed.

Lemma fexp_eq (e : Z) : fexp prec emax e = Z.max (e - 53) (-1074).
Proof. reflexivity. Qed.

Lemma binary_round_aux_spec (sx : bool) (mx ex : Z) (lx : location) (x : Q) :
  0 <= mx -> located lx (x - inject_Z mx) ->
  let e1 := Z.max (fexp prec emax (Zdigits2 mx + ex)) ex in
  exists k,
    0 <= k <= 2 ^ 53
    /\ (Qabs (inject_Z k - x * pow2 (ex - e1)) <= 1 # 2)%Q
    /\ (lx = loc_Exact -> e1 = ex -> k = mx)
    /\ match binary_round_aux prec emax sx mx ex lx with
       | S754_zero s => s = sx /\ k = 0
       | S754_infinity s => s = sx /\ 971 <= e1
       | S754_finite s m e =>
           s = sx /\ (inject_Z (Zpos m) * pow2 e == inject_Z k * pow2 e1)%Q
           /\ e1 <= e <= e1 + 1 /\ e <= 971
       | S754_nan => False
       end.
Proof.
  intros Hm Hloc e1.
  pose proof (record_of_loc_represents mx lx x Hm Hloc) as Hrep.
  unfold binary_round_aux, shr_fexp.
  set (n1 := fexp prec emax (Zdigits2 mx + ex) - ex).
  pose proof (shr_represents _ ex n1 x Hrep) as H1.
  destruct (shr (shr_record_of_loc mx lx) ex n1) as [mrs' e'] eqn:E1.
  destruct H1 as [He' Hrep'].
  assert (He1 : e' = e1) by (unfold e1, n1 in *; lia).
  assert (Hshift : - Z.max n1 0 = ex - e1) by (unfold e1, n1; lia).
  rewrite Hshift in Hrep'.
  pose proof (round_nearest_even_close mrs' _ Hrep') as Hk. cbv zeta in Hk.
  set (k := round_nearest_even (shr_m mrs') (loc_of_shr_record mrs')) in *.
  destruct Hk as (Hk1 & Hk2 & Hk3).
  destruct Hrep' as [Hm' Hloc'].
  pose proof (located_range _ _ Hloc') as Hth.
  pose proof (located_range _ _ Hloc) as Hth0.
  destruct (Zdigits2_bounds mx Hm) as (Hd0 & Hd1 & _).
  set (d := Zdigits2 mx) in *.
  assert (He1min : -1074 <= e1 /\ d + ex - 53 <= e1).
  { unfold e1. rewrite fexp_eq. lia. }
  assert (Hm53 : shr_m mrs' < 2 ^ 53).
  { rewrite Zlt_Qlt. rewrite <- pow2_Z by lia.
    assert (Hx : (x < pow2 d)%Q).
    { rewrite pow2_Z by exact Hd0.
      assert (Hq : (inject_Z mx + 1 <= inject_Z (2 ^ d))%Q).
      { change 1%Q with (inject_Z 1). rewrite <- inject_Z_plus, <- Zle_Qle. lia. }
      lra. }
    assert (Hp : (pow2 d * pow2 (ex - e1) <= pow2 53)%Q).
    { rewrite <- pow2_add. apply pow2_le. lia. }
    pose proof (pow2_pos (ex - e1)) as Hpp.
    assert (Hxx : (x * pow2 (ex - e1) < pow2 d * pow2 (ex - e1))%Q).
    { apply Qmult_lt_compat_r; assumption. }
    lra. }
  exists k. split; [lia|]. split; [exact Hk2|]. split.
  { intros -> Hee. unfold shr in E1.
    assert (Hn1 : n1 <= 0) by (unfold n1, e1 in *; lia).
    assert (mrs' = shr_record_of_loc mx loc_Exact) as ->.
    { destruct n1; [congruence| lia | congruence]. }
    reflexivity. }
  rewrite He'. fold e1 in He1. rewrite <- He'. rewrite He1.
  destruct (Z.eq_dec k (2 ^ 53)) as [Hk53|Hk53].
  - rewrite Hk53.
    assert (En : fexp prec emax (Zdigits2 (2 ^ 53) + e1) - e1 = 1).
    { rewrite fexp_eq. change (Zdigits2 (2 ^ 53)) with 54. lia. }
    rewrite En. cbn [shr shr_record_of_loc iter_pos].
    change (shr_m (shr_1 {| shr_m := 2 ^ 53; shr_r := false; shr_s := false |}))
      with (Zpos (2 ^ 52)).
    cbv iota beta.
    destruct (Z.leb (e1 + 1) (emax - prec)) eqn:El.
    + apply Z.leb_le in El. change (emax - prec) with 971 in El.
      split; [reflexivity|]. split; [|lia].
      rewrite pow2_succ. change (inject_Z (Zpos (2 ^ 52))) with (inject_Z (2 ^ 52)).
      change (inject_Z (2 ^ 53)) with (2 * inject_Z (2 ^ 52))%Q. ring.
    + apply Z.leb_gt in El. change (emax - prec) with 971 in El. split; [reflexivity|lia].
  - assert (Hdk : Zdigits2 k <= 53) by (apply Zdigits2_le; lia).
    assert (En : fexp prec emax (Zdigits2 k + e1) - e1 <= 0) by (rewrite fexp_eq; lia).
    assert (Es : shr (shr_record_of_loc k loc_Exact) e1 (fexp prec emax (Zdigits2 k + e1) - e1)
                 = (shr_record_of_loc k loc_Exact, e1)).
    { unfold shr. destruct (fexp prec emax (Zdigits2 k + e1) - e1); [reflexivity|lia|reflexivity]. }
    rewrite Es. cbn [shr_record_of_loc shr_m].
    destruct k as [|pk|pk]; [split; reflexivity| |lia].
    destruct (Z.leb e1 (emax - prec)) eqn:El.
    + apply Z.leb_le in El. change (emax - prec) with 971 in El.
      split; [reflexivity|]. split; [reflexivity|lia].
    + apply Z.leb_gt in El. change (emax - prec) with 971 in El. split; [reflexivity|lia].
Qed.

Lemma Zdigits2_unique (m b : Z) : 2 ^ (b - 1) <= m < 2 ^ b -> 0 < b -> Zdigits2 m = b.
Proof.
  intros [Hlo Hhi] Hb.
  assert (Hm : 0 < m) by (pose proof (Z.pow_pos_nonneg 2 (b - 1)); lia).
  destruct (Zdigits2_bounds m ltac:(lia)) as (Hd & Hd1 & Hd2). specialize (Hd2 Hm).
  destruct (Z.lt_trichotomy (Zdigits2 m) b) as [H|[H|H]]; [|exact H|].
  - assert (2 ^ Zdigits2 m <= 2 ^ (b - 1)) by (apply Z.pow_le_mono_r; lia). lia.
  - assert (2 ^ b <= 2 ^ (Zdigits2 m - 1)) by (apply Z.pow_le_mono_r; lia). lia.
Qed.

Lemma SFabsQ_nonneg (x : spec_float) : (0 <= SFabsQ x)%Q.
Proof.
  destruct x as [s|s| |s m e]; cbn; try lra.
  pose proof (pow2_pos e). assert (0 < inject_Z (Zpos m))%Q by (rewrite <- (Zlt_Qlt 0); lia). nra.
Qed.

Lemma rounds_to_ext (r a b : Q) : (a == b)%Q -> rounds_to r a -> rounds_to r b.
Proof. intros E [H|[H1 H2]]; [left|right]; rewrite <- E; auto. Qed.

Lemma rounds_to_exact (r a : Q) : (r == a)%Q -> (0 <= a)%Q -> rounds_to r a.
Proof.
  intros E Ha. left. rewrite E.
  setoid_replace (a - a)%Q with 0%Q by ring. cbn.
  pose proof (pow2_pos (-53)). nra.
Qed.

(** From the mantissa-level statement to the value-level one. *)
Lemma round_error (mx ex e1 k : Z) (x : Q) :
  (inject_Z mx <= x < inject_Z mx + 1)%Q -> 0 <= mx ->
  e1 = Z.max (fexp prec emax (Zdigits2 mx + ex)) ex ->
  (Qabs (inject_Z k - x * pow2 (ex - e1)) <= 1 # 2)%Q ->
  (e1 = ex -> (inject_Z k == x)%Q \/ 53 <= Zdigits2 mx \/ e1 = -1074) ->
  rounds_to (inject_Z k * pow2 e1) (x * pow2 ex).
Proof.
  intros Hx Hm He1 Hk Hnoshift.
  set (d := Zdigits2 mx) in *.
  assert (Herr : (Qabs (inject_Z k * pow2 e1 - x * pow2 ex) <= pow2 (e1 - 1))%Q).
  { assert (E : (inject_Z k * pow2 e1 - x * pow2 ex
                 == (inject_Z k - x * pow2 (ex - e1)) * pow2 e1)%Q).
    { rewrite pow2_sub. field. pose proof (pow2_pos e1). lra. }
    rewrite E, Qabs_Qmult, (Qabs_pos (pow2 e1)) by (pose proof (pow2_pos e1); lra).
    rewrite pow2_pred. pose proof (pow2_pos e1). nra. }
  destruct (Zdigits2_bounds mx Hm) as (Hd0 & Hd1 & Hd2). fold d in Hd0, Hd1, Hd2.
  assert (Hupper : (x * pow2 ex < pow2 (d + ex))%Q).
  { rewrite pow2_add. apply Qmult_lt_compat_r; [apply pow2_pos|].
    rewrite pow2_Z by exact Hd0.
    assert (inject_Z mx + 1 <= inject_Z (2 ^ d))%Q.
    { change 1%Q with (inject_Z 1). rewrite <- inject_Z_plus, <- Zle_Qle. lia. }
    lra. }
  rewrite fexp_eq in He1.
  destruct (Z.eq_dec e1 (-1074)) as [Emin|Emin].
  - right. split.
    + eapply Qlt_le_trans; [exact Hupper|]. apply pow2_le. lia.
    + rewrite Emin in Herr |- *. change (-1074 - 1) with (-1075) in Herr. exact Herr.
  - destruct (Z_lt_le_dec (d + ex - 53) e1) as [Hlt|Hge].
    + (* no shift *)
      assert (Hee : e1 = ex) by lia.
      destruct (Hnoshift Hee) as [Hex|[Hd53|Hbad]]; [| lia | lia].
      apply rounds_to_exact.
      * rewrite Hee, Hex. reflexivity.
      * pose proof (pow2_pos ex).
        assert (0 <= inject_Z mx)%Q by (rewrite <- (Zle_Qle 0); exact Hm). nra.
    + assert (Hee : e1 = d + ex - 53) by lia.
      left. eapply Qle_trans; [exact Herr|].
      assert (Hmpos : 0 < mx).
      { destruct (Z.eq_dec mx 0) as [Hz|Hz]; [|lia].
        exfalso. unfold d in Hee. rewrite Hz in Hee. cbn in Hee. lia. }
      specialize (Hd2 Hmpos).
      assert (Hlow : (pow2 (d - 1 + ex) <= x * pow2 ex)%Q).
      { rewrite pow2_add. apply Qmult_le_compat_r; [|pose proof (pow2_pos ex); lra].
        rewrite pow2_Z by lia.
        assert (inject_Z (2 ^ (d - 1)) <= inject_Z mx)%Q by (rewrite <- Zle_Qle; exact Hd2).
        lra. }
      assert (E : (pow2 (e1 - 1) == pow2 (-53) * pow2 (d - 1 + ex))%Q).
      { rewrite <- pow2_add. replace (-53 + (d - 1 + ex)) with (e1 - 1) by lia. reflexivity. }
      rewrite E. pose proof (pow2_pos (-53)). nra.
Qed.

Lemma rounds_to_ext_l (r r' a : Q) : (r == r')%Q -> rounds_to r a -> rounds_to r' a.
Proof. intros E [H|[H1 H2]]; [left|right]; rewrite <- E; auto. Qed.

Lemma inject_Z_pos (p : positive) : (0 < inject_Z (Zpos p))%Q.
Proof. rewrite <- (Zlt_Qlt 0). lia. Qed.

Lemma SFmul_spec (x y : spec_float) :
  SFfinite x = true -> SFfinite y = true ->
  let r := SFmul prec emax x y in
  r <> S754_nan
  /\ SFsign r = xorb (SFsign x) (SFsign y)
  /\ (SFfinite r = true -> rounds_to (SFabsQ r) (SFabsQ x * SFabsQ y)).
Proof.
  intros Hx Hy.
  destruct x as [sx|sx| |sx mx ex]; try discriminate;
    destruct y as [sy|sy| |sy my ey]; try discriminate; cbn [SFmul SFsign SFabsQ].
  - cbv zeta. split; [discriminate|]. split; [reflexivity|]. intros _.
    apply rounds_to_exact; [ring|lra].
  - cbv zeta. split; [discriminate|]. split; [reflexivity|]. intros _.
    apply rounds_to_exact; [ring|lra].
  - cbv zeta. split; [discriminate|]. split; [reflexivity|]. intros _.
    apply rounds_to_exact; [ring|lra].
  - cbv zeta.
    assert (Hloc : located loc_Exact (inject_Z (Zpos (mx * my)) - inject_Z (Zpos (mx * my)))).
    { cbn. ring. }
    destruct (binary_round_aux_spec (xorb sx sy) (Zpos (mx * my)) (ex + ey) loc_Exact
                (inject_Z (Zpos (mx * my))) ltac:(lia) Hloc)
      as (k & Hk0 & Hk1 & Hk2 & Hres).
    cbv zeta in Hk1, Hk2, Hres.
    set (e1 := Z.max (fexp prec emax (Zdigits2 (Zpos (mx * my)) + (ex + ey))) (ex + ey)) in *.
    assert (Hround : rounds_to (inject_Z k * pow2 e1)
                       (inject_Z (Zpos mx) * pow2 ex * (inject_Z (Zpos my) * pow2 ey))).
    { apply (rounds_to_ext _ (inject_Z (Zpos (mx * my)) * pow2 (ex + ey))).
      - rewrite Pos2Z.inj_mul, inject_Z_mult, pow2_add. ring.
      - apply (round_error (Zpos (mx * my)) (ex + ey) e1 k); try reflexivity; try lia.
        + lra.
        + exact Hk1.
        + intros Hee. left. rewrite (Hk2 eq_refl Hee). reflexivity. }
    destruct (binary_round_aux prec emax (xorb sx sy) (Zpos (mx * my)) (ex + ey) loc_Exact)
      as [s|s| |s m e].
    + destruct Hres as [-> ->]. split; [discriminate|]. split; [reflexivity|]. intros _.
      cbn [SFabsQ]. eapply rounds_to_ext_l; [|exact Hround]. cbn. ring.
    + destruct Hres as [-> _]. split; [discriminate|]. split; [reflexivity|]. discriminate.
    + destruct Hres.
    + destruct Hres as (-> & Hv & _). split; [discriminate|]. split; [reflexivity|]. intros _.
      cbn [SFabsQ]. eapply rounds_to_ext_l; [|exact Hround]. symmetry. exact Hv.
Qed.

Lemma Qdiv_half (k nb : Z) :
  0 < nb ->
  ((inject_Z k / inject_Z nb < 1 # 2)%Q <-> 2 * k < nb)
  /\ (((1 # 2) < inject_Z k / inject_Z nb)%Q <-> nb < 2 * k)
  /\ ((inject_Z k / inject_Z nb == 1 # 2)%Q <-> 2 * k = nb).
Proof.
  intros Hnb.
  assert (Hn : (0 < inject_Z nb)%Q) by (rewrite <- (Zlt_Qlt 0); lia).
  assert (Ht : (inject_Z k / inject_Z nb * inject_Z nb == inject_Z k)%Q) by (field; lra).
  assert (Hz : forall a b : Z, a < b <-> (inject_Z a < inject_Z b)%Q).
  { intros a b. rewrite Zlt_Qlt. tauto. }
  assert (Hze : forall a b : Z, a = b <-> (inject_Z a == inject_Z b)%Q).
  { intros a b. symmetry. apply inject_Z_injective. }
  rewrite (Hz (2 * k) nb), (Hz nb (2 * k)), (Hze (2 * k) nb), !inject_Z_mult.
  change (inject_Z 2) with 2%Q.
  revert Ht Hn. generalize (inject_Z k / inject_Z nb)%Q (inject_Z k) (inject_Z nb).
  intros t K N Ht Hn.
  repeat split; intros H; nra.
Qed.

Lemma new_location_located (nb k : Z) :
  0 <= k < nb -> located (new_location nb k) (inject_Z k / inject_Z nb).
Proof.
  intros [Hk Hnb].
  assert (Hn : (0 < inject_Z nb)%Q) by (rewrite <- (Zlt_Qlt 0); lia).
  destruct (Qdiv_half k nb ltac:(lia)) as (H1 & H2 & H3).
  assert (Hone : (inject_Z k / inject_Z nb < 1)%Q).
  { apply Qlt_shift_div_r; [exact Hn|]. rewrite Zlt_Qlt in Hnb. lra. }
  assert (Hzero : 0 < k -> (0 < inject_Z k / inject_Z nb)%Q).
  { intros Hp. apply Qlt_shift_div_l; [exact Hn|]. rewrite Zlt_Qlt in Hp.
    change (inject_Z 0) with 0%Q in Hp. lra. }
  unfold new_location, new_location_even, new_location_odd.
  destruct (Z.even nb) eqn:Ev; cbv beta; destruct (Z.eqb_spec k 0) as [Hk0|Hk0].
  - rewrite Hk0. cbn. unfold Qdiv; change (inject_Z 0) with 0%Q; ring.
  - specialize (Hzero ltac:(lia)).
    destruct (Z.compare_spec (2 * k) nb) as [E|E|E]; cbn [located].
    + apply H3, E.
    + split; [exact Hzero|]. apply H1. lia.
    + split; [|exact Hone]. apply H2. lia.
  - rewrite Hk0. cbn. unfold Qdiv; change (inject_Z 0) with 0%Q; ring.
  - specialize (Hzero ltac:(lia)).
    assert (Hodd : 2 * k <> nb).
    { intros E. rewrite <- E in Ev. rewrite Z.even_mul in Ev. discriminate. }
    destruct (Z.compare_spec (2 * k + 1) nb) as [E|E|E]; cbn [located].
    + split; [exact Hzero|]. apply H1. lia.
    + split; [exact Hzero|]. apply H1. lia.
    + split; [|exact Hone]. apply H2. lia.
Qed.

Lemma Zpos_pow2_bounds (m : positive) :
  (pow2 (Zdigits2 (Zpos m) - 1) <= inject_Z (Zpos m) < pow2 (Zdigits2 (Zpos m)))%Q.
Proof.
  destruct (Zdigits2_bounds (Zpos m) ltac:(lia)) as (H0 & H1 & H2). specialize (H2 ltac:(lia)).
  assert (0 < Zdigits2 (Zpos m)) by (cbn; lia).
  rewrite !pow2_Z by lia. rewrite <- Zle_Qle, <- Zlt_Qlt. lia.
Qed.

Lemma SFdiv_spec (sx sy : bool) (mx my : positive) (ex ey : Z) :
  let r := SFdiv prec emax (S754_finite sx mx ex) (S754_finite sy my ey) in
  let Y := (inject_Z (Zpos mx) * pow2 ex / (inject_Z (Zpos my) * pow2 ey))%Q in
  r <> S754_nan /\ SFsign r = xorb sx sy
  /\ (SFfinite r = true -> rounds_to (SFabsQ r) Y)
  /\ (SFfinite r = false -> (pow2 1023 <= Y)%Q).
Proof.
  cbv zeta. unfold SFdiv, SFdiv_core_binary.
  set (d1 := Zdigits2 (Zpos mx)). set (d2 := Zdigits2 (Zpos my)).
  set (D := d1 + ex - (d2 + ey)).
  set (e' := Z.min (fexp prec emax D) (ex - ey)).
  set (s := ex - ey - e').
  assert (Hs : 0 <= s) by (unfold s, e'; lia).
  set (m' := match s with Zpos _ => Z.shiftl (Zpos mx) s | Z0 => Zpos mx | Zneg _ => 0 end).
  assert (Hm' : m' = Zpos mx * 2 ^ s).
  { unfold m'. destruct s as [|p|p]; [lia | apply Z.shiftl_mul_pow2; lia | lia]. }
  pose proof (Z_div_mod m' (Zpos my) ltac:(lia)) as Hdm.
  destruct (Z.div_eucl m' (Zpos my)) as [q r]. destruct Hdm as [Hdm Hr].
  set (Y := (inject_Z (Zpos mx) * pow2 ex / (inject_Z (Zpos my) * pow2 ey))%Q).
  set (X := (inject_Z m' / inject_Z (Zpos my))%Q).
  pose proof (inject_Z_pos mx) as Hmx. pose proof (inject_Z_pos my) as Hmy.
  pose proof (pow2_pos ex) as Hpex. pose proof (pow2_pos ey) as Hpey.
  pose proof (pow2_pos e') as Hpe'.
  assert (Hq : 0 <= q).
  { assert (0 <= m') by (rewrite Hm'; pose proof (Z.pow_nonneg 2 s); nia). nia. }
  assert (HX : (X - inject_Z q == inject_Z r / inject_Z (Zpos my))%Q).
  { unfold X. rewrite Hdm, inject_Z_plus, inject_Z_mult. field. lra. }
  assert (Hloc : located (new_location (Zpos my) r) (X - inject_Z q)).
  { eapply located_ext; [symmetry; exact HX|]. apply new_location_located. lia. }
  assert (HY : (Y == X * pow2 e')%Q).
  { unfold Y, X. rewrite Hm', inject_Z_mult, <- pow2_Z by exact Hs.
    unfold s. rewrite !pow2_sub. field. repeat split; lra. }
  assert (HYD : (pow2 (D - 1) < Y)%Q).
  { pose proof (Zpos_pow2_bounds mx) as [Hb1 _]. pose proof (Zpos_pow2_bounds my) as [_ Hb2].
    fold d1 in Hb1. fold d2 in Hb2.
    assert (E : (pow2 (D - 1) == pow2 (d1 - 1) * pow2 ex / (pow2 d2 * pow2 ey))%Q).
    { unfold D. replace (d1 + ex - (d2 + ey) - 1) with ((d1 - 1 + ex) - (d2 + ey)) by lia.
      rewrite pow2_sub, !pow2_add. reflexivity. }
    rewrite E. unfold Y.
    pose proof (pow2_pos (d1 - 1)) as Hp1. pose proof (pow2_pos d2) as Hp2.
    apply Qlt_shift_div_r; [nra|].
    assert (E2 : (inject_Z (Zpos mx) * pow2 ex / (inject_Z (Zpos my) * pow2 ey)
                  * (pow2 d2 * pow2 ey)
                  == inject_Z (Zpos mx) * pow2 ex * (pow2 d2 / inject_Z (Zpos my)))%Q).
    { field. repeat split; lra. }
    rewrite E2.
    assert (H1 : (1 < pow2 d2 / inject_Z (Zpos my))%Q).
    { apply Qlt_shift_div_l; [exact Hmy|]. lra. }
    assert (H2 : (pow2 (d1 - 1) * pow2 ex <= inject_Z (Zpos mx) * pow2 ex)%Q) by nra.
    assert (H3 : (0 < inject_Z (Zpos mx) * pow2 ex)%Q) by nra.
    revert H1 H2 H3.
    generalize (pow2 d2 / inject_Z (Zpos my))%Q (inject_Z (Zpos mx) * pow2 ex)%Q
      (pow2 (d1 - 1) * pow2 ex)%Q.
    intros a b c H1 H2 H3. nra. }
  destruct (binary_round_aux_spec (xorb sx sy) q e' (new_location (Zpos my) r) X Hq Hloc)
    as (k & Hk0 & Hk1 & _ & Hres).
  cbv zeta in Hk1, Hres.
  set (dq := Zdigits2 q) in *.
  set (e1 := Z.max (fexp prec emax (dq + e')) e') in *.
  pose proof (located_range _ _ Hloc) as Hth.
  destruct (Zdigits2_bounds q Hq) as (Hdq0 & Hdq1 & Hdq2). fold dq in Hdq0, Hdq1, Hdq2.
  assert (HYup : (Y < pow2 (dq + e'))%Q).
  { rewrite HY, pow2_add. apply Qmult_lt_compat_r; [exact Hpe'|].
    rewrite pow2_Z by exact Hdq0.
    assert (inject_Z q + 1 <= inject_Z (2 ^ dq))%Q.
    { change 1%Q with (inject_Z 1). rewrite <- inject_Z_plus, <- Zle_Qle. lia. }
    lra. }
  assert (Hnarrow : e1 = e' -> 53 <= dq \/ e1 = -1074).
  { intros Hee.
    destruct (Z_le_gt_dec 53 dq) as [H53|H53]; [left; exact H53|right].
    destruct (Z.eq_dec e1 (-1074)) as [Hmin|Hmin]; [exact Hmin|exfalso].
    assert (He'D : e' <= D - 53).
    { unfold e1 in *. rewrite fexp_eq in *. unfold e' in *. rewrite fexp_eq in *. lia. }
    assert (pow2 (dq + e') <= pow2 (D - 1))%Q by (apply pow2_le; lia).
    lra. }
  assert (Hround : rounds_to (inject_Z k * pow2 e1) Y).
  { apply (rounds_to_ext _ (X * pow2 e')); [symmetry; exact HY|].
    apply (round_error q e' e1 k); try reflexivity; try assumption.
    - lra.
    - intros Hee. right. exact (Hnarrow Hee). }
  assert (Hover : 971 <= e1 -> (pow2 1023 <= Y)%Q).
  { intros Hbig.
    assert (Hcase : e1 = dq + e' - 53).
    { destruct (Z.eq_dec e1 e') as [Hee|Hee].
      - destruct (Hnarrow Hee) as [H|H]; [|lia].
        unfold e1 in *. rewrite fexp_eq in *. lia.
      - unfold e1 in *. rewrite fexp_eq in *. lia. }
    assert (Hqpos : 0 < q).
    { destruct (Z.eq_dec q 0) as [Hz|Hz]; [|lia]. exfalso.
      unfold dq in Hcase. rewrite Hz in Hcase. cbn in Hcase.
      unfold e1 in Hcase. rewrite fexp_eq in Hcase. lia. }
    specialize (Hdq2 Hqpos).
    assert (Hlow : (pow2 (dq - 1 + e') <= Y)%Q).
    { rewrite HY, pow2_add. apply Qmult_le_compat_r; [|lra].
      rewrite pow2_Z by lia.
      assert (inject_Z (2 ^ (dq - 1)) <= inject_Z q)%Q by (rewrite <- Zle_Qle; exact Hdq2).
      lra. }
    eapply Qle_trans; [|exact Hlow]. apply pow2_le. lia. }
  destruct (binary_round_aux prec emax (xorb sx sy) q e' (new_location (Zpos my) r))
    as [s0|s0| |s0 m0 e0].
  - destruct Hres as [-> ->]. split; [discriminate|]. split; [reflexivity|].
    split; [|discriminate]. intros _. cbn [SFabsQ].
    eapply rounds_to_ext_l; [|exact Hround]. cbn. ring.
  - destruct Hres as [-> Hbig]. split; [discriminate|]. split; [reflexivity|].
    split; [discriminate|]. intros _. exact (Hover Hbig).
  - destruct Hres.
  - destruct Hres as (-> & Hv & _). split; [discriminate|]. split; [reflexivity|].
    split; [|discriminate]. intros _. cbn [SFabsQ].
    eapply rounds_to_ext_l; [|exact Hround]. symmetry. exact Hv.
Qed.

(** *** Integers as floats *)

Lemma iter_xO_value (p k : positive) :
  Zpos (Pos.iter xO p k) = Zpos p * 2 ^ Zpos k.
Proof.
  induction k as [|k IH] using Pos.peano_ind.
  - cbn [Pos.iter]. rewrite (Pos2Z.inj_xO p). change (2 ^ 1) with 2. lia.
  - rewrite Pos.iter_succ, (Pos2Z.inj_xO (Pos.iter xO p k)), IH, Pos2Z.inj_succ.
    rewrite Z.pow_succ_r by lia. lia.
Qed.

Lemma binary_normalize_small (n : Z) :
  0 < n < 2 ^ 53 ->
  exists m e,
    binary_normalize prec emax n 0 false = S754_finite false m e
    /\ (inject_Z (Zpos m) * pow2 e == inject_Z n)%Q
    /\ valid_binary (S754_finite false m e) = true.
Proof.
  intros [Hn0 Hn].
  destruct n as [|p|p]; try lia.
  cbn [binary_normalize]. unfold binary_round.
  destruct (Zdigits2_bounds (Zpos p) ltac:(lia)) as (_ & Hd1 & Hd2). specialize (Hd2 ltac:(lia)).
  cbn [Zdigits2] in Hd1, Hd2.
  set (d := Zpos (digits2_pos p)) in *.
  assert (Hd : 1 <= d <= 53).
  { split; [unfold d; lia|]. 
    destruct (Z_le_gt_dec d 53) as [H|H]; [exact H|].
    assert (2 ^ 53 <= 2 ^ (d - 1)) by (apply Z.pow_le_mono_r; lia). lia. }
  assert (Hshl : exists mz ez,
             shl_align p 0 (fexp prec emax (d + 0)) = (mz, ez)
             /\ Zpos mz = Zpos p * 2 ^ (53 - d) /\ ez = d - 53).
  { unfold shl_align. rewrite fexp_eq.
    replace (Z.max (d + 0 - 53) (-1074) - 0) with (d - 53) by lia.
    replace (Z.max (d + 0 - 53) (-1074)) with (d - 53) by lia.
    destruct (d - 53) as [|k|k] eqn:Ek; try lia.
    - exists p, 0. split; [reflexivity|]. replace (53 - d) with 0 by lia.
      split; [lia|reflexivity].
    - exists (Pos.iter xO p k), (Zneg k). split; [reflexivity|].
      rewrite iter_xO_value. replace (53 - d) with (Zpos k) by lia. split; reflexivity. }
  destruct Hshl as (mz & ez & -> & Hmz & Hez).
  assert (Hdig : Zdigits2 (Zpos mz) = 53).
  { apply Zdigits2_unique; [|lia]. rewrite Hmz.
    assert (E1 : 2 ^ (53 - 1) = 2 ^ (d - 1) * 2 ^ (53 - d)).
    { rewrite <- Z.pow_add_r by lia. f_equal. lia. }
    assert (E2 : 2 ^ 53 = 2 ^ d * 2 ^ (53 - d)).
    { rewrite <- Z.pow_add_r by lia. f_equal. lia. }
    rewrite E1, E2.
    pose proof (Z.pow_pos_nonneg 2 (53 - d) ltac:(lia) ltac:(lia)) as Hpos.
    revert Hd1 Hd2 Hpos. generalize (2 ^ (d - 1)) (2 ^ d) (2 ^ (53 - d)). intros a b c. nia. }
  assert (Hfexp : fexp prec emax (Zdigits2 (Zpos mz) + ez) - ez = 0).
  { rewrite Hdig, fexp_eq. lia. }
  unfold binary_round_aux, shr_fexp. rewrite Hfexp.
  cbn [shr shr_record_of_loc shr_m loc_of_shr_record round_nearest_even].
  rewrite Hfexp. cbn [shr shr_m].
  assert (Hle : Z.leb ez (emax - prec) = true) by (apply Z.leb_le; change (emax - prec) with 971; lia).
  rewrite Hle. exists mz, ez. split; [reflexivity|]. split.
  - rewrite Hmz, Hez, inject_Z_mult, <- pow2_Z by lia.
    rewrite <- Qmult_assoc, <- pow2_add. replace (53 - d + (d - 53)) with 0 by lia.
    change (pow2 0) with 1%Q. ring.
  - cbn [valid_binary]. unfold bounded, canonical_mantissa. rewrite Hle, andb_true_r.
    apply Z.eqb_eq. cbn [Zdigits2] in Hdig. rewrite Hdig, fexp_eq. lia.
Qed.

(** *** Truncation *)


Lemma trunc_finite (x : float) (n : Z) : trunc x = Some n -> is_finite x = true.
Proof. unfold trunc, is_finite. destruct (Prim2SF x); cbn; congruence. Qed.

Lemma Qfloor_mantissa (m : positive) (e : Z) :
  Qfloor (inject_Z (Zpos m) * pow2 e) = Z.shiftl (Zpos m) e.
Proof.
  destruct (Z_le_gt_dec 0 e) as [He|He].
  - rewrite Z.shiftl_mul_pow2 by exact He.
    rewrite (Qfloor_comp _ (inject_Z (Zpos m * 2 ^ e))).
    + apply Qfloor_Z.
    + rewrite inject_Z_mult, pow2_Z by exact He. reflexivity.
  - rewrite Z.shiftl_div_pow2 by lia.
    assert (Hp : 0 < 2 ^ (- e)) by (apply Z.pow_pos_nonneg; lia).
    assert (Hpe : (pow2 e == / inject_Z (2 ^ (- e)))%Q).
    { rewrite <- pow2_Z by lia. rewrite <- pow2_opp, Z.opp_involutive. reflexivity. }
    destruct (2 ^ (- e)) as [|k|k] eqn:Ek; try lia.
    rewrite (Qfloor_comp _ (Zpos m # k)).
    + reflexivity.
    + rewrite Hpe, Qmake_Qdiv. reflexivity.
Qed.

Lemma trunc_toward_zero (x : float) :
  is_finite x = true -> trunc x = Some (toward_zero (value x)).
Proof.
  unfold is_finite, trunc, value, toward_zero.
  destruct (Prim2SF x) as [s|s| |s m e]; try discriminate; intros _.
  - unfold SF2Q. cbn [SFsign SFabsQ]. destruct s; reflexivity.
  - unfold SF2Q. cbn [SFsign SFabsQ cond_Zopp].
    pose proof (pow2_pos e) as Hp. pose proof (inject_Z_pos m) as Hm.
    assert (Hv : (0 < inject_Z (Zpos m) * pow2 e)%Q) by nra.
    destruct s; cbn [cond_Zopp].
    + destruct (Qle_bool 0 (- (inject_Z (Zpos m) * pow2 e))) eqn:E.
      * apply Qle_bool_iff in E. lra.
      * unfold Qceiling. rewrite (Qfloor_comp _ (inject_Z (Zpos m) * pow2 e)) by ring.
        rewrite Qfloor_mantissa. reflexivity.
    + destruct (Qle_bool 0 (inject_Z (Zpos m) * pow2 e)) eqn:E.
      * rewrite Qfloor_mantissa. reflexivity.
      * assert (Qle_bool 0 (inject_Z (Zpos m) * pow2 e) = true) by (apply Qle_bool_iff; lra).
        congruence.
Qed.

Lemma toward_zero_bounds (v : Q) :
  let n := toward_zero v in
  ((0 <= v -> inject_Z n <= v < inject_Z n + 1)
   /\ (v < 0 -> inject_Z n - 1 < v <= inject_Z n))%Q.
Proof.
  cbv zeta. unfold toward_zero.
  destruct (Qle_bool 0 v) eqn:E.
  - apply Qle_bool_iff in E. split; [|lra]. intros _.
    pose proof (Qfloor_le v) as H. pose proof (Qlt_floor v) as H2.
    rewrite inject_Z_plus in H2. change (inject_Z 1) with 1%Q in H2.
    revert H H2. generalize (inject_Z (Qfloor v)). intros c H H2. lra.
  - assert (Hv : (v < 0)%Q).
    { destruct (Qlt_le_dec v 0) as [H|H]; [exact H|].
      apply Qle_bool_iff in H. congruence. }
    split; [lra|]. intros _.
    pose proof (Qle_ceiling v) as H. pose proof (Qceiling_lt v) as H2.
    unfold Z.sub in H2. rewrite inject_Z_plus in H2.
    cbn [Z.opp] in H2. change (inject_Z (-1)) with (- (1))%Q in H2.
    revert H H2. generalize (inject_Z (Qceiling v)). intros c H H2. lra.
Qed.

(** *** The arithmetic of a round trip *)

Local Open Scope Q_scope.

Lemma round_trip_arith (S t a P Fa N Y va u w : Q) :
  (0 < S -> S * t == 1 -> 0 <= a -> P == S * a ->
   0 < u -> u <= 1 -> w == 4 * u ->
   N <= Fa -> Fa < N + 1 -> 0 <= N ->
   Qabs (Fa - P) <= u * P ->
   Y == N * t ->
   (Qabs (va - Y) <= u * Y \/ Qabs (va - Y) <= w * t) ->
   Qabs (va - a) <= t + w * (a + t))%Q.
Proof.
  intros HS HSt Ha HP Hu Hu1 Hw HN1 HN2 HN0 HF HY Hv.
  assert (Ht : 0 < t) by nra.
  assert (Hat : a == P * t).
  { rewrite HP. setoid_replace (S * a * t) with (a * (S * t)) by ring. rewrite HSt. ring. }
  apply Qabs_Qle_condition in HF. destruct HF as [HF1 HF2].
  assert (HP0 : 0 <= P) by nra.
  assert (H1 : (N - P) * t <= u * P * t) by (apply Qmult_le_compat_r; lra).
  assert (H2 : - (1 + u * P) * t <= (N - P) * t) by (apply Qmult_le_compat_r; lra).
  assert (HYa : Y - a == (N - P) * t) by (rewrite HY, Hat; ring).
  assert (Hua : u * P * t == u * a) by (rewrite Hat; ring).
  assert (HYup : Y <= (1 + u) * a).
  { rewrite HY, Hat.
    setoid_replace ((1 + u) * (P * t)) with ((1 + u) * P * t) by ring.
    apply Qmult_le_compat_r; lra. }
  assert (HY0 : 0 <= Y) by (rewrite HY; nra).
  assert (Hva : Qabs (va - Y) <= 2 * u * a + w * t).
  { destruct Hv as [Hv|Hv].
    - eapply Qle_trans; [exact Hv|].
      assert (u * Y <= u * ((1 + u) * a)) by (apply Qmult_le_l; lra).
      assert (Hua0 : 0 <= u * a) by nra.
      assert (Hsq : 0 <= (u * a) * (1 - u)) by (apply Qmult_le_0_compat; lra).
      assert (0 <= w * t) by nra.
      lra.
    - eapply Qle_trans; [exact Hv|]. assert (0 <= u * a) by nra. lra. }
  apply Qabs_Qle_condition in Hva. destruct Hva as [Hva1 Hva2].
  apply Qabs_Qle_condition.
  assert (Huaz : 0 <= u * a) by nra.
  assert (Hwa : w * (a + t) == 4 * (u * a) + w * t) by (rewrite Hw; ring).
  assert (Hexp : (1 + u * P) * t == t + u * a) by (rewrite <- Hua; ring).
  split; lra.
Qed.


Local Close Scope Q_scope.

Lemma positive_float (s : float) :
  (0 < value s)%Q -> exists m e, Prim2SF s = S754_finite false m e.
Proof.
  unfold value, SF2Q. destruct (Prim2SF s) as [sg|sg| |sg m e]; cbn [SFsign SFabsQ].
  - destruct sg; intros H; cbn in H; lra.
  - destruct sg; intros H; cbn in H; lra.
  - intros H; lra.
  - destruct sg; intros H.
    + pose proof (pow2_pos e). pose proof (inject_Z_pos m). nra.
    + eauto.
Qed.

Lemma valid_below_top (sg : bool) (m : positive) (e : Z) :
  valid_binary (S754_finite sg m e) = true ->
  (inject_Z (Zpos m) * pow2 e < pow2 1024)%Q.
Proof.
  cbn [SpecFloat.valid_binary]. unfold bounded, canonical_mantissa.
  intros H. apply andb_prop in H. destruct H as [Hc He].
  apply Z.eqb_eq in Hc. apply Z.leb_le in He. change (emax - prec) with 971 in He.
  rewrite fexp_eq in Hc.
  pose proof (Zpos_pow2_bounds m) as [_ Hm]. cbn [Zdigits2] in Hm.
  pose proof (pow2_pos e) as Hp.
  assert (H1 : (inject_Z (Zpos m) * pow2 e < pow2 (Zpos (digits2_pos m)) * pow2 e)%Q).
  { apply Qmult_lt_compat_r; assumption. }
  rewrite <- pow2_add in H1.
  eapply Qlt_le_trans; [exact H1|]. apply pow2_le. lia.
Qed.

Lemma Qabs_signed (sg : bool) (a : Q) :
  (0 <= a)%Q -> (Qabs (if sg then - a else a) == a)%Q.
Proof.
  intros Ha. destruct sg.
  - rewrite Qabs_opp. apply Qabs_pos, Ha.
  - apply Qabs_pos, Ha.
Qed.

Lemma pow2_quarter : (pow2 (-51) == 4 * pow2 (-53))%Q.
Proof.
  replace (-51) with (2 + -53) by lia. rewrite pow2_add. change (pow2 2) with 4%Q. reflexivity.
Qed.

Lemma positive_float_nonzero (s : float) : (0 < value s)%Q -> (s =? 0)%float = false.
Proof.
  intros Hs. destruct (positive_float s Hs) as (m & e & E).
  rewrite FloatAxioms.eqb_spec, E. reflexivity.
Qed.

Lemma round_trip_float (s p : float) (n : Z) :
  (0 < value s)%Q ->
  trunc (s * p) = Some n -> 0 <= n < 2 ^ 32 ->
  let nf := binary_normalize prec emax n 0 false in
  let v := (SF2Prim nf / s)%float in
  (forall sg, nf <> S754_infinity sg)
  /\ ((pow2 (-991) <= value s)%Q -> is_finite v = true)
  /\ (is_finite v = true ->
      (Qabs (value v - value p)
       <= 1 / value s + pow2 (-51) * (Qabs (value p) + 1 / value s))%Q).
Proof.
  intros Hs Htr Hn nf v.
  destruct (positive_float s Hs) as (ms & es & Es).
  pose proof (Prim2SF_valid s) as Hvs. rewrite Es in Hvs.
  pose proof (valid_below_top _ _ _ Hvs) as Htop.
  assert (HS : value s = (inject_Z (Zpos ms) * pow2 es)%Q).
  { unfold value. rewrite Es. reflexivity. }
  set (S := value s) in *.
  assert (HtopS : (S < pow2 1024)%Q) by (rewrite HS; exact Htop).
  (* the product *)
  pose proof (trunc_finite _ _ Htr) as HFfin.
  assert (Hnv : toward_zero (value (s * p)) = n).
  { rewrite (trunc_toward_zero _ HFfin) in Htr. congruence. }
  clear Htr.
  set (F := SFmul prec emax (S754_finite false ms es) (Prim2SF p)).
  assert (HF : Prim2SF (s * p) = F).
  { rewrite FloatAxioms.mul_spec. unfold SF64mul. rewrite Es. reflexivity. }
  pose proof (toward_zero_bounds (value (s * p))) as Hb. cbv zeta in Hb. rewrite Hnv in Hb.
  clear Hnv. unfold is_finite in HFfin. unfold value in Hb. rewrite HF in HFfin, Hb. clear HF.
  assert (Hpfin : SFfinite (Prim2SF p) = true).
  { unfold F in HFfin. destruct (Prim2SF p); try reflexivity; discriminate. }
  destruct (SFmul_spec (S754_finite false ms es) (Prim2SF p) eq_refl Hpfin)
    as (_ & HFsign & HFround).
  cbv zeta in HFsign, HFround. fold F in HFsign, HFround. specialize (HFround HFfin).
  cbn [SFsign xorb] in HFsign. cbn [SFabsQ] in HFround. rewrite <- HS in HFround.
  set (a := SFabsQ (Prim2SF p)) in *.
  pose proof (SFabsQ_nonneg (Prim2SF p)) as Ha. fold a in Ha.
  pose proof (SFabsQ_nonneg F) as HFa.
  assert (Hvp : (Qabs (value p) == a)%Q).
  { unfold value, SF2Q. fold a. apply Qabs_signed, Ha. }
  (* constants *)
  pose proof (pow2_pos (-53)) as Hu.
  assert (Hu1 : (pow2 (-53) <= 1)%Q) by (change 1%Q with (pow2 0); apply pow2_le; lia).
  pose proof pow2_quarter as Hw.
  assert (HSt : (S * (1 / S) == 1)%Q) by (field; lra).
  assert (Ht : (0 < 1 / S)%Q) by (apply Qlt_shift_div_l; lra).
  (* the integer as a float *)
  assert (Hnf : (n = 0 /\ nf = S754_zero false)
                \/ (0 < n /\ exists m e, nf = S754_finite false m e
                            /\ (inject_Z (Zpos m) * pow2 e == inject_Z n)%Q
                            /\ valid_binary (S754_finite false m e) = true)).
  { destruct (Z.eq_dec n 0) as [->|Hn0]; [left; split; reflexivity|right].
    split; [lia|].
    destruct (binary_normalize_small n) as (m & e & E & Hv & Hval).
    - split; [lia|]. assert (2 ^ 32 < 2 ^ 53) by reflexivity. lia.
    - exists m, e. repeat split; assumption. }
  split.
  { intros sg. destruct Hnf as [[_ ->]|(_ & m & e & -> & _)]; discriminate. }
  assert (Hdiv : Prim2SF v = SFdiv prec emax nf (S754_finite false ms es)).
  { unfold v. rewrite FloatAxioms.div_spec. unfold SF64div. rewrite Es. f_equal.
    apply Prim2SF_SF2Prim.
    destruct Hnf as [[_ ->]|(_ & m & e & -> & _ & Hval)]; [reflexivity | exact Hval]. }
  destruct Hnf as [[Hn0 Enf]|(Hn0 & m & e & Enf & Hmv & _)].
  - (* nothing was sent but zero *)
    rewrite Enf in Hdiv. cbn [SFdiv xorb] in Hdiv.
    assert (Hv0 : value v = 0%Q) by (unfold value; rewrite Hdiv; reflexivity).
    split; [intros _; unfold is_finite; rewrite Hdiv; reflexivity|]. intros _.
    rewrite Hv0.
    assert (E : (Qabs (0 - value p) == a)%Q).
    { setoid_replace (0 - value p)%Q with (- value p)%Q by ring.
      rewrite Qabs_opp. exact Hvp. }
    rewrite E, Hvp. subst n. change (inject_Z 0) with 0%Q in Hb.
    assert (HFlt : (SFabsQ F < 1)%Q).
    { unfold SF2Q in Hb. destruct (SFsign F); destruct Hb as [Hb1 Hb2].
      - destruct (Qlt_le_dec (- SFabsQ F) 0) as [Hneg|Hpos]; [specialize (Hb2 Hneg)|]; lra.
      - specialize (Hb1 HFa). lra. }
    assert (HaP : (a == S * a * (1 / S))%Q) by (field; lra).
    destruct HFround as [Hr|[Hr _]].
    + apply Qabs_Qle_condition in Hr.
      assert (HP : (S * a * (1 - pow2 (-53)) < 1)%Q) by lra.
      assert (HP2 : (S * a <= 1 + pow2 (-51) * (S * a + 1))%Q).
      { rewrite Hw. assert (0 <= S * a)%Q by nra. lra. }
      assert (HP3 : (S * a * (1 / S) <= (1 + pow2 (-51) * (S * a + 1)) * (1 / S))%Q).
      { apply Qmult_le_compat_r; lra. }
      rewrite HaP at 1.
      eapply Qle_trans; [exact HP3|].
      assert (E2 : ((1 + pow2 (-51) * (S * a + 1)) * (1 / S)
                    == 1 / S + pow2 (-51) * (S * a * (1 / S) + 1 / S))%Q) by ring.
      rewrite E2, <- HaP. lra.
    + assert (Hsmall : (pow2 (-1021) <= 1)%Q) by (change 1%Q with (pow2 0); apply pow2_le; lia).
      assert (HP3 : (S * a * (1 / S) <= 1 * (1 / S))%Q).
      { apply Qmult_le_compat_r; lra. }
      rewrite <- HaP in HP3.
      pose proof (pow2_pos (-51)). assert (0 <= pow2 (-51) * (a + 1 / S))%Q by nra. lra.
  - (* a positive target *)
    rewrite Enf in Hdiv.
    destruct (SFdiv_spec false false m ms e es) as (Hnan & Hsg & Hfinr & Hinf).
    cbv zeta in Hnan, Hsg, Hfinr, Hinf. rewrite <- Hdiv in Hnan, Hsg, Hfinr, Hinf.
    cbn [xorb] in Hsg.
    assert (HY : (inject_Z (Zpos m) * pow2 e / (inject_Z (Zpos ms) * pow2 es)
                  == inject_Z n * (1 / S))%Q).
    { rewrite Hmv, <- HS. field. lra. }
    assert (Hn32 : (inject_Z n < pow2 32)%Q).
    { rewrite pow2_Z by lia. rewrite <- Zlt_Qlt. lia. }
    assert (Hn1 : (1 <= inject_Z n)%Q).
    { change 1%Q with (inject_Z 1). rewrite <- Zle_Qle. lia. }
    split.
    + intros Hbig. unfold is_finite.
      destruct (SFfinite (Prim2SF v)) eqn:Efin; [reflexivity|exfalso].
      specialize (Hinf eq_refl). rewrite HY in Hinf.
      assert (H1 : (1 / S <= pow2 991)%Q).
      { apply Qle_shift_div_r; [lra|].
        assert (E1 : (1 == pow2 991 * pow2 (-991))%Q).
        { rewrite <- pow2_add. reflexivity. }
        pose proof (pow2_pos 991). rewrite E1 at 1. apply Qmult_le_l; lra. }
      assert (H2 : (inject_Z n * (1 / S) < pow2 32 * pow2 991)%Q).
      { pose proof (pow2_pos 32). pose proof (pow2_pos 991).
        apply Qlt_le_trans with (pow2 32 * (1 / S))%Q.
        - apply Qmult_lt_compat_r; lra.
        - apply Qmult_le_l; lra. }
      rewrite <- pow2_add in H2. change (32 + 991) with 1023 in H2. lra.
    + intros Hfin. unfold is_finite in Hfin. specialize (Hfinr Hfin).
      assert (Hvv : value v = SFabsQ (Prim2SF v)).
      { unfold value, SF2Q. rewrite Hsg. reflexivity. }
      rewrite Hvv.
      (* the product is positive *)
      assert (HFpos : SF2Q F = SFabsQ F /\ (inject_Z n <= SFabsQ F < inject_Z n + 1)%Q).
      { unfold SF2Q in *. destruct (SFsign F); destruct Hb as [Hb1 Hb2].
        - exfalso. destruct (Qlt_le_dec (- SFabsQ F) 0) as [Hneg|Hpos].
          + specialize (Hb2 Hneg). lra.
          + specialize (Hb1 Hpos). lra.
        - split; [reflexivity|]. apply Hb1, HFa. }
      destruct HFpos as [_ [HF1 HF2]].
      assert (Hpsign : SFsign (Prim2SF p) = false).
      { rewrite <- HFsign. unfold SF2Q in Hb.
        destruct (SFsign F); [|reflexivity]. exfalso. destruct Hb as [Hb1 Hb2].
        destruct (Qlt_le_dec (- SFabsQ F) 0) as [Hneg|Hpos].
        - specialize (Hb2 Hneg). lra.
        - specialize (Hb1 Hpos). lra. }
      assert (Hpa : value p = a).
      { unfold value, SF2Q. rewrite Hpsign. reflexivity. }
      rewrite Hpa, (Qabs_pos a Ha).
      assert (HFr : (Qabs (SFabsQ F - S * a) <= pow2 (-53) * (S * a))%Q).
      { destruct HFround as [Hr|[Hr1 Hr2]]; [exact Hr|exfalso].
        apply Qabs_Qle_condition in Hr2.
        assert (pow2 (-1021) <= pow2 (-1))%Q by (apply pow2_le; lia).
        assert (pow2 (-1075) <= pow2 (-1))%Q by (apply pow2_le; lia).
        change (pow2 (-1)) with (1 # 2)%Q in *. lra. }
      apply (round_trip_arith S (1 / S) a (S * a) (SFabsQ F) (inject_Z n)
               (inject_Z n * (1 / S)) (SFabsQ (Prim2SF v)) (pow2 (-53)) (pow2 (-51)));
        try assumption; try reflexivity; try lra.
      destruct (rounds_to_ext _ _ _ HY Hfinr) as [Hr|[_ Hr]]; [left; exact Hr|right].
      eapply Qle_trans; [exact Hr|].
      assert (H1 : (pow2 (-1024) <= 1 / S)%Q).
      { apply Qle_shift_div_l; [lra|].
        assert (E1 : (1 == pow2 (-1024) * pow2 1024)%Q).
        { rewrite <- pow2_add. reflexivity. }
        pose proof (pow2_pos (-1024)). rewrite E1. apply Qmult_le_l; lra. }
      assert (E2 : (pow2 (-1075) == pow2 (-51) * pow2 (-1024))%Q).
      { rewrite <- pow2_add. reflexivity. }
      rewrite E2. pose proof (pow2_pos (-51)). apply Qmult_le_l; lra.
Qed.

(** *** Sums, differences and comparisons *)

Lemma shl_align_value (mx : positive) (ex ez : Z) :
  let '(mz, e) := shl_align mx ex ez in
  (inject_Z (Zpos mz) * pow2 e == inject_Z (Zpos mx) * pow2 ex)%Q
  /\ (ez <= ex -> e = ez).
Proof.
  unfold shl_align. destruct (ez - ex) as [|d|d] eqn:E.
  - split; [reflexivity|]. intros; lia.
  - split; [reflexivity|]. intros; lia.
  - rewrite iter_xO_value, inject_Z_mult, <- pow2_Z by lia.
    split; [|reflexivity].
    rewrite <- Qmult_assoc, <- pow2_add. replace (Zpos d + ez) with ex by lia. reflexivity.
Qed.

Lemma overflow_magnitude (mz : positive) (ez : Z) :
  971 <= Z.max (fexp prec emax (Zdigits2 (Zpos mz) + ez)) ez ->
  (pow2 971 <= inject_Z (Zpos mz) * pow2 ez)%Q.
Proof.
  intros Hbig.
  pose proof (Zpos_pow2_bounds mz) as [Hlow _].
  pose proof (pow2_pos ez) as Hpe.
  assert (Hd1 : 1 <= Zdigits2 (Zpos mz)) by (cbn [Zdigits2]; lia).
  rewrite fexp_eq in Hbig.
  destruct (Z_le_gt_dec 971 ez) as [Hez|Hez].
  - assert (H : (pow2 971 <= pow2 ez)%Q) by (apply pow2_le; exact Hez).
    assert (H0 : (pow2 0 <= pow2 (Zdigits2 (Zpos mz) - 1))%Q) by (apply pow2_le; lia).
    change (pow2 0) with 1%Q in H0.
    revert Hlow Hpe H H0.
    generalize (pow2 (Zdigits2 (Zpos mz) - 1)) (inject_Z (Zpos mz)) (pow2 ez) (pow2 971).
    intros a b c d **. nra.
  - assert (H : (pow2 971 <= pow2 (Zdigits2 (Zpos mz) - 1 + ez))%Q) by (apply pow2_le; lia).
    rewrite pow2_add in H.
    revert Hlow Hpe H.
    generalize (pow2 (Zdigits2 (Zpos mz) - 1)) (inject_Z (Zpos mz)) (pow2 ez) (pow2 971).
    intros a b c d **. nra.
Qed.

Lemma SFmul_overflow (x y : spec_float) :
  SFfinite x = true -> SFfinite y = true ->
  SFfinite (SFmul prec emax x y) = false -> (pow2 971 <= SFabsQ x * SFabsQ y)%Q.
Proof.
  intros Hx Hy.
  destruct x as [sx|sx| |sx mx ex]; try discriminate;
    destruct y as [sy|sy| |sy my ey]; try discriminate; cbn [SFmul SFfinite];
    try discriminate.
  assert (Hloc : located loc_Exact (inject_Z (Zpos (mx * my)) - inject_Z (Zpos (mx * my)))).
  { cbn. ring. }
  destruct (binary_round_aux_spec (xorb sx sy) (Zpos (mx * my)) (ex + ey) loc_Exact
              (inject_Z (Zpos (mx * my))) ltac:(lia) Hloc)
    as (k & _ & _ & _ & Hres).
  cbv zeta in Hres.
  destruct (binary_round_aux prec emax (xorb sx sy) (Zpos (mx * my)) (ex + ey) loc_Exact)
    as [s|s| |s m e]; try discriminate; [|destruct Hres].
  destruct Hres as [_ Hbig]. intros _. cbn [SFabsQ].
  pose proof (overflow_magnitude (mx * my) (ex + ey) Hbig) as H.
  rewrite Pos2Z.inj_mul, inject_Z_mult, pow2_add in H.
  eapply Qle_trans; [exact H|]. apply Qle_lteq. right. ring.
Qed.

Lemma binary_round_spec (sx : bool) (mx : positive) (ex : Z) :
  let r := binary_round prec emax sx mx ex in
  let X := (inject_Z (Zpos mx) * pow2 ex)%Q in
  r <> S754_nan /\ SFsign r = sx
  /\ (SFfinite r = true -> rounds_to (SFabsQ r) X)
  /\ (SFfinite r = false -> (pow2 971 <= X)%Q).
Proof.
  cbv zeta. unfold binary_round.
  pose proof (shl_align_value mx ex (fexp prec emax (Zpos (digits2_pos mx) + ex))) as Hs.
  destruct (shl_align mx ex (fexp prec emax (Zpos (digits2_pos mx) + ex))) as [mz ez].
  destruct Hs as [Hv _].
  assert (Hloc : located loc_Exact (inject_Z (Zpos mz) - inject_Z (Zpos mz))).
  { cbn. ring. }
  destruct (binary_round_aux_spec sx (Zpos mz) ez loc_Exact (inject_Z (Zpos mz))
              ltac:(lia) Hloc) as (k & Hk0 & Hk1 & Hk2 & Hres).
  cbv zeta in Hk1, Hk2, Hres.
  set (e1 := Z.max (fexp prec emax (Zdigits2 (Zpos mz) + ez)) ez) in *.
  assert (Hround : rounds_to (inject_Z k * pow2 e1) (inject_Z (Zpos mx) * pow2 ex)).
  { apply (rounds_to_ext _ (inject_Z (Zpos mz) * pow2 ez)); [exact Hv|].
    apply (round_error (Zpos mz) ez e1 k); try reflexivity; try lia.
    - lra.
    - exact Hk1.
    - intros Hee. left. rewrite (Hk2 eq_refl Hee). reflexivity. }
  assert (Hover : 971 <= e1 -> (pow2 971 <= inject_Z (Zpos mx) * pow2 ex)%Q).
  { intros Hbig. rewrite <- Hv. apply overflow_magnitude. exact Hbig. }
  destruct (binary_round_aux prec emax sx (Zpos mz) ez loc_Exact) as [s|s| |s m e].
  - destruct Hres as [-> ->]. split; [discriminate|]. split; [reflexivity|].
    split; [|discriminate]. intros _. cbn [SFabsQ].
    eapply rounds_to_ext_l; [|exact Hround]. cbn. ring.
  - destruct Hres as [-> Hbig]. split; [discriminate|]. split; [reflexivity|].
    split; [discriminate|]. intros _. exact (Hover Hbig).
  - destruct Hres.
  - destruct Hres as (-> & Hm & _). split; [discriminate|]. split; [reflexivity|].
    split; [|discriminate]. intros _. cbn [SFabsQ].
    eapply rounds_to_ext_l; [|exact Hround]. symmetry. exact Hm.
Qed.

Lemma binary_normalize_spec (m e : Z) :
  let r := binary_normalize prec emax m e false in
  let X := (inject_Z m * pow2 e)%Q in
  r <> S754_nan
  /\ SFsign r = (m <? 0)
  /\ (SFfinite r = true -> rounds_to (SFabsQ r) (Qabs X))
  /\ (SFfinite r = false -> (pow2 971 <= Qabs X)%Q).
Proof.
  cbv zeta. pose proof (pow2_pos e) as Hpe.
  destruct m as [|p|p]; cbn [binary_normalize].
  - split; [discriminate|]. split; [reflexivity|]. split; [|discriminate]. intros _.
    cbn [SFabsQ]. apply rounds_to_exact.
    + change (inject_Z 0) with 0%Q. rewrite Qmult_0_l. reflexivity.
    + apply Qabs_nonneg.
  - destruct (binary_round_spec false p e) as (H1 & H2 & H3 & H4). cbv zeta in *.
    assert (E : (Qabs (inject_Z (Zpos p) * pow2 e) == inject_Z (Zpos p) * pow2 e)%Q).
    { apply Qabs_pos. pose proof (inject_Z_pos p). nra. }
    split; [exact H1|]. split; [exact H2|]. split.
    + intros Hf. eapply rounds_to_ext; [symmetry; exact E | exact (H3 Hf)].
    + intros Hf. rewrite E. exact (H4 Hf).
  - destruct (binary_round_spec true p e) as (H1 & H2 & H3 & H4). cbv zeta in *.
    assert (E : (Qabs (inject_Z (Zneg p) * pow2 e) == inject_Z (Zpos p) * pow2 e)%Q).
    { change (Zneg p) with (- Zpos p). rewrite inject_Z_opp.
      setoid_replace (- inject_Z (Zpos p) * pow2 e)%Q
        with (- (inject_Z (Zpos p) * pow2 e))%Q by ring.
      rewrite Qabs_opp. apply Qabs_pos. pose proof (inject_Z_pos p). nra. }
    split; [exact H1|]. split; [exact H2|]. split.
    + intros Hf. eapply rounds_to_ext; [symmetry; exact E | exact (H3 Hf)].
    + intros Hf. rewrite E. exact (H4 Hf).
Qed.

Lemma aligned_value (s : bool) (m : positive) (e ez : Z) :
  ez <= e ->
  (inject_Z (cond_Zopp s (Zpos (fst (shl_align m e ez)))) * pow2 ez
   == SF2Q (S754_finite s m e))%Q.
Proof.
  intros Hez. pose proof (shl_align_value m e ez) as H.
  destruct (shl_align m e ez) as [mz e']. destruct H as [Hv He]. specialize (He Hez). subst e'.
  cbn [fst]. unfold SF2Q. cbn [SFsign SFabsQ].
  destruct s; cbn [cond_Zopp]; rewrite <- Hv; [|reflexivity].
  rewrite inject_Z_opp. ring.
Qed.

(** What [SFadd] and [SFsub] return on finite numbers, the first not
    zero. *)
Lemma SFadd_spec (sx : bool) (mx : positive) (ex : Z) (y : spec_float) :
  SFfinite y = true ->
  let r := SFadd prec emax (S754_finite sx mx ex) y in
  let X := (SF2Q (S754_finite sx mx ex) + SF2Q y)%Q in
  r <> S754_nan
  /\ ((0 < X)%Q -> SFsign r = false) /\ ((X < 0)%Q -> SFsign r = true)
  /\ (SFfinite r = true -> rounds_to (SFabsQ r) (Qabs X))
  /\ (SFfinite r = false -> (pow2 971 <= Qabs X)%Q).
Proof.
  intros Hy. cbv zeta.
  pose proof (inject_Z_pos mx) as Hmx. pose proof (pow2_pos ex) as Hpex.
  destruct y as [sy|sy| |sy my ey]; try discriminate.
  - cbn [SFadd]. unfold SF2Q at 2. cbn [SFsign SFabsQ].
    assert (E : (SF2Q (S754_finite sx mx ex) + (if sy then - 0 else 0)
                 == SF2Q (S754_finite sx mx ex))%Q) by (destruct sy; ring).
    split; [discriminate|]. unfold SF2Q in *. cbn [SFsign SFabsQ] in *.
    destruct sx.
    + split; [intros H; rewrite E in H; nra|]. split; [reflexivity|].
      split; [|discriminate]. intros _. apply rounds_to_exact; [|apply Qabs_nonneg].
      rewrite E, Qabs_opp. symmetry. apply Qabs_pos. nra.
    + split; [reflexivity|]. split; [intros H; rewrite E in H; nra|].
      split; [|discriminate]. intros _. apply rounds_to_exact; [|apply Qabs_nonneg].
      rewrite E. symmetry. apply Qabs_pos. nra.
  - cbn [SFadd]. cbv zeta.
    set (ez := Z.min ex ey).
    set (zx := cond_Zopp sx (Zpos (fst (shl_align mx ex ez)))).
    set (zy := cond_Zopp sy (Zpos (fst (shl_align my ey ez)))).
    pose proof (aligned_value sx mx ex ez ltac:(unfold ez; lia)) as Hx. fold zx in Hx.
    pose proof (aligned_value sy my ey ez ltac:(unfold ez; lia)) as Hyv. fold zy in Hyv.
    assert (HX : (inject_Z (zx + zy) * pow2 ez
                  == SF2Q (S754_finite sx mx ex) + SF2Q (S754_finite sy my ey))%Q).
    { rewrite inject_Z_plus, <- Hx, <- Hyv. ring. }
    destruct (binary_normalize_spec (zx + zy) ez) as (H1 & H2 & H3 & H4). cbv zeta in *.
    pose proof (pow2_pos ez) as Hpez.
    split; [exact H1|]. split; [|split; [|split]].
    + intros Hpos. rewrite H2. apply Z.ltb_ge. rewrite <- HX in Hpos.
      destruct (Z_lt_ge_dec (zx + zy) 0) as [Hneg|Hge]; [exfalso|lia].
      assert (inject_Z (zx + zy) < 0)%Q by (change 0%Q with (inject_Z 0); rewrite <- Zlt_Qlt; lia).
      nra.
    + intros Hneg. rewrite H2. apply Z.ltb_lt. rewrite <- HX in Hneg.
      destruct (Z_lt_ge_dec (zx + zy) 0) as [Hlt|Hge]; [exact Hlt|exfalso].
      assert (0 <= inject_Z (zx + zy))%Q by (change 0%Q with (inject_Z 0); rewrite <- Zle_Qle; lia).
      nra.
    + intros Hf. eapply rounds_to_ext; [|exact (H3 Hf)]. rewrite HX. reflexivity.
    + intros Hf. rewrite <- HX. exact (H4 Hf).
Qed.

Lemma SFsub_spec (sx : bool) (mx : positive) (ex : Z) (y : spec_float) :
  SFfinite y = true ->
  let r := SFsub prec emax (S754_finite sx mx ex) y in
  let X := (SF2Q (S754_finite sx mx ex) - SF2Q y)%Q in
  r <> S754_nan
  /\ ((0 < X)%Q -> SFsign r = false) /\ ((X < 0)%Q -> SFsign r = true)
  /\ (SFfinite r = true -> rounds_to (SFabsQ r) (Qabs X))
  /\ (SFfinite r = false -> (pow2 971 <= Qabs X)%Q).
Proof.
  intros Hy. cbv zeta.
  pose proof (inject_Z_pos mx) as Hmx. pose proof (pow2_pos ex) as Hpex.
  destruct y as [sy|sy| |sy my ey]; try discriminate.
  - cbn [SFsub]. unfold SF2Q at 2. cbn [SFsign SFabsQ].
    assert (E : (SF2Q (S754_finite sx mx ex) - (if sy then - 0 else 0)
                 == SF2Q (S754_finite sx mx ex))%Q) by (destruct sy; ring).
    split; [discriminate|]. unfold SF2Q in *. cbn [SFsign SFabsQ] in *.
    destruct sx.
    + split; [intros H; rewrite E in H; nra|]. split; [reflexivity|].
      split; [|discriminate]. intros _. apply rounds_to_exact; [|apply Qabs_nonneg].
      rewrite E, Qabs_opp. symmetry. apply Qabs_pos. nra.
    + split; [reflexivity|]. split; [intros H; rewrite E in H; nra|].
      split; [|discriminate]. intros _. apply rounds_to_exact; [|apply Qabs_nonneg].
      rewrite E. symmetry. apply Qabs_pos. nra.
  - cbn [SFsub]. cbv zeta.
    set (ez := Z.min ex ey).
    set (zx := cond_Zopp sx (Zpos (fst (shl_align mx ex ez)))).
    set (zy := cond_Zopp sy (Zpos (fst (shl_align my ey ez)))).
    pose proof (aligned_value sx mx ex ez ltac:(unfold ez; lia)) as Hx. fold zx in Hx.
    pose proof (aligned_value sy my ey ez ltac:(unfold ez; lia)) as Hyv. fold zy in Hyv.
    assert (HX : (inject_Z (zx - zy) * pow2 ez
                  == SF2Q (S754_finite sx mx ex) - SF2Q (S754_finite sy my ey))%Q).
    { unfold Z.sub. rewrite inject_Z_plus, inject_Z_opp, <- Hx, <- Hyv. ring. }
    destruct (binary_normalize_spec (zx - zy) ez) as (H1 & H2 & H3 & H4). cbv zeta in *.
    pose proof (pow2_pos ez) as Hpez.
    split; [exact H1|]. split; [|split; [|split]].
    + intros Hpos. rewrite H2. apply Z.ltb_ge. rewrite <- HX in Hpos.
      destruct (Z_lt_ge_dec (zx - zy) 0) as [Hneg|Hge]; [exfalso|lia].
      assert (inject_Z (zx - zy) < 0)%Q by (change 0%Q with (inject_Z 0); rewrite <- Zlt_Qlt; lia).
      nra.
    + intros Hneg. rewrite H2. apply Z.ltb_lt. rewrite <- HX in Hneg.
      destruct (Z_lt_ge_dec (zx - zy) 0) as [Hlt|Hge]; [exact Hlt|exfalso].
      assert (0 <= inject_Z (zx - zy))%Q by (change 0%Q with (inject_Z 0); rewrite <- Zle_Qle; lia).
      nra.
    + intros Hf. eapply rounds_to_ext; [|exact (H3 Hf)]. rewrite HX. reflexivity.
    + intros Hf. rewrite <- HX. exact (H4 Hf).
Qed.

Lemma canonical_digits (sg : bool) (m : positive) (e : Z) :
  valid_binary (S754_finite sg m e) = true ->
  -1074 <= e /\ Zdigits2 (Zpos m) <= 53 /\ (-1074 < e -> Zdigits2 (Zpos m) = 53).
Proof.
  cbn [valid_binary]. unfold bounded, canonical_mantissa. intros H.
  apply andb_prop in H. destruct H as [Hc _]. apply Z.eqb_eq in Hc.
  rewrite fexp_eq in Hc. cbn [Zdigits2]. lia.
Qed.

Lemma magnitude_below (m1 m2 : positive) (e1 e2 : Z) :
  valid_binary (S754_finite false m1 e1) = true ->
  valid_binary (S754_finite false m2 e2) = true ->
  e1 < e2 ->
  (inject_Z (Zpos m1) * pow2 e1 < inject_Z (Zpos m2) * pow2 e2)%Q.
Proof.
  intros H1 H2 He.
  destruct (canonical_digits _ _ _ H1) as (He1 & Hd1 & _).
  destruct (canonical_digits _ _ _ H2) as (_ & _ & Hd2). specialize (Hd2 ltac:(lia)).
  pose proof (Zpos_pow2_bounds m1) as [_ Hup]. pose proof (Zpos_pow2_bounds m2) as [Hlow _].
  rewrite Hd2 in Hlow. change (53 - 1) with 52 in Hlow.
  assert (Hp1 : (pow2 (Zdigits2 (Zpos m1)) <= pow2 53)%Q) by (apply pow2_le; exact Hd1).
  assert (Hp2 : (pow2 (53 + e1) <= pow2 (52 + e2))%Q) by (apply pow2_le; lia).
  rewrite !pow2_add in Hp2.
  pose proof (pow2_pos e1) as Hq1. pose proof (pow2_pos e2) as Hq2.
  pose proof (pow2_pos 52) as Hq52.
  revert Hup Hlow Hp1 Hp2 Hq1 Hq2 Hq52.
  generalize (pow2 (Zdigits2 (Zpos m1))) (inject_Z (Zpos m1)) (inject_Z (Zpos m2))
    (pow2 e1) (pow2 e2) (pow2 53) (pow2 52).
  intros d a b p1 p2 c53 c52 **. nra.
Qed.

Lemma compare_magnitudes (m1 m2 : positive) (e1 e2 : Z) :
  valid_binary (S754_finite false m1 e1) = true ->
  valid_binary (S754_finite false m2 e2) = true ->
  let a := (inject_Z (Zpos m1) * pow2 e1)%Q in
  let b := (inject_Z (Zpos m2) * pow2 e2)%Q in
  match match Z.compare e1 e2 with
        | Lt => Lt
        | Gt => Gt
        | Eq => Pos.compare_cont Eq m1 m2
        end with
  | Lt => (a < b)%Q
  | Eq => (a == b)%Q
  | Gt => (b < a)%Q
  end.
Proof.
  intros H1 H2 a b. subst a b.
  destruct (Z.compare_spec e1 e2) as [He|He|He].
  - subst e2. change (Pos.compare_cont Eq m1 m2) with (Pos.compare m1 m2).
    pose proof (pow2_pos e1) as Hp.
    destruct (Pos.compare_spec m1 m2) as [Hm|Hm|Hm].
    + subst m2. reflexivity.
    + apply Qmult_lt_compat_r; [exact Hp|]. rewrite <- Zlt_Qlt. lia.
    + apply Qmult_lt_compat_r; [exact Hp|]. rewrite <- Zlt_Qlt. lia.
  - apply magnitude_below; assumption.
  - apply magnitude_below; assumption.
Qed.

Lemma SFltb_spec (x y : spec_float) :
  valid_binary x = true -> valid_binary y = true ->
  SFfinite x = true -> SFfinite y = true ->
  (SFltb x y = true <-> (SF2Q x < SF2Q y)%Q).
Proof.
  intros Hvx Hvy Hx Hy. unfold SFltb.
  destruct x as [sx|sx| |sx mx ex]; try discriminate;
    destruct y as [sy|sy| |sy my ey]; try discriminate;
    unfold SF2Q; cbn [SFcompare SFsign SFabsQ].
  - destruct sx, sy; split; intros H; try discriminate; lra.
  - pose proof (inject_Z_pos my). pose proof (pow2_pos ey).
    destruct sx, sy; split; intros H1; try discriminate; try reflexivity; nra.
  - pose proof (inject_Z_pos mx). pose proof (pow2_pos ex).
    destruct sx, sy; split; intros H1; try discriminate; try reflexivity; nra.
  - pose proof (inject_Z_pos mx). pose proof (pow2_pos ex).
    pose proof (inject_Z_pos my). pose proof (pow2_pos ey).
    destruct sx, sy.
    + pose proof (compare_magnitudes mx my ex ey Hvx Hvy) as Hc. cbv zeta in Hc.
      destruct (Z.compare ex ey); [destruct (Pos.compare_cont Eq mx my)| |];
        cbn [CompOpp]; split; intros H3; try discriminate; try reflexivity; lra.
    + split; intros H3; [nra | reflexivity].
    + split; intros H3; [discriminate | nra].
    + pose proof (compare_magnitudes mx my ex ey Hvx Hvy) as Hc. cbv zeta in Hc.
      destruct (Z.compare ex ey); [destruct (Pos.compare_cont Eq mx my)| |];
        split; intros H3; try discriminate; try reflexivity; lra.
Qed.

(** On finite floats [<?] compares the values. *)
Lemma ltb_value (x y : float) :
  is_finite x = true -> is_finite y = true ->
  ((x <? y)%float = true <-> (value x < value y)%Q).
Proof.
  intros Hx Hy. rewrite FloatAxioms.ltb_spec.
  apply SFltb_spec; try apply Prim2SF_valid; assumption.
Qed.

(** A bound on what rounding adds. *)
Lemma rounds_to_above (r a : Q) :
  rounds_to r a -> (0 <= a)%Q -> (r <= a * (1 + pow2 (-53)) + pow2 (-1075))%Q.
Proof.
  intros [H|[_ H]] Ha; apply Qabs_Qle_condition in H;
    pose proof (pow2_pos (-53)); pose proof (pow2_pos (-1075)).
  - revert H H0 H1. generalize (pow2 (-53)) (pow2 (-1075)). intros u t **. nra.
  - revert H H0 H1. generalize (pow2 (-53)) (pow2 (-1075)). intros u t **. nra.
Qed.

(** The sum and the difference of a positive float and a finite one:
    a number of the sign of the exact result, the exact result
    rounded when it is finite. *)
Lemma float_sum (c x : float) :
  (0 < value c)%Q -> is_finite x = true ->
  let r := (c + x)%float in
  let X := (value c + value x)%Q in
  ((0 < X)%Q -> SFsign (Prim2SF r) = false)
  /\ ((X < 0)%Q -> SFsign (Prim2SF r) = true)
  /\ (is_finite r = true -> rounds_to (SFabsQ (Prim2SF r)) (Qabs X))
  /\ (is_finite r = false -> (pow2 971 <= Qabs X)%Q).
Proof.
  intros Hc Hx r X. subst r X.
  destruct (positive_float c Hc) as (m & e & Ec).
  unfold is_finite, value. rewrite FloatAxioms.add_spec. unfold SF64add. rewrite Ec.
  destruct (SFadd_spec false m e (Prim2SF x) Hx) as (_ & H2 & H3 & H4 & H5).
  repeat split; assumption.
Qed.

Lemma float_difference (c x : float) :
  (0 < value c)%Q -> is_finite x = true ->
  let r := (c - x)%float in
  let X := (value c - value x)%Q in
  ((0 < X)%Q -> SFsign (Prim2SF r) = false)
  /\ ((X < 0)%Q -> SFsign (Prim2SF r) = true)
  /\ (is_finite r = true -> rounds_to (SFabsQ (Prim2SF r)) (Qabs X))
  /\ (is_finite r = false -> (pow2 971 <= Qabs X)%Q).
Proof.
  intros Hc Hx r X. subst r X.
  destruct (positive_float c Hc) as (m & e & Ec).
  unfold is_finite, value. rewrite FloatAxioms.sub_spec. unfold SF64sub. rewrite Ec.
  destruct (SFsub_spec false m e (Prim2SF x) Hx) as (_ & H2 & H3 & H4 & H5).
  repeat split; assumption.
Qed.

(** How far from the exact result, sign included. *)
Lemma rounded_between (r : spec_float) (X : Q) :
  ((0 < X)%Q -> SFsign r = false) -> ((X < 0)%Q -> SFsign r = true) ->
  rounds_to (SFabsQ r) (Qabs X) ->
  (Qabs (SF2Q r - X) <= pow2 (-53) * Qabs X + pow2 (-1075))%Q.
Proof.
  intros Hpos Hneg Hr.
  pose proof (SFabsQ_nonneg r) as Ha.
  pose proof (pow2_pos (-53)) as Hu. pose proof (pow2_pos (-1075)) as Ht.
  pose proof (Qabs_nonneg X) as HX.
  assert (Hd : (Qabs (SFabsQ r - Qabs X) <= pow2 (-53) * Qabs X + pow2 (-1075))%Q).
  { destruct Hr as [H|[_ H]]; [|nra].
    revert H Hu Ht HX. generalize (Qabs (SFabsQ r - Qabs X)) (pow2 (-53)) (pow2 (-1075)) (Qabs X).
    intros d u t x **. nra. }
  destruct (Qlt_le_dec 0 X) as [H0|H0].
  - unfold SF2Q. rewrite (Hpos H0).
    assert (E : (Qabs X == X)%Q) by (apply Qabs_pos; lra).
    rewrite E in Hd at 1. exact Hd.
  - destruct (Qlt_le_dec X 0) as [H1|H1].
    + unfold SF2Q. rewrite (Hneg H1).
      assert (E : (Qabs X == - X)%Q) by (apply Qabs_neg; lra).
      rewrite E in Hd at 1.
      setoid_replace (- SFabsQ r - X)%Q with (- (SFabsQ r - - X))%Q by ring.
      rewrite Qabs_opp. exact Hd.
    + assert (E : (X == 0)%Q) by lra.
      assert (EA : (Qabs X == 0)%Q) by (rewrite E; reflexivity).
      rewrite EA in Hd |- *.
      setoid_replace (SFabsQ r - 0)%Q with (SFabsQ r) in Hd by ring.
      rewrite (Qabs_pos _ Ha) in Hd.
      assert (Es : (Qabs (SF2Q r - X) == SFabsQ r)%Q).
      { rewrite E. setoid_replace (SF2Q r - 0)%Q with (SF2Q r) by ring.
        unfold SF2Q. apply Qabs_signed. exact Ha. }
      rewrite Es. exact Hd.
Qed.

(** *** The folding of an angle and the target it gives *)

Lemma value_0 : (value 0 == 0)%Q.
Proof. vm_compute. reflexivity. Qed.

Lemma value_180 : (value 180 == 180)%Q.
Proof. vm_compute. reflexivity. Qed.

Lemma value_360 : (value 360 == 360)%Q.
Proof. vm_compute. reflexivity. Qed.

Lemma tiny_below (e : Z) : -1075 <= e -> (pow2 (-1075) <= pow2 e)%Q.
Proof. apply pow2_le. Qed.

Lemma fold_first (a : float) :
  is_finite a = true -> (-360 <= value a <= 360)%Q ->
  let x := if (a <? 0)%float then (360 + a)%float else a in
  is_finite x = true /\ (- pow2 (-1075) <= value x <= 360 + pow2 (-44))%Q.
Proof.
  intros Hfa [Hlo Hhi]. cbv zeta.
  pose proof (ltb_value a 0 Hfa eq_refl) as Hlt. rewrite value_0 in Hlt.
  pose proof (pow2_pos (-1075)) as Ht. pose proof (pow2_pos (-44)) as Hv.
  pose proof (pow2_pos (-53)) as Hu.
  pose proof (tiny_below (-60) ltac:(lia)) as Ht60.
  assert (Hc : (360 * pow2 (-53) + pow2 (-60) <= pow2 (-44))%Q) by (vm_compute; discriminate).
  destruct (a <? 0)%float.
  - assert (Hneg : (value a < 0)%Q) by (apply Hlt; reflexivity).
    assert (H360 : (0 < value 360)%Q) by (rewrite value_360; reflexivity).
    destruct (float_sum 360 a H360 Hfa) as (Hpos & Hng & Hr & Hov).
    cbv zeta in Hpos, Hng, Hr, Hov.
    set (X := (value 360 + value a)%Q) in *.
    assert (HX : (0 <= X < 360)%Q) by (unfold X; rewrite value_360; lra).
    assert (HXa : (Qabs X == X)%Q) by (apply Qabs_pos; lra).
    assert (Hfin : is_finite (360 + a) = true).
    { destruct (is_finite (360 + a)); [reflexivity|exfalso].
      specialize (Hov eq_refl). rewrite HXa in Hov.
      assert (pow2 9 <= pow2 971)%Q by (apply pow2_le; lia).
      change (pow2 9) with 512%Q in H. lra. }
    split; [exact Hfin|].
    pose proof (rounded_between _ X Hpos Hng (Hr Hfin)) as Hb.
    fold (value (360 + a)) in Hb. rewrite HXa in Hb.
    apply Qabs_Qle_condition in Hb.
    assert (Hu1 : (pow2 (-53) <= 1)%Q) by (change 1%Q with (pow2 0); apply pow2_le; lia).
    assert (HuX : (0 <= pow2 (-53) * X <= 360 * pow2 (-53))%Q).
    { revert Hu Hu1 HX. generalize (pow2 (-53)). intros u **. nra. }
    assert (HuX1 : (pow2 (-53) * X <= X)%Q).
    { revert Hu Hu1 HX. generalize (pow2 (-53)). intros u **. nra. }
    revert Hb Ht Hv Hu Ht60 Hc HX HuX HuX1.
    generalize (value (360 + a)) (pow2 (-53) * X)%Q (pow2 (-1075)) (pow2 (-44)) (pow2 (-53))
      (pow2 (-60)).
    intros r ux t v u t60 **. lra.
  - assert (Hnn : (0 <= value a)%Q).
    { destruct (Qlt_le_dec (value a) 0) as [H|H]; [|exact H].
      apply Hlt in H. discriminate. }
    split; [exact Hfa|]. lra.
Qed.

Lemma fold_second (x : float) :
  is_finite x = true -> (- pow2 (-1075) <= value x <= 360 + pow2 (-44))%Q ->
  let el := if (180 <? x)%float then (360 - x)%float else x in
  is_finite el = true /\ (- pow2 (-43) <= value el <= 180 + pow2 (-43))%Q.
Proof.
  intros Hfx [Hlo Hhi]. cbv zeta.
  pose proof (ltb_value 180 x eq_refl Hfx) as Hlt. rewrite value_180 in Hlt.
  pose proof (pow2_pos (-1075)) as Ht. pose proof (pow2_pos (-44)) as Hv.
  pose proof (pow2_pos (-53)) as Hu. pose proof (pow2_pos (-43)) as Hw.
  pose proof (tiny_below (-60) ltac:(lia)) as Ht60.
  assert (Hc : (pow2 (-44) + 180 * pow2 (-53) + pow2 (-60) <= pow2 (-43))%Q)
    by (vm_compute; discriminate).
  destruct (180 <? x)%float.
  - assert (Hbig : (180 < value x)%Q) by (apply Hlt; reflexivity).
    assert (H360 : (0 < value 360)%Q) by (rewrite value_360; reflexivity).
    destruct (float_difference 360 x H360 Hfx) as (Hpos & Hng & Hr & Hov).
    cbv zeta in Hpos, Hng, Hr, Hov.
    set (X := (value 360 - value x)%Q) in *.
    assert (HX : (- pow2 (-44) <= X < 180)%Q) by (unfold X; rewrite value_360; lra).
    assert (Hv1 : (pow2 (-44) <= 1)%Q) by (change 1%Q with (pow2 0); apply pow2_le; lia).
    assert (HXa : (Qabs X <= 180)%Q).
    { apply Qabs_Qle_condition. lra. }
    pose proof (Qabs_nonneg X) as HXn.
    assert (Hfin : is_finite (360 - x) = true).
    { destruct (is_finite (360 - x)); [reflexivity|exfalso].
      specialize (Hov eq_refl).
      assert (pow2 9 <= pow2 971)%Q by (apply pow2_le; lia).
      change (pow2 9) with 512%Q in H. lra. }
    split; [exact Hfin|].
    pose proof (rounded_between _ X Hpos Hng (Hr Hfin)) as Hb.
    fold (value (360 - x)) in Hb.
    apply Qabs_Qle_condition in Hb.
    assert (HuX : (0 <= pow2 (-53) * Qabs X <= 180 * pow2 (-53))%Q).
    { revert Hu HXa HXn. generalize (pow2 (-53)) (Qabs X). intros u ax **. nra. }
    revert Hb Ht Hv Hu Hw Ht60 Hc HX HuX.
    generalize (value (360 - x)) (pow2 (-53) * Qabs X)%Q (pow2 (-1075)) (pow2 (-44))
      (pow2 (-53)) (pow2 (-60)) (pow2 (-43)).
    intros r ux t v u t60 w **. lra.
  - assert (Hle : (value x <= 180)%Q).
    { destruct (Qlt_le_dec 180 (value x)) as [H|H]; [|exact H].
      apply Hlt in H. discriminate. }
    split; [exact Hfx|].
    revert Hlo Hle Ht Hv Hu Hw Ht60 Hc.
    generalize (value x) (pow2 (-1075)) (pow2 (-44)) (pow2 (-53)) (pow2 (-60)) (pow2 (-43)).
    intros r t v u t60 w **. lra.
Qed.

(** The folded angle, as the script computes it, of an angle between
    -360 and 360. *)
Lemma complementary_float_range (a : float) :
  is_finite a = true -> (-360 <= value a <= 360)%Q ->
  is_finite (complementary_float a) = true
  /\ (- pow2 (-43) <= value (complementary_float a) <= 180 + pow2 (-43))%Q.
Proof.
  intros Hfa Ha. unfold complementary_float.
  destruct (fold_first a Hfa Ha) as [Hf1 Hr1]. cbv zeta in Hf1, Hr1 |- *.
  exact (fold_second _ Hf1 Hr1).
Qed.

(** The target of an angle of at most 180 degrees, at a scale factor
    under which 181 degrees fit the field. *)
Lemma scaled_angle_fits (s x : float) :
  (0 < value s)%Q -> (value s * 181 < inject_Z (2 ^ 32))%Q ->
  is_finite x = true -> (- pow2 (-43) <= value x <= 180 + pow2 (-43))%Q ->
  is_finite (s * x) = true /\ 0 <= toward_zero (value (s * x)) < 2 ^ 32.
Proof.
  intros Hs Hfit Hfx [Hlo Hhi].
  destruct (positive_float s Hs) as (ms & es & Es).
  assert (HS : value s = (inject_Z (Zpos ms) * pow2 es)%Q).
  { unfold value. rewrite Es. reflexivity. }
  set (F := SFmul prec emax (S754_finite false ms es) (Prim2SF x)).
  assert (HF : Prim2SF (s * x) = F).
  { rewrite FloatAxioms.mul_spec. unfold SF64mul. rewrite Es. reflexivity. }
  destruct (SFmul_spec (S754_finite false ms es) (Prim2SF x) eq_refl Hfx)
    as (_ & HFsign & HFround).
  pose proof (SFmul_overflow (S754_finite false ms es) (Prim2SF x) eq_refl Hfx) as HFover.
  cbv zeta in HFsign, HFround. fold F in HFsign, HFround, HFover.
  cbn [SFsign xorb] in HFsign. cbn [SFabsQ] in HFround, HFover. rewrite <- HS in HFround, HFover.
  set (S := value s) in *.
  set (a := SFabsQ (Prim2SF x)) in *.
  pose proof (SFabsQ_nonneg (Prim2SF x)) as Ha. fold a in Ha.
  pose proof (SFabsQ_nonneg F) as HFa.
  pose proof (pow2_pos (-1075)) as Ht. pose proof (pow2_pos (-53)) as Hu.
  pose proof (pow2_pos (-43)) as Hw.
  pose proof (tiny_below (-60) ltac:(lia)) as Ht60.
  assert (Hc1 : ((180 + pow2 (-43)) * (1 + pow2 (-53)) <= 181)%Q) by (vm_compute; discriminate).
  assert (Hc2 : (inject_Z (2 ^ 32) * (pow2 (-43) * (1 + pow2 (-53))) + pow2 (-60) < 1)%Q)
    by (vm_compute; reflexivity).
  assert (Hc3 : (pow2 (-1021) <= pow2 (-60))%Q) by (apply pow2_le; lia).
  assert (Hc4 : (2 * pow2 (-60) < 1)%Q) by (vm_compute; reflexivity).
  assert (Hc5 : (inject_Z (2 ^ 32) < pow2 971)%Q).
  { rewrite <- pow2_Z by lia. apply pow2_lt. lia. }
  assert (Hvx : (value x == if SFsign (Prim2SF x) then - a else a)%Q) by reflexivity.
  assert (Ha181 : (a <= 180 + pow2 (-43))%Q).
  { destruct (SFsign (Prim2SF x)); rewrite Hvx in Hlo, Hhi; lra. }
  assert (Hw181 : (180 + pow2 (-43) <= 181)%Q).
  { revert Hc1 Hu Hw. generalize (pow2 (-43)) (pow2 (-53)). intros w u **. nra. }
  assert (HSa181 : (S * a <= S * 181)%Q).
  { apply Qmult_le_l; [exact Hs | lra]. }
  assert (HSa : (S * a < inject_Z (2 ^ 32))%Q) by lra.
  assert (Hfin : SFfinite F = true).
  { destruct (SFfinite F); [reflexivity|exfalso]. specialize (HFover eq_refl). lra. }
  specialize (HFround Hfin).
  split; [unfold is_finite; rewrite HF; exact Hfin|].
  assert (HvF : (value (s * x) == if SFsign (Prim2SF x) then - SFabsQ F else SFabsQ F)%Q).
  { unfold value. rewrite HF. unfold SF2Q. rewrite HFsign. reflexivity. }
  assert (HSan : (0 <= S * a)%Q) by nra.
  pose proof (rounds_to_above _ _ HFround HSan) as Hup.
  pose proof (toward_zero_bounds (value (s * x))) as Hb. cbv zeta in Hb.
  set (n := toward_zero (value (s * x))) in *.
  destruct Hb as [Hb1 Hb2].
  destruct (SFsign (Prim2SF x)).
  - (* an angle of zero or just below *)
    assert (Hasmall : (a <= pow2 (-43))%Q) by (rewrite Hvx in Hlo; lra).
    assert (HFsmall : (SFabsQ F < 1)%Q).
    { assert (HStop : (S <= inject_Z (2 ^ 32))%Q) by lra.
      assert (H1 : (S * a <= inject_Z (2 ^ 32) * pow2 (-43))%Q).
      { apply Qmult_le_compat_nonneg; split; lra. }
      assert (H2 : (S * a * (1 + pow2 (-53)) <= inject_Z (2 ^ 32) * pow2 (-43) * (1 + pow2 (-53)))%Q).
      { apply Qmult_le_compat_r; lra. }
      revert Hup H2 Hc2 Ht Ht60.
      generalize (SFabsQ F) (S * a * (1 + pow2 (-53)))%Q (inject_Z (2 ^ 32)) (pow2 (-43))
        (pow2 (-53)) (pow2 (-1075)) (pow2 (-60)).
      intros f sa top w u t t60 **. lra. }
    assert (Hn0 : n = 0).
    { destruct (Qlt_le_dec (value (s * x)) 0) as [Hneg|Hnn].
      - specialize (Hb2 Hneg). rewrite HvF in Hb2.
        assert (H1 : (inject_Z (-1) < inject_Z n)%Q) by (change (inject_Z (-1)) with (-1 # 1)%Q; lra).
        assert (H2 : (inject_Z n < inject_Z 1)%Q) by (change (inject_Z 1) with 1%Q; lra).
        rewrite <- Zlt_Qlt in H1, H2. lia.
      - specialize (Hb1 Hnn). rewrite HvF in Hb1.
        assert (H1 : (inject_Z (-1) < inject_Z n)%Q) by (change (inject_Z (-1)) with (-1 # 1)%Q; lra).
        assert (H2 : (inject_Z n < inject_Z 1)%Q) by (change (inject_Z 1) with 1%Q; lra).
        rewrite <- Zlt_Qlt in H1, H2. lia. }
    rewrite Hn0. split; [lia | reflexivity].
  - assert (Hnn : (0 <= value (s * x))%Q) by (rewrite HvF; exact HFa).
    specialize (Hb1 Hnn). rewrite HvF in Hb1.
    assert (HFtop : (SFabsQ F < inject_Z (2 ^ 32))%Q).
    { destruct HFround as [Hr|[Hr1 Hr2]]; apply Qabs_Qle_condition in Hr || apply Qabs_Qle_condition in Hr2.
      - revert Hr Hc1 Ha181 Hfit Hs Ha Hu Hw.
        generalize (SFabsQ F) (inject_Z (2 ^ 32)) (pow2 (-43)) (pow2 (-53)).
        intros f top w u **. nra.
      - assert (1 <= inject_Z (2 ^ 32))%Q by (rewrite <- (Zle_Qle 1); lia).
        revert Hr1 Hr2 Hc3 Hc4 Ht Ht60 H.
        generalize (SFabsQ F) (inject_Z (2 ^ 32)) (pow2 (-1021)) (pow2 (-1075)) (pow2 (-60))
          (S * a)%Q.
        intros f top t1021 t t60 sa **. lra. }
    assert (H1 : (inject_Z (-1) < inject_Z n)%Q) by (change (inject_Z (-1)) with (-1 # 1)%Q; lra).
    assert (H2 : (inject_Z n < inject_Z (2 ^ 32))%Q) by lra.
    rewrite <- Zlt_Qlt in H1, H2. lia.
Qed.

(** ** Move_Absolute *)

Lemma lor_data_bit (d : Z) : 0 <= d < 256 -> 0 <= Z.lor d 0x80 < 256.
Proof.
  intros Hd. split; [apply Z.lor_nonneg; lia|].
  assert (Hpos : 0 < Z.lor d 0x80).
  { assert (Hne : Z.lor d 0x80 <> 0).
    { intros H0. apply Z.lor_eq_0_iff in H0. lia. }
    assert (0 <= Z.lor d 0x80) by (apply Z.lor_nonneg; lia). lia. }
  change 256 with (2 ^ 8). apply Z.log2_lt_pow2; [exact Hpos|].
  rewrite Z.log2_lor by lia. change (Z.log2 128) with 7.
  assert (Z.log2 d < 8).
  { destruct (Z.eq_dec d 0) as [->|Hnz]; [cbn; lia|].
    apply Z.log2_lt_pow2; lia. }
  lia.
Qed.

Lemma pack_move (d src target : Z) :
  0 <= d < 256 -> src = 0x01 ->
  pack move_fmt [PInt 0x0453; PInt 0x06; PInt 0x00; PInt (Z.lor d 0x80);
                 PInt src; PInt 0x01; PInt target]
  = if fits 4 target then Some (move_message d target) else None.
Proof.
  intros Hd ->. pose proof (lor_data_bit d Hd) as Hb.
  unfold move_fmt, move_message. cbn [pack width].
  rewrite (fits_true 1 (Z.lor d 128)) by (cbn; lia).
  change (fits 2 1091) with true. change (fits 1 6) with true.
  change (fits 1 0) with true. change (fits 1 1) with true.
  change (fits 2 1) with true. cbv iota.
  destruct (fits 4 target); [|reflexivity].
  cbn [le_bytes app]. rewrite (byte_small (Z.lor d 128)) by lia.
  reflexivity.
Qed.

Lemma Move_Absolute_packs (self : ThorController)
    (Position : float) (channel_num : Z) (wait : bool) (target : Z) :
  trunc (posScaleFactor self * Position) = Some target ->
  Move_Absolute Position channel_num wait self
  = (Serial_Port_write move_fmt
       [PInt 0x0453; PInt 0x06; PInt 0x00;
        PInt (Z.lor (get_destination_byte self channel_num) 0x80);
        PInt (source_byte self); PInt 0x01; PInt target] ;;;
     (if wait then wait_for 0x0464 else ret tt) ;;;
     Flush_Buffers ;;;
     Stay_Alive channel_num) self.
Proof.
  intros Ht. unfold Move_Absolute. unfold bind at 1. unfold py_int. rewrite Ht. reflexivity.
Qed.

Lemma Move_Absolute_live (self : ThorController) (sp : Serial)
    (Position : float) (channel_num : Z) (wait : bool) (target : Z) :
  live self sp -> addressable self channel_num ->
  trunc (posScaleFactor self * Position) = Some target ->
  0 <= target < 2 ^ 32 ->
  Move_Absolute Position channel_num wait self
  = settle self channel_num wait [0x64; 0x04]
      (emit (EWrite (move_message (get_destination_byte self channel_num) target)) sp).
Proof.
  intros Hl Ha Ht Hd. rewrite (Move_Absolute_packs _ _ _ _ _ Ht). unfold bind at 1.
  rewrite (Serial_Port_write_live _ _ self sp
             (move_message (get_destination_byte self channel_num) target) Hl).
  - apply (settle_live self sp _ channel_num 0x0464 wait Hl Ha);
      [exact (live_open _ _ Hl) | lia].
  - rewrite pack_move by (try exact Ha; exact (live_source _ _ Hl)).
    rewrite fits_true; [reflexivity | exact Hd].
Qed.

Lemma Move_Absolute_refused (self : ThorController) (sp : Serial)
    (Position : float) (channel_num : Z) (wait : bool) (target : Z) :
  live self sp -> addressable self channel_num ->
  trunc (posScaleFactor self * Position) = Some target ->
  target < 0 \/ 2 ^ 32 <= target ->
  Move_Absolute Position channel_num wait self = Raised StructError self.
Proof.
  intros Hl Ha Ht Hd. rewrite (Move_Absolute_packs _ _ _ _ _ Ht). unfold bind at 1.
  rewrite (Serial_Port_write_refused _ _ self sp (live_port _ _ Hl)); [reflexivity|].
  rewrite pack_move by (try exact Ha; exact (live_source _ _ Hl)).
  rewrite fits_false; [reflexivity | exact Hd].
Qed.

Lemma settle_trace (self : ThorController) (channel_num : Z) (wait : bool)
    (code : list Z) (sp1 : Serial) :
  is_open sp1 = true ->
  exists reads s,
    Forall is_read reads
    /\ (wait = false -> reads = [])
    /\ final_state (settle self channel_num wait code sp1) = set_Serial_Port self s
    /\ is_open s = true
    /\ log s = log sp1 ++ reads ++
               (if returned (settle self channel_num wait code sp1)
                then [EFlushInput; EFlushOutput;
                      EWrite (short_message 0x0492 0 0
                                (get_destination_byte self channel_num) 0x01)]
                else [])
    /\ returned (settle self channel_num wait code sp1)
       = (negb wait || delivers code (rx sp1))
    /\ (forall e st, settle self channel_num wait code sp1 <> Raised e st).
Proof.
  intros Ho1. unfold settle. destruct wait.
  - destruct (read_until_from_trace code (rx sp1) (log sp1))
      as (reads & Hr & Hlog & Ho2 & Hret & Hne).
    exists reads.
    destruct (read_until_from code (rx sp1) (log sp1)) as [[] s2|e s2|s2];
      cbn [final_state returned negb orb] in *.
    + eexists. split; [exact Hr|]. split; [discriminate|]. split; [reflexivity|].
      cbn [is_open log emit]. rewrite Hlog, <- !app_assoc.
      repeat split; try assumption; discriminate.
    + exfalso. exact (Hne e s2 eq_refl).
    + exists s2. rewrite app_nil_r.
      repeat split; try assumption; discriminate.
  - exists [], (emit (EWrite (short_message 0x0492 0 0
                                (get_destination_byte self channel_num) 0x01))
                  (emit EFlushOutput (emit EFlushInput sp1))).
    cbn [final_state returned negb orb is_open log emit app].
    rewrite <- !app_assoc.
    repeat split; try assumption; try constructor; discriminate.
Qed.

Lemma last_move_target_app (l d : list event) :
  last_move_target (l ++ d) = fold_left step_target d (last_move_target l).
Proof. unfold last_move_target. apply fold_left_app. Qed.

Lemma step_target_reads (reads : list event) (acc : option (list Z)) :
  Forall is_read reads -> fold_left step_target reads acc = acc.
Proof.
  intros Hr; revert acc; induction Hr as [|e reads He _ IH]; intros acc; [reflexivity|].
  destruct e; try contradiction. cbn [fold_left step_target]. apply IH.
Qed.

Lemma Move_Absolute_trace (self : ThorController) (sp : Serial)
    (Position : float) (channel_num : Z) (wait : bool) (target : Z) :
  live self sp -> addressable self channel_num ->
  trunc (posScaleFactor self * Position) = Some target ->
  0 <= target < 2 ^ 32 ->
  let o := Move_Absolute Position channel_num wait self in
  let move := move_message (get_destination_byte self channel_num) target in
  exists reads s,
    Forall is_read reads
    /\ final_state o = set_Serial_Port self s
    /\ is_open s = true
    /\ log s = log sp ++ EWrite move :: reads ++
              (if returned o
               then [EFlushInput; EFlushOutput;
                     EWrite (short_message 0x0492 0 0
                               (get_destination_byte self channel_num) 0x01)]
               else [])
    /\ last_move_target (log s) = Some (le_bytes 4 target).
Proof.
  intros Hl Ha Ht Hd o move. subst o.
  rewrite (Move_Absolute_live _ _ _ _ _ _ Hl Ha Ht Hd). fold move.
  destruct (settle_trace self channel_num wait [0x64; 0x04] (emit (EWrite move) sp)
              (live_open _ _ Hl))
    as (reads & s & Hr & _ & Hfin & Ho & Hlog & _ & _).
  exists reads, s. cbn [log emit] in Hlog. rewrite <- app_assoc in Hlog.
  repeat split; try assumption.
  rewrite Hlog, last_move_target_app.
  cbn [fold_left app]. rewrite fold_left_app, (step_target_reads reads) by exact Hr.
  destruct (returned _); reflexivity.
Qed.

(** C2, as the code has it.  On a live session and an addressable
    channel, when the binary64 product of the scale factor and the
    position is finite and, its fraction dropped, fits the unsigned
    32-bit field, [Move_Absolute] writes first a move message whose
    target is that product rounded toward zero, and that is the target
    left on the wire. *)
Theorem Move_Absolute_truncates (self : ThorController) (sp : Serial)
    (Position : float) (channel_num : Z) (wait : bool) :
  live self sp -> addressable self channel_num ->
  let product := (posScaleFactor self * Position)%float in
  is_finite product = true ->
  0 <= toward_zero (value product) < 2 ^ 32 ->
  (exists rest,
      session_log (final_state (Move_Absolute Position channel_num wait self))
      = log sp ++ EWrite (move_message (get_destination_byte self channel_num)
                            (toward_zero (value product))) :: rest)
  /\ sent_target (Move_Absolute Position channel_num wait self)
     = Some (toward_zero (value product)).
Proof.
  intros Hl Ha product Hfin Hd.
  pose proof (trunc_toward_zero product Hfin) as Ht.
  destruct (Move_Absolute_trace self sp Position channel_num wait _ Hl Ha Ht Hd)
    as (reads & s & _ & Hfs & _ & Hlog & Htarget).
  unfold sent_target. rewrite Hfs. unfold session_log.
  cbn [Serial_Port set_Serial_Port]. split.
  - eexists. exact Hlog.
  - rewrite Htarget. cbn [option_map]. f_equal.
    apply le_value_le_bytes. exact Hd.
Qed.

Lemma Move_Absolute_truncates_witness :
  live (KBD101 []) (mkSerial [] [] true)
  /\ addressable (KBD101 []) 1
  /\ is_finite (posScaleFactor (KBD101 []) * 25.0006) = true
  /\ sent_target (Move_Absolute 25.0006 1 false (KBD101 [])) = Some 50001.
Proof.
  split; [apply live_KBD101|]. split; [apply addressable_KBD101|].
  split; [vm_compute; reflexivity|].
  refine (proj2 (Move_Absolute_truncates (KBD101 []) (mkSerial [] [] true) 25.0006 1 false
                   (live_KBD101 []) (addressable_KBD101 [] 1) _ _)).
  - vm_compute. reflexivity.
  - vm_compute. split; [discriminate | reflexivity].
Defined.

(** C2 fails as stated: with scale factor 2000 and position 1/2048
    (a float) the product is 0.9765625, exactly; the target sent is 0,
    its nearest integer is 1. *)
Lemma Move_Absolute_not_nearest :
  (value (posScaleFactor (KBD101 []) * 0.00048828125) == 2000 # 2048)%Q
  /\ sent_target (Move_Absolute 0.00048828125 1 false (KBD101 [])) = Some 0
  /\ py_round (value (posScaleFactor (KBD101 []) * 0.00048828125)) = 1
  /\ sent_target (Move_Absolute 0.00048828125 1 false (KBD101 []))
     <> Some (py_round (value (posScaleFactor (KBD101 []) * 0.00048828125))).
Proof.
  split; [vm_compute; reflexivity|]. split; [vm_compute; reflexivity|].
  split; [vm_compute; reflexivity|]. vm_compute. discriminate.
Qed.

(** C3, as the code has it.  The move message is a six-byte header
    with the data-packet bit set on the destination, a 16-bit channel
    field holding 1, and the target as an unsigned 32-bit integer.  A
    target below zero, or of 2^32 and more, cannot be packed: the call
    raises [StructError] before anything is written.  When the product
    of the scale factor and the position is an infinity or a NaN there
    is no target: [int] raises [OverflowError] or [ValueError]. *)
Theorem Move_Absolute_payload (self : ThorController) (sp : Serial)
    (Position : float) (channel_num : Z) (wait : bool) :
  live self sp -> addressable self channel_num ->
  let product := (posScaleFactor self * Position)%float in
  let dest := get_destination_byte self channel_num in
  (forall target, trunc product = Some target ->
     (0 <= target < 2 ^ 32 ->
      exists rest,
        session_log (final_state (Move_Absolute Position channel_num wait self))
        = log sp ++ EWrite ([0x53; 0x04; 0x06; 0x00; Z.lor dest 0x80; 0x01]
                             ++ le_bytes 2 0x01 ++ le_bytes 4 target) :: rest
        /\ le_value (le_bytes 4 target) = target)
     /\ (target < 0 \/ 2 ^ 32 <= target ->
         Move_Absolute Position channel_num wait self = Raised StructError self))
  /\ (trunc product = None ->
      Move_Absolute Position channel_num wait self
      = Raised (if is_nan product then ValueError else OverflowError) self).
Proof.
  intros Hl Ha product dest. split.
  - intros target Ht. split.
    + intros Hd.
      destruct (Move_Absolute_trace self sp Position channel_num wait _ Hl Ha Ht Hd)
        as (reads & s & _ & Hfs & _ & Hlog & _).
      rewrite Hfs. unfold session_log. cbn [Serial_Port set_Serial_Port].
      eexists. split; [exact Hlog|]. apply le_value_le_bytes. exact Hd.
    + intros Hd. apply (Move_Absolute_refused self sp _ _ _ target); assumption.
  - intros Hn. apply Move_Absolute_not_finite. exact Hn.
Qed.

Lemma Move_Absolute_payload_witness :
  live (BSC202 []) (mkSerial [] [] true)
  /\ addressable (BSC202 []) 2
  /\ trunc (posScaleFactor (BSC202 []) * 0.5) = Some 204800
  /\ exists rest,
      session_log (final_state (Move_Absolute 0.5 2 false (BSC202 [])))
      = EWrite [0x53; 0x04; 0x06; 0x00; 0xA2; 0x01; 0x01; 0x00; 0x00; 0x20; 0x03; 0x00] :: rest
      /\ le_value [0x00; 0x20; 0x03; 0x00] = 204800.
Proof.
  split; [apply live_BSC202|].
  assert (Ha : addressable (BSC202 []) 2) by (unfold addressable; vm_compute; split; [discriminate | reflexivity]).
  split; [exact Ha|].
  assert (Ht : trunc (posScaleFactor (BSC202 []) * 0.5) = Some 204800) by (vm_compute; reflexivity).
  split; [exact Ht|].
  refine (proj1 (proj1 (Move_Absolute_payload (BSC202 []) (mkSerial [] [] true) 0.5 2 false
                          (live_BSC202 []) Ha) 204800 Ht) _).
  vm_compute; split; [discriminate | reflexivity].
Defined.

(** C3 fails as stated: a negative target is refused, not sent in
    two's complement.  With scale factor 2000 and position -1 the
    target is -2000 and the call raises, the session untouched. *)
Lemma Move_Absolute_negative_refused :
  trunc (posScaleFactor (KBD101 []) * -1) = Some (-2000)
  /\ Move_Absolute (-1) 1 false (KBD101 []) = Raised StructError (KBD101 [])
  /\ session_log (final_state (Move_Absolute (-1) 1 false (KBD101 []))) = [].
Proof. split; [vm_compute; reflexivity|]. split; vm_compute; reflexivity. Qed.

(** ** getPosition *)

Lemma py_int_div_small {St} (n : Z) (s : float) (st : St) :
  (forall sg, binary_normalize prec emax n 0 false <> S754_infinity sg) ->
  (s =? 0)%float = false ->
  py_int_div n s st
  = Returned (SF2Prim (binary_normalize prec emax n 0 false) / s)%float st.
Proof.
  intros Hn Hs. unfold py_int_div, bind, py_float.
  destruct (binary_normalize prec emax n 0 false) as [sg|sg| |sg m e] eqn:E;
    try (exfalso; exact (Hn sg eq_refl));
    unfold ret, py_div; rewrite Hs; reflexivity.
Qed.

Lemma getPosition_live (self : ThorController) (sp : Serial) (channel_num : Z)
    (header : list Z) (chan_dent position_dUnits : Z) :
  live self sp -> addressable self channel_num ->
  unpack counter_fmt (next_read 12 sp)
  = Some [PBytes header; PInt chan_dent; PInt position_dUnits] ->
  exists sp',
    getPosition channel_num self
    = py_int_div position_dUnits (posScaleFactor self) (set_Serial_Port self sp').
Proof.
  intros Hl Ha Hun.
  pose proof (live_open _ _ Hl) as Ho.
  unfold getPosition. unfold bind at 1.
  rewrite (Flush_Buffers_live _ _ Hl).
  set (sp1 := emit EFlushOutput (emit EFlushInput sp)).
  assert (Hl1 : live (set_Serial_Port self sp1) sp1) by (apply (live_set _ _ _ Hl); exact Ho).
  unfold bind at 1.
  change (get_destination_byte self channel_num)
    with (get_destination_byte (set_Serial_Port self sp1) channel_num) at 1.
  change (source_byte self) with (source_byte (set_Serial_Port self sp1)) at 1.
  rewrite (send_short_live _ sp1) by (auto; lia).
  rewrite set_Serial_Port_twice.
  set (sp2 := emit _ sp1).
  unfold bind at 1.
  rewrite (on_port_some _ _ sp2) by reflexivity.
  rewrite ser_read_open by exact Ho.
  change (next_read 12 sp2) with (next_read 12 sp).
  set (sp3 := mkSerial _ _ true).
  unfold bind at 1. unfold unpacked. rewrite Hun. unfold ret at 1.
  cbv beta iota.
  assert (Hl3 : live (set_Serial_Port self sp3) sp3) by (apply (live_set _ _ _ Hl); reflexivity).
  unfold bind at 1.
  rewrite (Stay_Alive_live _ sp3) by (auto; exact Ha).
  rewrite set_Serial_Port_twice.
  set (sp4 := emit _ sp3).
  assert (Hl4 : live (set_Serial_Port self sp4) sp4) by (apply (live_set _ _ _ Hl); reflexivity).
  cbv beta iota. unfold bind at 1. rewrite !set_Serial_Port_twice.
  rewrite (Flush_Buffers_live _ _ Hl4). rewrite set_Serial_Port_twice.
  eexists. reflexivity.
Qed.

(** C1, as the code has it.  On a live session with a positive
    position scale factor [s], let [Move_Absolute] of a position [p]
    return, which it does only when the target fitted the 32-bit
    field and was sent, and let the device's next twelve-byte reply
    carry, after its header and channel field, the very four bytes
    that were sent.  Then [getPosition] returns a float [v].  It is
    finite unless [s] is below [2 ^ -991], and when it is finite it
    lies within one device unit of [p] up to the rounding of the
    product and of the quotient:
    [|v - p| <= 1/s + 2 ^ -51 * (|p| + 1/s)]. *)
Theorem position_round_trip (self self1 : ThorController) (sp sp1 : Serial)
    (Position : float) (channel_num : Z) (wait : bool)
    (header chan_dent target : list Z) (rest : list (list Z)) :
  live self sp -> addressable self channel_num ->
  (0 < value (posScaleFactor self))%Q ->
  Move_Absolute Position channel_num wait self = Returned tt self1 ->
  Serial_Port self1 = Some sp1 ->
  last_move_target (log sp1) = Some target ->
  List.length header = 6%nat -> List.length chan_dent = 2%nat ->
  rx sp1 = (header ++ chan_dent ++ target) :: rest ->
  exists v self2,
    getPosition channel_num self1 = Returned v self2
    /\ ((pow2 (-991) <= value (posScaleFactor self))%Q -> is_finite v = true)
    /\ (is_finite v = true ->
        (Qabs (value v - value Position)
         <= 1 / value (posScaleFactor self)
            + pow2 (-51) * (Qabs (value Position) + 1 / value (posScaleFactor self)))%Q).
Proof.
  intros Hl Ha Hs Hmove Hp1 Htarget Hh Hc Hrx.
  destruct (trunc (posScaleFactor self * Position)) as [d|] eqn:Ht.
  2:{ rewrite (Move_Absolute_not_finite _ _ _ _ Ht) in Hmove. discriminate. }
  assert (Hd : 0 <= d < 2 ^ 32).
  { destruct (Z_lt_dec d 0) as [Hneg|Hpos];
      [|destruct (Z_le_dec (2 ^ 32) d) as [Hbig|Hfit]; [|lia]];
      rewrite (Move_Absolute_refused self sp _ _ _ d) in Hmove by (auto; lia);
      discriminate. }
  destruct (Move_Absolute_trace self sp Position channel_num wait d Hl Ha Ht Hd)
    as (reads & s & _ & Hfs & Ho & _ & Hsent).
  rewrite Hmove in Hfs. cbn [final_state] in Hfs. subst self1.
  cbn [Serial_Port set_Serial_Port] in Hp1. injection Hp1 as ->.
  rewrite Hsent in Htarget. injection Htarget as <-.
  assert (Hl1 : live (set_Serial_Port self sp1) sp1) by (apply (live_set _ _ _ Hl); exact Ho).
  destruct header as [|h0 [|h1 [|h2 [|h3 [|h4 [|h5 [|h6 header]]]]]]]; try discriminate.
  destruct chan_dent as [|c0 [|c1 [|c2 chan_dent]]]; try discriminate.
  destruct (getPosition_live (set_Serial_Port self sp1) sp1 channel_num
              [h0; h1; h2; h3; h4; h5] (le_value [c0; c1]) (le_value (le_bytes 4 d))
              Hl1 Ha) as (sp' & Hget).
  { unfold next_read. rewrite Hrx. reflexivity. }
  rewrite Hget, le_value_le_bytes by exact Hd.
  cbn [posScaleFactor set_Serial_Port].
  destruct (round_trip_float (posScaleFactor self) Position d Hs Ht Hd)
    as (Hnf & Hfinite & Hclose).
  rewrite py_int_div_small by (try exact Hnf; apply positive_float_nonzero; exact Hs).
  eexists. eexists. split; [reflexivity|]. split; [exact Hfinite | exact Hclose].
Qed.

Lemma position_round_trip_witness :
  let script := [[0x12; 0x04; 0x06; 0x00; 0x81; 0x50; 0x01; 0x00; 0x50; 0xC3; 0x00; 0x00]] in
  let self1 := final_state (Move_Absolute 25 1 false (KBD101 script)) in
  live (KBD101 script) (mkSerial [] script true)
  /\ (0 < value (posScaleFactor (KBD101 script)))%Q
  /\ Move_Absolute 25 1 false (KBD101 script) = Returned tt self1
  /\ option_map rx (Serial_Port self1) = Some script
  /\ exists v self2,
      getPosition 1 self1 = Returned v self2
      /\ ((pow2 (-991) <= value (posScaleFactor (KBD101 script)))%Q -> is_finite v = true)
      /\ (is_finite v = true ->
          (Qabs (value v - value 25)
           <= 1 / value (posScaleFactor (KBD101 script))
              + pow2 (-51) * (Qabs (value 25) + 1 / value (posScaleFactor (KBD101 script))))%Q).
Proof.
  intros script self1.
  split; [apply live_KBD101|]. split; [vm_compute; reflexivity|].
  split; [vm_compute; reflexivity|]. split; [vm_compute; reflexivity|].
  eapply (position_round_trip (KBD101 script) self1 (mkSerial [] script true) _
            25 1 false
            [0x12; 0x04; 0x06; 0x00; 0x81; 0x50] [0x01; 0x00] [0x50; 0xC3; 0x00; 0x00] []).
  - apply live_KBD101.
  - apply addressable_KBD101.
  - vm_compute. reflexivity.
  - vm_compute. reflexivity.
  - vm_compute. reflexivity.
  - vm_compute. reflexivity.
  - reflexivity.
  - reflexivity.
  - vm_compute. reflexivity.
Defined.

(** C1 fails as stated: with scale factor 2000 and position 64.002
    the target sent is 128003 and, that target echoed, [getPosition]
    returns 64.0015; the two floats differ by more than 1/2000. *)
Lemma position_round_trip_exceeds :
  let script := [[0x12; 0x04; 0x06; 0x00; 0x81; 0x50; 0x01; 0x00; 0x03; 0xF4; 0x01; 0x00]] in
  let self := KBD101 script in
  let self1 := final_state (Move_Absolute 64.002 1 false self) in
  Move_Absolute 64.002 1 false self = Returned tt self1
  /\ sent_target (Move_Absolute 64.002 1 false self) = Some 128003
  /\ le_value [0x03; 0xF4; 0x01; 0x00] = 128003
  /\ exists self2,
      getPosition 1 self1 = Returned 64.0015%float self2
      /\ (1 / value (posScaleFactor self) < Qabs (value 64.0015 - value 64.002))%Q.
Proof.
  cbv zeta. split; [vm_compute; reflexivity|]. split; [vm_compute; reflexivity|].
  split; [reflexivity|]. eexists. split; [vm_compute; reflexivity|].
  vm_compute. reflexivity.
Qed.

(** ** Counting commands since the last keep-alive *)

Lemma count_from_app (c : nat) (d1 d2 : list event) :
  count_from c (d1 ++ d2) = count_from (count_from c d1) d2.
Proof. unfold count_from. apply fold_left_app. Qed.

Lemma peak_from_app (c : nat) (d1 d2 : list event) :
  peak_from c (d1 ++ d2) = Nat.max (peak_from c d1) (peak_from (count_from c d1) d2).
Proof.
  revert c; induction d1 as [|e d1 IH]; intros c.
  - cbn. destruct d2; cbn; lia.
  - cbn [app peak_from]. rewrite IH.
    change (count_from c (e :: d1)) with (count_from (step_count c e) d1). lia.
Qed.

Lemma peak_from_start (c : nat) (d : list event) : (c <= peak_from c d)%nat.
Proof. destruct d; cbn; lia. Qed.

Lemma count_le_peak (c : nat) (d : list event) : (count_from c d <= peak_from c d)%nat.
Proof.
  revert c; induction d as [|e d IH]; intros c; cbn; [lia|].
  specialize (IH (step_count c e)). unfold count_from in IH. lia.
Qed.

Lemma prefix_le_peak (c : nat) (d1 d2 : list event) :
  (count_from c d1 <= peak_from c (d1 ++ d2))%nat.
Proof. rewrite peak_from_app. pose proof (count_le_peak c d1). lia. Qed.

Lemma quiet_events (c : nat) (d : list event) :
  forallb (fun e => negb (is_write e)) d = true ->
  peak_from c d = c /\ count_from c d = c.
Proof.
  induction d as [|e d IH]; intros Hq; [split; reflexivity|].
  cbn [forallb] in Hq. apply andb_prop in Hq. destruct Hq as [He Hq].
  destruct (IH Hq) as [Hp Hc].
  destruct e; try discriminate; cbn in *; unfold count_from in Hc; rewrite ?Hp, ?Hc; lia.
Qed.

Lemma reads_are_quiet (reads : list event) :
  Forall is_read reads -> forallb (fun e => negb (is_write e)) reads = true.
Proof.
  induction 1 as [|e reads He _ IH]; [reflexivity|].
  destruct e; try contradiction. exact IH.
Qed.

Section Paced.

Context {St : Type} (lg : St -> list event).

Lemma paced_ret {A} (a : A) : paced lg (ret a) 0 0 false 0.
Proof. intros st. exists []. cbn. rewrite app_nil_r. split; [reflexivity|]. intros c; lia. Qed.

Lemma paced_raise {A} (e : exn) (p q : nat) (r : bool) (k : nat) :
  paced lg (@raise St A e) p q r k.
Proof.
  intros st. exists []. cbn. rewrite app_nil_r. split; [reflexivity|].
  intros c; split; [lia | discriminate].
Qed.

Lemma paced_bind {A B} (m : M St A) (f : A -> M St B)
    (p1 q1 k1 p2 q2 k2 : nat) (r1 r2 : bool) :
  paced lg m p1 q1 r1 k1 ->
  (forall a, paced lg (f a) p2 q2 r2 k2) ->
  paced lg (bind m f)
        (if r1 then p1 else Nat.max p1 (k1 + p2))
        (if r1 then Nat.max q1 (Nat.max (k1 + p2) q2) else Nat.max q1 q2)
        (r1 || r2)
        (if r2 then k2 else k1 + k2).
Proof.
  intros Hm Hf st. destruct (Hm st) as (d1 & Hlog1 & H1).
  unfold bind. destruct (m st) as [a st1|e st1|st1]; cbn [final_state returned] in *.
  - destruct (Hf a st1) as (d2 & Hlog2 & H2).
    exists (d1 ++ d2). rewrite Hlog2, Hlog1, app_assoc. split; [reflexivity|].
    intros c. destruct (H1 c) as [Hp1 Hc1]. specialize (Hc1 eq_refl).
    destruct (H2 (count_from c d1)) as [Hp2 Hc2].
    rewrite peak_from_app, count_from_app. split.
    + destruct r1; lia.
    + intros Hret. specialize (Hc2 Hret). destruct r1, r2; cbn [orb]; lia.
  - exists d1. split; [exact Hlog1|]. intros c. destruct (H1 c) as [Hp1 _].
    split; [destruct r1; lia | discriminate].
  - exists d1. split; [exact Hlog1|]. intros c. destruct (H1 c) as [Hp1 _].
    split; [destruct r1; lia | discriminate].
Qed.

Lemma paced_weaken {A} (m : M St A) (p' q' k' p q k : nat) (r' r : bool) :
  paced lg m p' q' r' k' ->
  (p' <= p)%nat -> (q' <= q)%nat -> (k' <= k)%nat -> implb r r' = true ->
  paced lg m p q r k.
Proof.
  intros Hm Hp Hq Hk Hr st. destruct (Hm st) as (d & Hlog & H).
  exists d. split; [exact Hlog|]. intros c. destruct (H c) as [H1 H2].
  split; [lia|]. intros Hret. specialize (H2 Hret).
  destruct r, r'; try discriminate; lia.
Qed.

Lemma paced_if {A} (b : bool) (m1 m2 : M St A)
    (p1 q1 k1 p2 q2 k2 : nat) (r1 r2 : bool) :
  paced lg m1 p1 q1 r1 k1 -> paced lg m2 p2 q2 r2 k2 ->
  paced lg (if b then m1 else m2)
        (Nat.max p1 p2) (Nat.max q1 q2) (r1 && r2) (Nat.max k1 k2).
Proof.
  intros H1 H2. destruct b.
  - apply (paced_weaken _ _ _ _ _ _ _ _ _ H1); try lia. destruct r1, r2; reflexivity.
  - apply (paced_weaken _ _ _ _ _ _ _ _ _ H2); try lia. destruct r1, r2; reflexivity.
Qed.

Lemma paced_self {A} (body : St -> M St A) (p q k : nat) (r : bool) :
  (forall s0, paced lg (body s0) p q r k) ->
  paced lg (fun self => body self self) p q r k.
Proof. intros H st. exact (H st st). Qed.

End Paced.

(** *** The connection *)

Lemma paced_quiet_step (f : Serial -> Serial) (e : event) :
  is_write e = false ->
  (forall sp, log (f sp) = log sp ++ [e]) ->
  paced log (guard_open ;;; fun sp => Returned tt (f sp)) 0 0 false 0.
Proof.
  intros He Hf sp. unfold bind, guard_open. destruct (is_open sp); cbn [final_state returned].
  - exists [e]. split; [apply Hf|]. intros c.
    destruct e; try discriminate; cbn; lia.
  - exists []. rewrite app_nil_r. split; [reflexivity|]. intros c; cbn; lia.
Qed.

Lemma paced_ser_write (bytes : list Z) : paced log (ser_write bytes) 1 0 false 1.
Proof.
  intros sp. unfold ser_write, bind, guard_open.
  destruct (is_open sp); cbn [final_state returned].
  - exists [EWrite bytes]. split; [reflexivity|]. intros c. cbn.
    destruct (is_keep_alive bytes); lia.
  - exists []. rewrite app_nil_r. split; [reflexivity|]. intros c; cbn; lia.
Qed.

Lemma paced_ser_write_keep_alive (bytes : list Z) :
  is_keep_alive bytes = true -> paced log (ser_write bytes) 0 0 true 0.
Proof.
  intros Hka sp. unfold ser_write, bind, guard_open.
  destruct (is_open sp); cbn [final_state returned].
  - exists [EWrite bytes]. split; [reflexivity|]. intros c. cbn. rewrite Hka. lia.
  - exists []. rewrite app_nil_r. split; [reflexivity|]. intros c; cbn.
    split; [lia | discriminate].
Qed.

Lemma paced_ser_read (n : nat) : paced log (ser_read n) 0 0 false 0.
Proof.
  intros sp. unfold ser_read, bind, guard_open.
  destruct (is_open sp); cbn [final_state returned].
  - destruct (rx sp); cbn [final_state returned emit log];
      (eexists; split; [reflexivity|]; intros c; cbn; lia).
  - exists []. rewrite app_nil_r. split; [reflexivity|]. intros c; cbn; lia.
Qed.

Lemma paced_reset_input_buffer : paced log reset_input_buffer 0 0 false 0.
Proof. apply (paced_quiet_step (emit EFlushInput) EFlushInput); reflexivity. Qed.

Lemma paced_reset_output_buffer : paced log reset_output_buffer 0 0 false 0.
Proof. apply (paced_quiet_step (emit EFlushOutput) EFlushOutput); reflexivity. Qed.

Lemma paced_ser_close : paced log ser_close 0 0 false 0.
Proof.
  intros sp. exists [EClose]. split; [reflexivity|]. intros c; cbn; lia.
Qed.

Lemma paced_ser_open : paced log ser_open 0 0 false 0.
Proof.
  intros sp. unfold ser_open. destruct (is_open sp); cbn [final_state returned log].
  - exists []. rewrite app_nil_r. split; [reflexivity|]. intros c; cbn; lia.
  - exists [EOpen]. split; [reflexivity|]. intros c; cbn; lia.
Qed.

Lemma paced_read_until (code : list Z) : paced log (read_until code) 0 0 false 0.
Proof.
  intros sp. unfold read_until, bind, guard_open.
  destruct (is_open sp); cbn [final_state returned].
  - destruct (read_until_from_trace code (rx sp) (log sp)) as (reads & Hr & Hlog & _).
    exists reads. split; [exact Hlog|]. intros c.
    destruct (quiet_events c reads (reads_are_quiet _ Hr)) as [Hp Hc]. lia.
  - exists []. rewrite app_nil_r. split; [reflexivity|]. intros c; cbn; lia.
Qed.

(** *** The session *)

Lemma paced_on_port {A} (m : M Serial A) (p q k : nat) (r : bool) :
  paced log m p q r k -> paced session_log (on_port m) p q r k.
Proof.
  intros Hm self. unfold on_port. destruct (Serial_Port self) as [sp|] eqn:Hp.
  - destruct (Hm sp) as (d & Hlog & H). exists d.
    unfold session_log at 2. rewrite Hp.
    destruct (m sp) as [a sp'|e sp'|sp'];
      cbn [final_state returned session_log set_Serial_Port Serial_Port] in *;
      (split; [exact Hlog | exact H]).
  - exists []. rewrite app_nil_r. cbn [final_state returned].
    split; [reflexivity|]. intros c; cbn; split; [lia | discriminate].
Qed.

Lemma paced_has_port : paced session_log has_port 0 0 false 0.
Proof.
  intros self. unfold has_port.
  exists []. rewrite app_nil_r.
  destruct (Serial_Port self); (split; [reflexivity|]; intros c; cbn; lia).
Qed.

Lemma paced_packed {St} (lg : St -> list event) (fmt : list item) (args : list pyval) :
  paced lg (packed fmt args) 0 0 false 0.
Proof.
  unfold packed. destruct (pack fmt args); [apply paced_ret | apply paced_raise].
Qed.

Lemma paced_unpacked {St} (lg : St -> list event) (fmt : list item) (buf : list Z) :
  paced lg (unpacked fmt buf) 0 0 false 0.
Proof.
  unfold unpacked. destruct (unpack fmt buf); [apply paced_ret | apply paced_raise].
Qed.

Lemma paced_py_div {St} (lg : St -> list event) (num den : float) :
  paced lg (py_div num den) 0 0 false 0.
Proof.
  unfold py_div. destruct (den =? 0)%float; [apply paced_raise | apply paced_ret].
Qed.

Lemma paced_py_float {St} (lg : St -> list event) (n : Z) :
  paced lg (py_float n) 0 0 false 0.
Proof.
  unfold py_float.
  destruct (binary_normalize prec emax n 0 false); try apply paced_ret; apply paced_raise.
Qed.

Lemma paced_py_int {St} (lg : St -> list event) (x : float) :
  paced lg (py_int x) 0 0 false 0.
Proof. unfold py_int. destruct (trunc x); [apply paced_ret | apply paced_raise]. Qed.

Lemma paced_py_int_div {St} (lg : St -> list event) (n : Z) (den : float) :
  paced lg (py_int_div n den) 0 0 false 0.
Proof.
  unfold py_int_div.
  eapply paced_weaken.
  - eapply paced_bind; [apply paced_py_float|]. intros num. apply paced_py_div.
  - cbn; lia.
  - cbn; lia.
  - cbn; lia.
  - reflexivity.
Qed.

Lemma packed_message_id (fmt : list item) (args : list pyval) (id : Z) (bytes : list Z) :
  pack (fH :: fmt) (PInt id :: args) = Some bytes -> message_id bytes = id.
Proof.
  cbn [pack width]. destruct (fits 2 id) eqn:Hfit; [|discriminate].
  destruct (pack fmt args) as [rest|]; [|discriminate].
  intros [= <-]. unfold message_id. cbn [le_bytes app firstn].
  change [id mod 256; (id / 256) mod 256] with (le_bytes 2 id).
  apply le_value_le_bytes.
  unfold fits in Hfit. apply andb_prop in Hfit. destruct Hfit as [H1 H2].
  apply Z.leb_le in H1. apply Z.ltb_lt in H2. lia.
Qed.

Lemma paced_Serial_Port_write (fmt : list item) (args : list pyval) :
  paced session_log (Serial_Port_write fmt args) 1 0 false 1.
Proof.
  unfold Serial_Port_write.
  eapply paced_weaken.
  - eapply paced_bind; [apply paced_has_port|]. intros _.
    eapply paced_bind; [apply paced_packed|]. intros msg.
    apply paced_on_port, paced_ser_write.
  - cbn; lia.
  - cbn; lia.
  - cbn; lia.
  - reflexivity.
Qed.

(** Entering a method body, written [fun self => body self]. *)
Ltac paced_self_tac :=
  lazymatch goal with
  | |- @paced ?St ?A ?lg ?F ?p ?q ?r ?k =>
      let body :=
        constr:(fun s0 : St =>
                  ltac:(let t := eval cbv beta zeta in (F s0) in
                        lazymatch t with ?m s0 => exact m end)) in
      apply (paced_self lg body p q k r); intro
  end.

Lemma paced_Stay_Alive (channel_num : Z) :
  paced session_log (Stay_Alive channel_num) 0 0 true 0.
Proof.
  unfold Stay_Alive. paced_self_tac. unfold Serial_Port_write.
  eapply paced_weaken.
  - eapply paced_bind; [apply paced_has_port|]. intros _.
    unfold packed.
    match goal with
    | |- context [pack ?f ?a] => destruct (pack f a) as [msg|] eqn:Hpack
    end.
    + apply paced_on_port, paced_ser_write_keep_alive.
      unfold is_keep_alive. rewrite (packed_message_id _ _ _ _ Hpack). reflexivity.
    + apply (paced_raise session_log StructError 0 0 true 0).
  - cbn; lia.
  - cbn; lia.
  - cbn; lia.
  - reflexivity.
Qed.

Lemma paced_Flush_Buffers : paced session_log Flush_Buffers 0 0 false 0.
Proof.
  unfold Flush_Buffers.
  eapply paced_weaken.
  - eapply paced_bind; [apply paced_on_port, paced_reset_input_buffer|]. intros _.
    apply paced_on_port, paced_reset_output_buffer.
  - cbn; lia.
  - cbn; lia.
  - cbn; lia.
  - reflexivity.
Qed.

Lemma paced_wait_for (id : Z) : paced session_log (wait_for id) 0 0 false 0.
Proof.
  unfold wait_for.
  eapply paced_weaken.
  - eapply paced_bind; [apply paced_packed|]. intros code.
    apply paced_on_port, paced_read_until.
  - cbn; lia.
  - cbn; lia.
  - cbn; lia.
  - reflexivity.
Qed.

(** Following the shape of a method body. *)
Ltac paced_go :=
  lazymatch goal with
  | |- paced _ (bind _ _) _ _ _ _ => eapply paced_bind; [paced_go | intro; paced_go]
  | |- paced _ (if ?b then _ else _) _ _ _ _ =>
      lazymatch type of b with
      | bool => eapply paced_if; [paced_go | paced_go]
      | _ => destruct b; paced_go
      end
  | |- paced _ (ret _) _ _ _ _ => apply paced_ret
  | |- paced _ (raise _) _ _ _ _ => apply paced_raise
  | |- paced _ (Serial_Port_write _ _) _ _ _ _ => apply paced_Serial_Port_write
  | |- paced _ (Stay_Alive _) _ _ _ _ => apply paced_Stay_Alive
  | |- paced _ Flush_Buffers _ _ _ _ => apply paced_Flush_Buffers
  | |- paced _ (wait_for _) _ _ _ _ => apply paced_wait_for
  | |- paced _ (on_port (ser_read _)) _ _ _ _ => apply paced_on_port, paced_ser_read
  | |- paced _ (on_port reset_input_buffer) _ _ _ _ =>
      apply paced_on_port, paced_reset_input_buffer
  | |- paced _ (on_port reset_output_buffer) _ _ _ _ =>
      apply paced_on_port, paced_reset_output_buffer
  | |- paced _ (unpacked _ _) _ _ _ _ => apply paced_unpacked
  | |- paced _ (py_int_div _ _) _ _ _ _ => apply paced_py_int_div
  | |- paced _ (py_int _) _ _ _ _ => apply paced_py_int
  | |- paced _ (match ?v with _ => _ end) _ _ _ _ => destruct v; paced_go
  end.

Ltac paced_method :=
  paced_self_tac;
  eapply paced_weaken; [paced_go | cbn; lia | cbn; lia | cbn; lia | reflexivity].

Lemma paced_Initialize (channel_num : Z) :
  paced session_log (Initialize channel_num) 2 0 false 2.
Proof. unfold Initialize. paced_method. Qed.

Lemma paced_Identify (channel_num : Z) :
  paced session_log (Identify channel_num) 1 1 true 0.
Proof. unfold Identify. paced_method. Qed.

Lemma paced_Enable_Channel (channel_num : Z) :
  paced session_log (Enable_Channel channel_num) 1 1 true 0.
Proof. unfold Enable_Channel. paced_method. Qed.

Lemma paced_Disable_Channel (channel_num : Z) :
  paced session_log (Disable_Channel channel_num) 1 1 true 0.
Proof. unfold Disable_Channel. paced_method. Qed.

Lemma paced_Home (channel_num : Z) (wait : bool) :
  paced session_log (Home channel_num wait) 1 1 true 0.
Proof. unfold Home. paced_method. Qed.

Lemma paced_Move_Absolute (Position : float) (channel_num : Z) (wait : bool) :
  paced session_log (Move_Absolute Position channel_num wait) 1 1 true 0.
Proof. unfold Move_Absolute. paced_method. Qed.

Lemma paced_getPosition (channel_num : Z) :
  paced session_log (getPosition channel_num) 1 1 true 0.
Proof. unfold getPosition. paced_method. Qed.

Lemma paced_get_status_Update (channel_num : Z) :
  paced session_log (get_status_Update channel_num) 1 1 true 0.
Proof. unfold get_status_Update. paced_method. Qed.

Lemma paced_getEncCounter (channel_num : Z) :
  paced session_log (getEncCounter channel_num) 1 1 true 0.
Proof. unfold getEncCounter. paced_method. Qed.

(** One call, whatever its outcome: the count rises by the weight of
    the call at most, and is as [count_after] says at its end. *)
Lemma perform_paced (k : call) (self : ThorController) :
  exists d,
    session_log (final_state (perform k self)) = session_log self ++ d
    /\ forall c,
        (peak_from c d <= c + weight k)%nat
        /\ (count_from c d <= count_after c k (perform k self))%nat.
Proof.
  assert (Hgen : forall (p : nat) (r : bool),
             paced session_log (perform k) p p r 0 ->
             (p <= weight k)%nat -> r = (sends_keep_alive k) ->
             exists d,
               session_log (final_state (perform k self)) = session_log self ++ d
               /\ forall c,
                   (peak_from c d <= c + weight k)%nat
                   /\ (count_from c d <= count_after c k (perform k self))%nat).
  { intros p r Hp Hw Hr. destruct (Hp self) as (d & Hlog & H).
    exists d. split; [exact Hlog|]. intros c. destruct (H c) as [H1 H2].
    split; [lia|]. unfold count_after. rewrite <- Hr.
    destruct (returned (perform k self)).
    - specialize (H2 eq_refl). destruct r; cbn [andb]; lia.
    - pose proof (count_le_peak c d). rewrite andb_false_r. lia. }
  destruct k; cbn [perform] in *; unfold discard, Close_Port, Open_Port in *.
  - destruct (paced_Initialize channel_num self) as (d & Hlog & H).
    exists d. split; [exact Hlog|]. intros c. destruct (H c) as [H1 H2].
    unfold count_after, weight. cbn [is_Initialize sends_keep_alive andb].
    pose proof (count_le_peak c d). split; lia.
  - apply (Hgen 1%nat true); [|reflexivity|reflexivity].
    apply (paced_weaken _ _ _ _ _ _ _ _ _ _ (paced_Identify channel_num)); auto; lia.
  - apply (Hgen 1%nat true); [|reflexivity|reflexivity].
    apply (paced_weaken _ _ _ _ _ _ _ _ _ _ (paced_Enable_Channel channel_num)); auto; lia.
  - apply (Hgen 1%nat true); [|reflexivity|reflexivity].
    apply (paced_weaken _ _ _ _ _ _ _ _ _ _ (paced_Disable_Channel channel_num)); auto; lia.
  - apply (Hgen 1%nat true); [|reflexivity|reflexivity].
    apply (paced_weaken _ _ _ _ _ _ _ _ _ _ (paced_Home channel_num wait)); auto; lia.
  - apply (Hgen 1%nat true); [|reflexivity|reflexivity].
    apply (paced_weaken _ _ _ _ _ _ _ _ _ _
             (paced_Move_Absolute Position channel_num wait)); auto; lia.
  - apply (Hgen 1%nat true); [|reflexivity|reflexivity].
    eapply paced_weaken;
      [eapply paced_bind; [apply paced_getPosition | intro; apply paced_ret]
      | cbn; lia ..| reflexivity].
  - apply (Hgen 1%nat true); [|reflexivity|reflexivity].
    eapply paced_weaken;
      [eapply paced_bind; [apply paced_get_status_Update | intro; apply paced_ret]
      | cbn; lia ..| reflexivity].
  - apply (Hgen 1%nat true); [|reflexivity|reflexivity].
    eapply paced_weaken;
      [eapply paced_bind; [apply paced_getEncCounter | intro; apply paced_ret]
      | cbn; lia ..| reflexivity].
  - apply (Hgen 1%nat true); [|reflexivity|reflexivity].
    apply (paced_weaken _ _ _ _ _ _ _ _ _ _ (paced_Stay_Alive channel_num)); auto; lia.
  - apply (Hgen 0%nat false); [|reflexivity|reflexivity].
    apply (paced_weaken _ _ _ _ _ _ _ _ _ _ paced_Flush_Buffers); auto; lia.
  - apply (Hgen 0%nat false); [|reflexivity|reflexivity].
    apply (paced_weaken _ _ _ _ _ _ _ _ _ _ (paced_on_port _ _ _ _ _ paced_ser_close));
      auto; lia.
  - apply (Hgen 0%nat false); [|reflexivity|reflexivity].
    apply (paced_weaken _ _ _ _ _ _ _ _ _ _ (paced_on_port _ _ _ _ _ paced_ser_open));
      auto; lia.
Qed.

Lemma peak_from_mono (c c' : nat) (d : list event) :
  (c <= c')%nat -> (peak_from c d <= peak_from c' d)%nat.
Proof.
  revert c c'; induction d as [|e d IH]; intros c c' Hc; cbn [peak_from]; [exact Hc|].
  assert (step_count c e <= step_count c' e)%nat.
  { destruct e; cbn; try lia. destruct (is_keep_alive bytes); lia. }
  specialize (IH _ _ H). lia.
Qed.

Lemma pace_mono (cs : list call) :
  forall c c' self, (c <= c')%nat -> (pace c cs self <= pace c' cs self)%nat.
Proof.
  induction cs as [|k cs IH]; intros c c' self Hc; cbn [pace]; [exact Hc|].
  cbv zeta. unfold count_after.
  destruct (perform k self) as [[] st|e st|st]; cbn [returned final_state].
  - destruct (sends_keep_alive k); cbn [andb].
    + lia.
    + specialize (IH (c + weight k)%nat (c' + weight k)%nat st). lia.
  - rewrite andb_false_r. specialize (IH (c + weight k)%nat (c' + weight k)%nat st). lia.
  - lia.
Qed.

Lemma session_after_paced (cs : list call) :
  forall self, exists d,
    session_log (session_after cs self) = session_log self ++ d
    /\ forall c, (peak_from c d <= pace c cs self)%nat.
Proof.
  induction cs as [|k cs IH]; intros self.
  - exists []. rewrite app_nil_r. split; [reflexivity|]. intros c. cbn. lia.
  - destruct (perform_paced k self) as (d1 & Hlog1 & H1).
    cbn [session_after pace]. cbv zeta.
    destruct (perform k self) as [[] st|e st|st] eqn:Ep; cbn [final_state] in *.
    + destruct (IH st) as (d2 & Hlog2 & H2).
      exists (d1 ++ d2). rewrite Hlog2, Hlog1, app_assoc. split; [reflexivity|].
      intros c. destruct (H1 c) as [Hp Hc]. rewrite peak_from_app.
      pose proof (peak_from_mono _ _ d2 Hc). specialize (H2 (count_after c k (Returned tt st))).
      lia.
    + destruct (IH st) as (d2 & Hlog2 & H2).
      exists (d1 ++ d2). rewrite Hlog2, Hlog1, app_assoc. split; [reflexivity|].
      intros c. destruct (H1 c) as [Hp Hc]. rewrite peak_from_app.
      pose proof (peak_from_mono _ _ d2 Hc). specialize (H2 (count_after c k (Raised e st))).
      lia.
    + exists d1. split; [exact Hlog1|]. intros c. destruct (H1 c) as [Hp _]. lia.
Qed.

(** C6, as the code has it.  The session keeps no count and injects
    nothing.  A call other than [Initialize] writes at most one
    command before its keep-alive, and the count is back to zero when
    it returns; when it raises it may leave that command outstanding.
    [Initialize] writes two commands and no keep-alive.  So in a run
    of calls, each made on the session as the last one left it whether
    it returned or raised, the number of commands written since the
    last keep-alive is at every point at most [pace]: from the number
    outstanding at the start, two more for an [Initialize], one more
    for another call while it runs, and none once such a call has
    returned. *)
Theorem keep_alive_cadence (self : ThorController) (cs : list call)
    (l1 l2 : list event) :
  session_log (session_after cs self) = l1 ++ l2 ->
  (List.length (session_log self) <= List.length l1)%nat ->
  (since_keep_alive l1 <= pace (since_keep_alive (session_log self)) cs self)%nat.
Proof.
  intros Hsplit Hlen.
  destruct (session_after_paced cs self) as (d & Hlog & H).
  rewrite Hlog in Hsplit. symmetry in Hsplit.
  apply app_eq_app in Hsplit. destruct Hsplit as (l & [[H1 H2]|[H1 H2]]).
  - subst l1 d. unfold since_keep_alive at 1. rewrite count_from_app.
    fold (since_keep_alive (session_log self)).
    specialize (H (since_keep_alive (session_log self))).
    pose proof (prefix_le_peak (since_keep_alive (session_log self)) l l2). lia.
  - assert (Hl : l = []).
    { apply (f_equal (@List.length event)) in H1. rewrite length_app in H1.
      destruct l; [reflexivity | cbn in H1; lia]. }
    subst l. rewrite app_nil_r in H1. subst l1.
    specialize (H (since_keep_alive (session_log self))).
    pose proof (peak_from_start (since_keep_alive (session_log self)) d). lia.
Qed.

Lemma keep_alive_cadence_witness :
  let init := [EWrite [0x05; 0x00; 0x00; 0x00; 0x50; 0x01]; EFlushInput; EFlushOutput;
               EWrite [0x18; 0x00; 0x00; 0x00; 0x50; 0x01]; EFlushInput; EFlushOutput] in
  let home := EWrite [0x43; 0x04; 0x01; 0x00; 0x50; 0x01] in
  let tail := [EFlushInput; EFlushOutput; EWrite [0x92; 0x04; 0x00; 0x00; 0x50; 0x01]] in
  let cs := [CInitialize 1; CHome 1 false] in
  session_log (session_after cs (KBD101 [])) = (init ++ [home]) ++ tail
  /\ (List.length (session_log (KBD101 [])) <= List.length (init ++ [home]))%nat
  /\ since_keep_alive (init ++ [home]) = 3%nat
  /\ pace (since_keep_alive (session_log (KBD101 []))) cs (KBD101 []) = 3%nat
  /\ (since_keep_alive (init ++ [home])
      <= pace (since_keep_alive (session_log (KBD101 []))) cs (KBD101 []))%nat.
Proof.
  intros init home tail cs.
  split; [vm_compute; reflexivity|]. split; [vm_compute; lia|].
  split; [vm_compute; reflexivity|]. split; [vm_compute; reflexivity|].
  apply (keep_alive_cadence (KBD101 []) cs (init ++ [home]) tail);
    [vm_compute; reflexivity | vm_compute; lia].
Defined.

(** C6 fails as stated, in two ways.  Twenty-five [Initialize] calls
    in a row all return, and leave fifty commands written with no
    keep-alive among them; and so do fifty [getPosition] calls whose
    reply never comes, each raising before its keep-alive and each
    caught. *)
Lemma keep_alive_cadence_broken :
  (let o := run_calls (repeat (CInitialize 1) 25) (KBD101 []) in
   returned o = true
   /\ since_keep_alive (session_log (final_state o)) = 50%nat
   /\ keep_alives (session_log (final_state o)) = 0%nat)
  /\ (let self := session_after (repeat (CgetPosition 1) 50) (KBD101 []) in
      since_keep_alive (session_log self) = 50%nat
      /\ keep_alives (session_log self) = 0%nat).
Proof. vm_compute. repeat split. Qed.

(** ** The scenarios of the specification, run *)

Example Move_Absolute_scenario :
  let o := Move_Absolute 25 1 true (KBD101 [[]; [0x64; 0x04]]) in
  returned o = true
  /\ sent_target o = Some 50000
  /\ session_log (final_state o)
     = [EWrite [0x53; 0x04; 0x06; 0x00; 0xD0; 0x01; 0x01; 0x00; 0x50; 0xC3; 0x00; 0x00];
        ERead 2 []; ERead 2 [0x64; 0x04];
        EFlushInput; EFlushOutput;
        EWrite [0x92; 0x04; 0x00; 0x00; 0x50; 0x01]].
Proof. vm_compute. repeat split. Qed.

Example Move_Absolute_unanswered :
  returned (Move_Absolute 25 1 true (KBD101 [[0x44; 0x04]])) = false.
Proof. vm_compute. reflexivity. Qed.

(** Thirty rounds of [Initialize] and [Home] never have more than
    three commands outstanding, and [pace] says so. *)
Example initialize_home_rounds :
  let cs := List.concat (repeat [CInitialize 1; CHome 1 false] 30) in
  pace 0 cs (KBD101 []) = 3%nat
  /\ peak_from 0 (session_log (session_after cs (KBD101 []))) = 3%nat.
Proof. vm_compute. split; reflexivity. Qed.

(** Fifty [getPosition] calls that all time out, each caught, reach
    the bound [pace] gives them. *)
Example caught_timeouts_at_pace :
  let cs := repeat (CgetPosition 1) 50 in
  pace 0 cs (KBD101 []) = 50%nat
  /\ peak_from 0 (session_log (session_after cs (KBD101 []))) = 50%nat.
Proof. vm_compute. split; reflexivity. Qed.

Example Home_rack_out_of_range :
  Home 300 false (BSC202 []) = Raised StructError (BSC202 []).
Proof. reflexivity. Qed.

(** ** Running a method on a live session, step by step *)

Lemma set_Serial_Port_same (self : ThorController) (sp : Serial) :
  Serial_Port self = Some sp -> set_Serial_Port self sp = self.
Proof. destruct self; cbn; intros ->; reflexivity. Qed.

Lemma get_destination_byte_set (self : ThorController) (sp : Serial) (channel_num : Z) :
  get_destination_byte (set_Serial_Port self sp) channel_num
  = get_destination_byte self channel_num.
Proof. reflexivity. Qed.

Lemma source_byte_set (self : ThorController) (sp : Serial) :
  source_byte (set_Serial_Port self sp) = source_byte self.
Proof. reflexivity. Qed.

Lemma Controller_Type_set (self : ThorController) (sp : Serial) :
  Controller_Type (set_Serial_Port self sp) = Controller_Type self.
Proof. reflexivity. Qed.

Lemma posScaleFactor_set (self : ThorController) (sp : Serial) :
  posScaleFactor (set_Serial_Port self sp) = posScaleFactor self.
Proof. reflexivity. Qed.

Lemma write_at (fmt : list item) (args : list pyval)
    (self : ThorController) (sp sp1 : Serial) (bytes : list Z) :
  live self sp -> is_open sp1 = true -> pack fmt args = Some bytes ->
  Serial_Port_write fmt args (set_Serial_Port self sp1)
  = Returned tt (set_Serial_Port self (emit (EWrite bytes) sp1)).
Proof.
  intros Hl Ho Hpack.
  rewrite (Serial_Port_write_live fmt args _ sp1 bytes (live_set _ _ _ Hl Ho) Hpack).
  reflexivity.
Qed.

Lemma short_at (self : ThorController) (sp sp1 : Serial) (id p1 p2 d : Z) :
  live self sp -> is_open sp1 = true ->
  0 <= id < 65536 -> is_byte p1 -> is_byte p2 -> is_byte d ->
  Serial_Port_write short_fmt
    [PInt id; PInt p1; PInt p2; PInt d; PInt (source_byte self)]
    (set_Serial_Port self sp1)
  = Returned tt (set_Serial_Port self (emit (EWrite (short_message id p1 p2 d 0x01)) sp1)).
Proof.
  intros Hl Ho Hid Hp1 Hp2 Hd. apply (write_at _ _ _ sp); [exact Hl | exact Ho |].
  rewrite (live_source _ _ Hl). apply pack_short; try assumption; lia.
Qed.

Lemma refused_at (fmt : list item) (args : list pyval)
    (self : ThorController) (sp1 : Serial) :
  pack fmt args = None ->
  Serial_Port_write fmt args (set_Serial_Port self sp1)
  = Raised StructError (set_Serial_Port self sp1).
Proof. intros Hpack. apply (Serial_Port_write_refused _ _ _ sp1); [reflexivity | exact Hpack]. Qed.

Lemma flush_at (self : ThorController) (sp sp1 : Serial) :
  live self sp -> is_open sp1 = true ->
  Flush_Buffers (set_Serial_Port self sp1)
  = Returned tt (set_Serial_Port self (emit EFlushOutput (emit EFlushInput sp1))).
Proof.
  intros Hl Ho. rewrite (Flush_Buffers_live _ _ (live_set _ _ _ Hl Ho)). reflexivity.
Qed.

Lemma reset_input_at (self : ThorController) (sp1 : Serial) :
  is_open sp1 = true ->
  on_port reset_input_buffer (set_Serial_Port self sp1)
  = Returned tt (set_Serial_Port self (emit EFlushInput sp1)).
Proof.
  intros Ho. rewrite (on_port_some _ _ sp1) by reflexivity.
  rewrite reset_input_buffer_open by exact Ho. reflexivity.
Qed.

Lemma reset_output_at (self : ThorController) (sp1 : Serial) :
  is_open sp1 = true ->
  on_port reset_output_buffer (set_Serial_Port self sp1)
  = Returned tt (set_Serial_Port self (emit EFlushOutput sp1)).
Proof.
  intros Ho. rewrite (on_port_some _ _ sp1) by reflexivity.
  rewrite reset_output_buffer_open by exact Ho. reflexivity.
Qed.

Lemma read_at (self : ThorController) (sp1 : Serial) (n : nat) :
  is_open sp1 = true ->
  on_port (ser_read n) (set_Serial_Port self sp1)
  = Returned (next_read n sp1)
      (set_Serial_Port self
         (mkSerial (log sp1 ++ [ERead n (next_read n sp1)]) (tl (rx sp1)) true)).
Proof.
  intros Ho. rewrite (on_port_some _ _ sp1) by reflexivity.
  rewrite ser_read_open by exact Ho. reflexivity.
Qed.

Lemma stay_alive_at (self : ThorController) (sp sp1 : Serial) (channel_num : Z) :
  live self sp -> addressable self channel_num -> is_open sp1 = true ->
  Stay_Alive channel_num (set_Serial_Port self sp1)
  = Returned tt
      (set_Serial_Port self
         (emit (EWrite (short_message 0x0492 0 0
                          (get_destination_byte self channel_num) 0x01)) sp1)).
Proof.
  intros Hl Ha Ho.
  rewrite (Stay_Alive_live _ sp1 channel_num (live_set _ _ _ Hl Ho) Ha). reflexivity.
Qed.

(** One step of a method body whose state is [set_Serial_Port self _]. *)
Ltac live_step Hl Ha :=
  try unfold bind at 1;
  first
    [ rewrite (flush_at _ _ _ Hl) by (first [exact (live_open _ _ Hl) | reflexivity])
    | rewrite (stay_alive_at _ _ _ _ Hl Ha) by (first [exact (live_open _ _ Hl) | reflexivity])
    | rewrite (short_at _ _ _ _ _ _ _ Hl)
        by (first [exact (live_open _ _ Hl) | reflexivity | assumption | unfold is_byte; lia])
    | rewrite reset_input_at by (first [exact (live_open _ _ Hl) | reflexivity])
    | rewrite reset_output_at by (first [exact (live_open _ _ Hl) | reflexivity])
    | rewrite read_at by (first [exact (live_open _ _ Hl) | reflexivity]) ];
  cbv beta iota.

Ltac live_fields :=
  rewrite ?get_destination_byte_set, ?source_byte_set, ?Controller_Type_set,
    ?posScaleFactor_set.

Ltac trace_done :=
  eexists; split; [reflexivity|]; cbn [log emit rx tl];
  rewrite <- ?app_assoc; cbn [app].

(** Entering the body of method call [call] on the live session [self]. *)
Ltac enter_live call Hl :=
  lazymatch type of Hl with
  | live ?self ?sp =>
      lazymatch call with
      | ?m self =>
          replace call with (m (set_Serial_Port self sp))
            by (rewrite (set_Serial_Port_same _ _ (live_port _ _ Hl)); reflexivity)
      end
  end.


(** ** What each method writes *)

(** X1. [Initialize] on a live session and an addressable channel
    returns after writing the hardware-info request and the
    no-flash-programming message; it reads nothing, sends no keep-alive,
    and leaves two more commands outstanding. *)
Theorem Initialize_trace (self : ThorController) (sp : Serial) (channel_num : Z) :
  live self sp -> addressable self channel_num ->
  exists sp',
    Initialize channel_num self = Returned tt (set_Serial_Port self sp')
    /\ log sp'
       = log sp ++ [EWrite (short_message 0x0005 0 0 (get_destination_byte self channel_num) 0x01);
                    EFlushInput; EFlushOutput;
                    EWrite (short_message 0x0018 0 0 (get_destination_byte self channel_num) 0x01);
                    EFlushInput; EFlushOutput]
    /\ rx sp' = rx sp
    /\ since_keep_alive (log sp') = (since_keep_alive (log sp) + 2)%nat.
Proof.
  intros Hl Ha.
  enter_live (Initialize channel_num self) Hl.
  unfold Initialize. cbv beta. live_fields.
  do 5 live_step Hl Ha.
  trace_done. split; [reflexivity|]. split; [reflexivity|].
  unfold since_keep_alive. rewrite count_from_app. cbn. lia.
Qed.

Lemma Initialize_trace_witness :
  live (KBD101 []) (mkSerial [] [] true)
  /\ exists sp',
      Initialize 1 (KBD101 []) = Returned tt (set_Serial_Port (KBD101 []) sp')
      /\ log sp' = [EWrite [0x05; 0x00; 0x00; 0x00; 0x50; 0x01];
                    EFlushInput; EFlushOutput;
                    EWrite [0x18; 0x00; 0x00; 0x00; 0x50; 0x01];
                    EFlushInput; EFlushOutput]
      /\ rx sp' = []
      /\ since_keep_alive (log sp') = 2%nat.
Proof.
  split; [apply live_KBD101|].
  exact (Initialize_trace (KBD101 []) (mkSerial [] [] true) 1
           (live_KBD101 []) (addressable_KBD101 [] 1)).
Defined.

Lemma addressable_cube (self : ThorController) (channel_num : Z) :
  Controller_Type self = "cube"%string -> addressable self channel_num.
Proof.
  intros Hc. unfold addressable, get_destination_byte. rewrite Hc.
  change (("cube" =? "benchtop")%string) with false. lia.
Qed.

(** X2. [Identify] on a live session writes the identify message, then
    the keep-alive, then clears the buffers, and reads nothing.  On a
    cube the identify message goes to 0x50 with 1 as its parameter; on a
    benchtop it goes to 0x11 with the channel as its parameter, while
    the keep-alive goes to the channel's own destination. *)
Theorem Identify_trace (self : ThorController) (sp : Serial) (t : topology)
    (channel_num : Z) :
  live self sp -> addressable self channel_num ->
  Controller_Type self = topology_name t ->
  (t = Rack -> is_byte channel_num) ->
  exists sp',
    Identify channel_num self = Returned tt (set_Serial_Port self sp')
    /\ log sp'
       = log sp ++ [EWrite (match t with
                            | Compact => short_message 0x0223 0x01 0 0x50 0x01
                            | Rack => short_message 0x0223 channel_num 0 0x11 0x01
                            end);
                    EWrite (short_message 0x0492 0 0
                              (get_destination_byte self channel_num) 0x01);
                    EFlushInput; EFlushOutput]
    /\ rx sp' = rx sp.
Proof.
  intros Hl Ha Ht Hch.
  enter_live (Identify channel_num self) Hl.
  unfold Identify. cbv beta. live_fields. rewrite Ht.
  destruct t; cbn [topology_name].
  - change (("cube" =? "cube")%string) with true. cbv iota.
    do 3 live_step Hl Ha. trace_done. split; reflexivity.
  - change (("benchtop" =? "cube")%string) with false.
    change (("benchtop" =? "benchtop")%string) with true. cbv iota.
    specialize (Hch eq_refl).
    do 3 live_step Hl Ha. trace_done. split; reflexivity.
Qed.

Lemma Identify_trace_witness :
  live (BSC202 []) (mkSerial [] [] true)
  /\ exists sp',
      Identify 2 (BSC202 []) = Returned tt (set_Serial_Port (BSC202 []) sp')
      /\ log sp' = [EWrite [0x23; 0x02; 0x02; 0x00; 0x11; 0x01];
                    EWrite [0x92; 0x04; 0x00; 0x00; 0x22; 0x01];
                    EFlushInput; EFlushOutput]
      /\ rx sp' = [].
Proof.
  split; [apply live_BSC202|].
  refine (Identify_trace (BSC202 []) (mkSerial [] [] true) Rack 2
            (live_BSC202 []) _ eq_refl _).
  - unfold addressable. vm_compute. split; [discriminate | reflexivity].
  - intros _. unfold is_byte. lia.
Defined.

(** X3. [Enable_Channel] on a live session writes the enable message
    (parameter 1 whatever the channel), clears the buffers and sends a
    keep-alive; on a benchtop it does all of that a second time.  It
    reads nothing. *)
Theorem Enable_Channel_trace (self : ThorController) (sp : Serial) (t : topology)
    (channel_num : Z) :
  live self sp -> addressable self channel_num ->
  Controller_Type self = topology_name t ->
  let round :=
    [EWrite (short_message 0x0210 0x01 0x01 (get_destination_byte self channel_num) 0x01);
     EFlushInput; EFlushOutput;
     EWrite (short_message 0x0492 0 0 (get_destination_byte self channel_num) 0x01)] in
  exists sp',
    Enable_Channel channel_num self = Returned tt (set_Serial_Port self sp')
    /\ log sp' = log sp ++ round ++ match t with Compact => [] | Rack => round end
    /\ rx sp' = rx sp.
Proof.
  intros Hl Ha Ht round. subst round.
  enter_live (Enable_Channel channel_num self) Hl.
  unfold Enable_Channel. cbv beta zeta. live_fields. rewrite Ht.
  destruct t; cbn [topology_name].
  - change (("cube" =? "benchtop")%string) with false. cbv iota.
    do 3 live_step Hl Ha. unfold ret. trace_done. split; reflexivity.
  - change (("benchtop" =? "benchtop")%string) with true. cbv iota.
    do 6 live_step Hl Ha. trace_done. split; reflexivity.
Qed.

Lemma Enable_Channel_trace_witness :
  live (KBD101 []) (mkSerial [] [] true)
  /\ exists sp',
      Enable_Channel 1 (KBD101 []) = Returned tt (set_Serial_Port (KBD101 []) sp')
      /\ log sp' = [EWrite [0x10; 0x02; 0x01; 0x01; 0x50; 0x01];
                    EFlushInput; EFlushOutput;
                    EWrite [0x92; 0x04; 0x00; 0x00; 0x50; 0x01]]
      /\ rx sp' = [].
Proof.
  split; [apply live_KBD101|].
  exact (Enable_Channel_trace (KBD101 []) (mkSerial [] [] true) Compact 1
           (live_KBD101 []) (addressable_KBD101 [] 1) eq_refl).
Defined.

(** X4. [Disable_Channel] on a live session, for a channel that fits a
    byte, writes the disable message with the channel as its parameter,
    clears the buffers and sends a keep-alive; on a benchtop it then
    writes a second disable message whose parameter is 1, not the
    channel. *)
Theorem Disable_Channel_trace (self : ThorController) (sp : Serial) (t : topology)
    (channel_num : Z) :
  live self sp -> addressable self channel_num -> is_byte channel_num ->
  Controller_Type self = topology_name t ->
  let dest := get_destination_byte self channel_num in
  let tail := [EFlushInput; EFlushOutput; EWrite (short_message 0x0492 0 0 dest 0x01)] in
  exists sp',
    Disable_Channel channel_num self = Returned tt (set_Serial_Port self sp')
    /\ log sp'
       = log sp ++ (EWrite (short_message 0x0210 channel_num 0x02 dest 0x01) :: tail)
                ++ match t with
                   | Compact => []
                   | Rack => EWrite (short_message 0x0210 0x01 0x02 dest 0x01) :: tail
                   end
    /\ rx sp' = rx sp.
Proof.
  intros Hl Ha Hch Ht dest tail. subst dest tail.
  enter_live (Disable_Channel channel_num self) Hl.
  unfold Disable_Channel. cbv beta zeta. live_fields. rewrite Ht.
  destruct t; cbn [topology_name].
  - change (("cube" =? "benchtop")%string) with false. cbv iota.
    do 3 live_step Hl Ha. unfold ret. trace_done. split; reflexivity.
  - change (("benchtop" =? "benchtop")%string) with true. cbv iota.
    do 6 live_step Hl Ha. trace_done. split; reflexivity.
Qed.

Lemma Disable_Channel_trace_witness :
  live (BSC202 []) (mkSerial [] [] true)
  /\ is_byte 2
  /\ exists sp',
      Disable_Channel 2 (BSC202 []) = Returned tt (set_Serial_Port (BSC202 []) sp')
      /\ log sp' = [EWrite [0x10; 0x02; 0x02; 0x02; 0x22; 0x01];
                    EFlushInput; EFlushOutput;
                    EWrite [0x92; 0x04; 0x00; 0x00; 0x22; 0x01];
                    EWrite [0x10; 0x02; 0x01; 0x02; 0x22; 0x01];
                    EFlushInput; EFlushOutput;
                    EWrite [0x92; 0x04; 0x00; 0x00; 0x22; 0x01]]
      /\ rx sp' = [].
Proof.
  split; [apply live_BSC202|]. split; [unfold is_byte; lia|].
  refine (Disable_Channel_trace (BSC202 []) (mkSerial [] [] true) Rack 2
            (live_BSC202 []) _ _ eq_refl).
  - unfold addressable. vm_compute. split; [discriminate | reflexivity].
  - unfold is_byte. lia.
Defined.

Lemma pack_short_refused (id p1 p2 d src : Z) :
  ~ is_byte p1 -> pack short_fmt [PInt id; PInt p1; PInt p2; PInt d; PInt src] = None.
Proof.
  intros Hp1. unfold short_fmt. cbn [pack width].
  destruct (fits 2 id); [|reflexivity].
  rewrite (fits_false 1 p1); [reflexivity|].
  unfold is_byte in Hp1. cbn. lia.
Qed.

(** X5. On a live cube session, for a channel number that does not fit
    a byte, [Disable_Channel] raises [StructError] before writing
    anything, while [Enable_Channel], which never puts the channel in
    its message, returns. *)
Theorem Disable_Channel_refuses (self : ThorController) (sp : Serial) (channel_num : Z) :
  live self sp -> Controller_Type self = "cube"%string -> ~ is_byte channel_num ->
  Disable_Channel channel_num self = Raised StructError self
  /\ returned (Enable_Channel channel_num self) = true.
Proof.
  intros Hl Hc Hch. pose proof (addressable_cube self channel_num Hc) as Ha. split.
  - unfold Disable_Channel. cbv beta zeta. unfold bind at 1.
    rewrite (Serial_Port_write_refused _ _ self sp (live_port _ _ Hl)); [reflexivity|].
    apply pack_short_refused. exact Hch.
  - enter_live (Enable_Channel channel_num self) Hl.
    unfold Enable_Channel. cbv beta zeta. live_fields. rewrite Hc.
    change (("cube" =? "benchtop")%string) with false. cbv iota.
    do 3 live_step Hl Ha. reflexivity.
Qed.

Lemma Disable_Channel_refuses_witness :
  live (KBD101 []) (mkSerial [] [] true)
  /\ ~ is_byte 256
  /\ Disable_Channel 256 (KBD101 []) = Raised StructError (KBD101 [])
  /\ returned (Enable_Channel 256 (KBD101 [])) = true.
Proof.
  assert (Hn : ~ is_byte 256) by (unfold is_byte; lia).
  split; [apply live_KBD101|]. split; [exact Hn|].
  exact (Disable_Channel_refuses (KBD101 []) (mkSerial [] [] true) 256
           (live_KBD101 []) eq_refl Hn).
Defined.

(** ** Replies *)

Lemma unpack_wrong_length (fmt : list item) (buf : list Z) :
  List.length buf <> calcsize fmt -> unpack fmt buf = None.
Proof.
  intros Hlen. unfold unpack.
  destruct (Nat.eqb_spec (List.length buf) (calcsize fmt)); [contradiction | reflexivity].
Qed.

Lemma counter_reply (header chan_dent count : list Z) :
  List.length header = 6%nat -> List.length chan_dent = 2%nat ->
  List.length count = 4%nat ->
  unpack counter_fmt (header ++ chan_dent ++ count)
  = Some [PBytes header; PInt (le_value chan_dent); PInt (le_value count)].
Proof.
  intros Hh Hc Hn.
  destruct header as [|h0 [|h1 [|h2 [|h3 [|h4 [|h5 [|h6 header]]]]]]]; try discriminate.
  destruct chan_dent as [|c0 [|c1 [|c2 chan_dent]]]; try discriminate.
  destruct count as [|n0 [|n1 [|n2 [|n3 [|n4 count]]]]]; try discriminate.
  reflexivity.
Qed.

Lemma status_reply (unused position velocity reserved status_bits : list Z) :
  List.length unused = 8%nat -> List.length position = 4%nat ->
  List.length velocity = 2%nat -> List.length reserved = 2%nat ->
  List.length status_bits = 4%nat ->
  unpack status_fmt (unused ++ position ++ velocity ++ reserved ++ status_bits)
  = Some [PBytes unused; PInt (le_value position); PInt (le_value velocity);
          PInt (le_value reserved); PInt (le_value status_bits)].
Proof.
  intros Hu Hp Hv Hr Hs.
  destruct unused as [|u0 [|u1 [|u2 [|u3 [|u4 [|u5 [|u6 [|u7 [|u8 unused]]]]]]]]];
    try discriminate.
  destruct position as [|p0 [|p1 [|p2 [|p3 [|p4 position]]]]]; try discriminate.
  destruct velocity as [|v0 [|v1 [|v2 velocity]]]; try discriminate.
  destruct reserved as [|r0 [|r1 [|r2 reserved]]]; try discriminate.
  destruct status_bits as [|s0 [|s1 [|s2 [|s3 [|s4 status_bits]]]]]; try discriminate.
  reflexivity.
Qed.

Lemma le_value_bytes (bs : list Z) :
  Forall is_byte bs -> 0 <= le_value bs < 256 ^ Z.of_nat (List.length bs).
Proof.
  induction 1 as [|b bs Hb _ IH]; [cbn; lia|].
  cbn [le_value List.length]. rewrite Nat2Z.inj_succ, Z.pow_succ_r by lia.
  unfold is_byte in Hb. lia.
Qed.

(** An integer below [2 ^ 53] is a float as it stands. *)
Lemma int_as_float (n : Z) :
  0 <= n < 2 ^ 53 ->
  let nf := binary_normalize prec emax n 0 false in
  (forall sg, nf <> S754_infinity sg)
  /\ SFfinite nf = true /\ SFsign nf = false /\ valid_binary nf = true
  /\ (SF2Q nf == inject_Z n)%Q.
Proof.
  intros Hn nf. subst nf.
  destruct (Z.eq_dec n 0) as [->|Hn0].
  - repeat split; try reflexivity. intros sg; discriminate.
  - destruct (binary_normalize_small n) as (m & e & E & Hv & Hval); [lia|].
    rewrite E. repeat split; try reflexivity; try assumption.
    intros sg; discriminate.
Qed.

Lemma bytes_as_float (bs : list Z) :
  Forall is_byte bs -> (List.length bs <= 4)%nat -> 0 <= le_value bs < 2 ^ 53.
Proof.
  intros Hb Hlen. pose proof (le_value_bytes bs Hb) as H.
  assert (256 ^ Z.of_nat (List.length bs) <= 256 ^ 4) by (apply Z.pow_le_mono_r; lia).
  assert (256 ^ 4 < 2 ^ 53) by reflexivity. lia.
Qed.

Lemma SFcompare_refl (x : spec_float) : x <> S754_nan -> SFcompare x x = Some Eq.
Proof.
  destruct x as [[]|[]| |[] m e]; intros Hx; try reflexivity; try congruence;
    cbn [SFcompare]; rewrite Z.compare_refl, Pos.compare_cont_refl; reflexivity.
Qed.

Lemma is_nan_spec (x : float) :
  is_nan x = match Prim2SF x with S754_nan => true | _ => false end.
Proof.
  unfold is_nan. rewrite FloatAxioms.eqb_spec. unfold SFeqb.
  destruct (Prim2SF x) as [sg|sg| |sg m e] eqn:E; try reflexivity;
    rewrite SFcompare_refl by discriminate; reflexivity.
Qed.

Lemma not_below_zero (x : float) : SFsign (Prim2SF x) = false -> (x <? 0)%float = false.
Proof.
  intros Hx. rewrite FloatAxioms.ltb_spec.
  change (Prim2SF 0) with (S754_zero false).
  destruct (Prim2SF x) as [sg|sg| |sg m e]; cbn [SFsign] in Hx; subst; reflexivity.
Qed.

(** The quotient of a small integer by a positive float: a number, not
    below zero, and when it is finite the exact quotient rounded. *)
Lemma quotient_of_count (n : Z) (s : float) :
  0 <= n < 2 ^ 53 -> (0 < value s)%Q ->
  let v := (SF2Prim (binary_normalize prec emax n 0 false) / s)%float in
  is_nan v = false /\ (v <? 0)%float = false
  /\ (is_finite v = true -> rounds_to (value v) (inject_Z n / value s)).
Proof.
  intros Hn Hs v.
  destruct (positive_float s Hs) as (ms & es & Es).
  destruct (int_as_float n Hn) as (_ & Hfin & Hsg & Hval & Hq).
  assert (Hdiv : Prim2SF v
                 = SFdiv prec emax (binary_normalize prec emax n 0 false)
                     (S754_finite false ms es)).
  { unfold v. rewrite FloatAxioms.div_spec. unfold SF64div. rewrite Es. f_equal.
    apply Prim2SF_SF2Prim. exact Hval. }
  assert (HS : value s = (inject_Z (Zpos ms) * pow2 es)%Q).
  { unfold value. rewrite Es. reflexivity. }
  destruct (binary_normalize prec emax n 0 false) as [sg|sg| |sg m e] eqn:E;
    try discriminate; cbn [SFsign] in Hsg; subst sg.
  - cbn [SFdiv xorb] in Hdiv.
    rewrite is_nan_spec. split; [rewrite Hdiv; reflexivity|].
    split; [apply not_below_zero; rewrite Hdiv; reflexivity|].
    intros _. unfold value at 1. rewrite Hdiv. cbn [SF2Q SFsign SFabsQ].
    cbn [SF2Q SFsign SFabsQ] in Hq.
    assert (Hz : (inject_Z n / value s == 0)%Q) by (rewrite <- Hq; field; lra).
    apply rounds_to_exact; [symmetry; exact Hz | rewrite Hz; lra].
  - destruct (SFdiv_spec false false m ms e es) as (Hnan & Hsign & Hfinr & _).
    cbv zeta in Hnan, Hsign, Hfinr. rewrite <- Hdiv in Hnan, Hsign, Hfinr.
    cbn [xorb] in Hsign.
    rewrite is_nan_spec. split; [destruct (Prim2SF v); try reflexivity; contradiction|].
    split; [apply not_below_zero; exact Hsign|].
    intros Hf. specialize (Hfinr Hf).
    cbn [SF2Q SFsign SFabsQ] in Hq.
    assert (Hv : (value v == SFabsQ (Prim2SF v))%Q).
    { unfold value, SF2Q. rewrite Hsign. reflexivity. }
    apply (rounds_to_ext_l (SFabsQ (Prim2SF v))); [symmetry; exact Hv|].
    eapply rounds_to_ext; [|exact Hfinr].
    rewrite HS, Hq. reflexivity.
Qed.

Lemma py_int_div_zero {St} (n : Z) (s : float) (st : St) :
  0 <= n < 2 ^ 53 -> (s =? 0)%float = true ->
  py_int_div n s st = Raised ZeroDivisionError st.
Proof.
  intros Hn Hs. destruct (int_as_float n Hn) as (Hinf & _).
  unfold py_int_div, bind, py_float.
  destruct (binary_normalize prec emax n 0 false) as [sg|sg| |sg m e] eqn:E;
    try (exfalso; exact (Hinf sg eq_refl));
    unfold ret, py_div; rewrite Hs; reflexivity.
Qed.

Lemma py_int_div_bytes {St} (bs : list Z) (s : float) (st : St) :
  Forall is_byte bs -> (List.length bs <= 4)%nat -> (s =? 0)%float = false ->
  py_int_div (le_value bs) s st
  = Returned (SF2Prim (binary_normalize prec emax (le_value bs) 0 false) / s)%float st.
Proof.
  intros Hb Hlen Hs. apply py_int_div_small; [|exact Hs].
  exact (proj1 (int_as_float _ (bytes_as_float bs Hb Hlen))).
Qed.

(** X6. [getPosition] on a live session whose next read delivers twelve
    bytes returns the last four of them, read as an unsigned
    little-endian integer, divided by the position scale factor: the
    binary64 quotient, which when finite is the exact quotient to
    within the rounding [rounds_to] allows.  The six header bytes and
    the two channel bytes are not looked at, and with a positive scale
    factor the value is a number and never negative.  The call clears the buffers, writes the
    request, reads once, sends the keep-alive and clears the buffers
    again. *)
Theorem getPosition_decodes (self : ThorController) (sp : Serial) (channel_num : Z)
    (header chan_dent count : list Z) :
  live self sp -> addressable self channel_num ->
  (0 < value (posScaleFactor self))%Q ->
  next_read 12 sp = header ++ chan_dent ++ count ->
  List.length header = 6%nat -> List.length chan_dent = 2%nat ->
  List.length count = 4%nat -> Forall is_byte count ->
  let v := (SF2Prim (binary_normalize prec emax (le_value count) 0 false)
            / posScaleFactor self)%float in
  exists sp',
    getPosition channel_num self = Returned v (set_Serial_Port self sp')
    /\ log sp'
       = log sp ++ [EFlushInput; EFlushOutput;
                    EWrite (short_message 0x0411 0x01 0
                              (get_destination_byte self channel_num) 0x01);
                    ERead 12 (header ++ chan_dent ++ count);
                    EWrite (short_message 0x0492 0 0
                              (get_destination_byte self channel_num) 0x01);
                    EFlushInput; EFlushOutput]
    /\ is_nan v = false /\ (v <? 0)%float = false
    /\ (is_finite v = true ->
        rounds_to (value v) (inject_Z (le_value count) / value (posScaleFactor self)))
    /\ le_value count < 2 ^ 32.
Proof.
  intros Hl Ha Hs Hreply Hh Hc Hn Hbytes v.
  assert (Hlen : (List.length count <= 4)%nat) by lia.
  pose proof (quotient_of_count _ _ (bytes_as_float count Hbytes Hlen) Hs) as Hq.
  cbv zeta in Hq. fold v in Hq.
  enter_live (getPosition channel_num self) Hl.
  unfold getPosition. cbv beta. live_fields.
  do 3 live_step Hl Ha.
  change (next_read 12 _) with (next_read 12 sp). rewrite Hreply.
  unfold bind at 1. unfold unpacked. rewrite (counter_reply _ _ _ Hh Hc Hn).
  unfold ret at 1. cbv beta iota.
  do 2 live_step Hl Ha.
  rewrite (py_int_div_bytes count _ _ Hbytes Hlen (positive_float_nonzero _ Hs)).
  fold v.
  pose proof (le_value_bytes count Hbytes) as Hrange. rewrite Hn in Hrange.
  trace_done. split; [reflexivity|].
  destruct Hq as (Hq1 & Hq2 & Hq3).
  repeat split; try assumption. change (2 ^ 32) with (256 ^ 4). lia.
Qed.

Lemma getPosition_decodes_witness :
  let reply := [0x12; 0x04; 0x06; 0x00; 0x81; 0x50; 0x01; 0x00; 0xFF; 0xFF; 0xFF; 0xFF] in
  live (KBD101 [reply]) (mkSerial [] [reply] true)
  /\ (0 < value (posScaleFactor (KBD101 [reply])))%Q
  /\ (SF2Prim (binary_normalize prec emax 4294967295 0 false) / 2000 = 2147483.6475)%float
  /\ exists sp',
      getPosition 1 (KBD101 [reply])
      = Returned (SF2Prim (binary_normalize prec emax 4294967295 0 false) / 2000)%float
                 (set_Serial_Port (KBD101 [reply]) sp')
      /\ log sp' = [EFlushInput; EFlushOutput;
                    EWrite [0x11; 0x04; 0x01; 0x00; 0x50; 0x01];
                    ERead 12 reply;
                    EWrite [0x92; 0x04; 0x00; 0x00; 0x50; 0x01];
                    EFlushInput; EFlushOutput].
Proof.
  intros reply.
  assert (Hs : (0 < value (posScaleFactor (KBD101 [reply])))%Q) by (vm_compute; reflexivity).
  split; [apply live_KBD101|]. split; [exact Hs|]. split; [vm_compute; reflexivity|].
  destruct (getPosition_decodes (KBD101 [reply]) (mkSerial [] [reply] true) 1
              [0x12; 0x04; 0x06; 0x00; 0x81; 0x50] [0x01; 0x00] [0xFF; 0xFF; 0xFF; 0xFF]
              (live_KBD101 _) (addressable_KBD101 _ 1) Hs eq_refl eq_refl eq_refl eq_refl)
    as (sp' & Hret & Hlog & _).
  - repeat constructor; unfold is_byte; lia.
  - exists sp'. split; [exact Hret | exact Hlog].
Defined.

(** X7. When the read after the position request delivers anything but
    twelve bytes, a timeout with no data included, [getPosition] raises
    [StructError].  By then the request is written; the keep-alive and
    the closing flush are skipped, so one more command is outstanding. *)
Theorem getPosition_short_reply (self : ThorController) (sp : Serial) (channel_num : Z) :
  live self sp -> addressable self channel_num ->
  List.length (next_read 12 sp) <> 12%nat ->
  exists sp',
    getPosition channel_num self = Raised StructError (set_Serial_Port self sp')
    /\ log sp'
       = log sp ++ [EFlushInput; EFlushOutput;
                    EWrite (short_message 0x0411 0x01 0
                              (get_destination_byte self channel_num) 0x01);
                    ERead 12 (next_read 12 sp)]
    /\ since_keep_alive (log sp') = (since_keep_alive (log sp) + 1)%nat.
Proof.
  intros Hl Ha Hshort.
  enter_live (getPosition channel_num self) Hl.
  unfold getPosition. cbv beta. live_fields.
  do 3 live_step Hl Ha.
  change (next_read 12 _) with (next_read 12 sp).
  unfold bind at 1. unfold unpacked.
  rewrite (unpack_wrong_length counter_fmt (next_read 12 sp)) by exact Hshort.
  unfold raise. trace_done. split; [reflexivity|].
  unfold since_keep_alive. rewrite count_from_app. cbn. lia.
Qed.

Lemma getPosition_short_reply_witness :
  live (KBD101 []) (mkSerial [] [] true)
  /\ List.length (next_read 12 (mkSerial [] [] true)) <> 12%nat
  /\ exists sp',
      getPosition 1 (KBD101 []) = Raised StructError (set_Serial_Port (KBD101 []) sp')
      /\ log sp' = [EFlushInput; EFlushOutput;
                    EWrite [0x11; 0x04; 0x01; 0x00; 0x50; 0x01];
                    ERead 12 []]
      /\ since_keep_alive (log sp') = 1%nat.
Proof.
  assert (Hs : List.length (next_read 12 (mkSerial [] [] true)) <> 12%nat) by discriminate.
  split; [apply live_KBD101|]. split; [exact Hs|].
  exact (getPosition_short_reply (KBD101 []) (mkSerial [] [] true) 1
           (live_KBD101 []) (addressable_KBD101 [] 1) Hs).
Defined.

(** X8. [getEncCounter] differs from [getPosition] in its request id
    only: on twelve delivered bytes it returns the last four, as an
    unsigned integer, divided by the position scale factor in
    binary64. *)
Theorem getEncCounter_decodes (self : ThorController) (sp : Serial) (channel_num : Z)
    (header chan_dent count : list Z) :
  live self sp -> addressable self channel_num ->
  (posScaleFactor self =? 0)%float = false ->
  next_read 12 sp = header ++ chan_dent ++ count ->
  List.length header = 6%nat -> List.length chan_dent = 2%nat ->
  List.length count = 4%nat -> Forall is_byte count ->
  exists sp',
    getEncCounter channel_num self
    = Returned (SF2Prim (binary_normalize prec emax (le_value count) 0 false)
                / posScaleFactor self)%float
               (set_Serial_Port self sp')
    /\ log sp'
       = log sp ++ [EFlushInput; EFlushOutput;
                    EWrite (short_message 0x040A 0x01 0
                              (get_destination_byte self channel_num) 0x01);
                    ERead 12 (header ++ chan_dent ++ count);
                    EWrite (short_message 0x0492 0 0
                              (get_destination_byte self channel_num) 0x01);
                    EFlushInput; EFlushOutput].
Proof.
  intros Hl Ha Hs Hreply Hh Hc Hn Hbytes.
  assert (Hlen : (List.length count <= 4)%nat) by lia.
  enter_live (getEncCounter channel_num self) Hl.
  unfold getEncCounter. cbv beta. live_fields.
  do 3 live_step Hl Ha.
  change (next_read 12 _) with (next_read 12 sp). rewrite Hreply.
  unfold bind at 1. unfold unpacked. rewrite (counter_reply _ _ _ Hh Hc Hn).
  unfold ret at 1. cbv beta iota.
  do 2 live_step Hl Ha.
  rewrite (py_int_div_bytes count _ _ Hbytes Hlen Hs).
  trace_done. reflexivity.
Qed.

Lemma getEncCounter_decodes_witness :
  let reply := [0x0B; 0x04; 0x06; 0x00; 0x81; 0x50; 0x01; 0x00; 0xD0; 0x07; 0x00; 0x00] in
  live (KBD101 [reply]) (mkSerial [] [reply] true)
  /\ (posScaleFactor (KBD101 [reply]) =? 0)%float = false
  /\ (SF2Prim (binary_normalize prec emax 2000 0 false) / 2000 = 1)%float
  /\ exists sp',
      getEncCounter 1 (KBD101 [reply])
      = Returned (SF2Prim (binary_normalize prec emax 2000 0 false) / 2000)%float
                 (set_Serial_Port (KBD101 [reply]) sp')
      /\ log sp' = [EFlushInput; EFlushOutput;
                    EWrite [0x0A; 0x04; 0x01; 0x00; 0x50; 0x01];
                    ERead 12 reply;
                    EWrite [0x92; 0x04; 0x00; 0x00; 0x50; 0x01];
                    EFlushInput; EFlushOutput].
Proof.
  intros reply.
  assert (Hs : (posScaleFactor (KBD101 [reply]) =? 0)%float = false)
    by (vm_compute; reflexivity).
  split; [apply live_KBD101|]. split; [exact Hs|]. split; [vm_compute; reflexivity|].
  refine (getEncCounter_decodes (KBD101 [reply]) (mkSerial [] [reply] true) 1
            [0x0B; 0x04; 0x06; 0x00; 0x81; 0x50] [0x01; 0x00] [0xD0; 0x07; 0x00; 0x00]
            (live_KBD101 _) (addressable_KBD101 _ 1) Hs eq_refl eq_refl eq_refl eq_refl _).
  repeat constructor; unfold is_byte; lia.
Defined.

(** X9. [get_status_Update] on a live session whose next read delivers
    twenty bytes returns the position, bytes 8 to 11, divided by the
    position scale factor, and the velocity, bytes 12 and 13, divided
    by 204.8, both in binary64; the velocity scale factor of the
    session plays no part, and the first eight bytes and the status
    bits are not looked at.  Here the closing flush comes before the
    keep-alive. *)
Theorem get_status_Update_decodes (self : ThorController) (sp : Serial) (channel_num : Z)
    (unused position velocity reserved status_bits : list Z) :
  live self sp -> addressable self channel_num ->
  (posScaleFactor self =? 0)%float = false ->
  next_read 20 sp = unused ++ position ++ velocity ++ reserved ++ status_bits ->
  List.length unused = 8%nat -> List.length position = 4%nat ->
  List.length velocity = 2%nat -> List.length reserved = 2%nat ->
  List.length status_bits = 4%nat ->
  Forall is_byte position -> Forall is_byte velocity ->
  exists sp',
    get_status_Update channel_num self
    = Returned ((SF2Prim (binary_normalize prec emax (le_value position) 0 false)
                 / posScaleFactor self)%float,
                (SF2Prim (binary_normalize prec emax (le_value velocity) 0 false)
                 / 204.8)%float)
               (set_Serial_Port self sp')
    /\ log sp'
       = log sp ++ [EFlushInput; EFlushOutput;
                    EWrite (short_message 0x0490 0x01 0
                              (get_destination_byte self channel_num) 0x01);
                    ERead 20 (unused ++ position ++ velocity ++ reserved ++ status_bits);
                    EFlushInput; EFlushOutput;
                    EWrite (short_message 0x0492 0 0
                              (get_destination_byte self channel_num) 0x01)].
Proof.
  intros Hl Ha Hs Hreply Hu Hp Hv Hr Hb HBp HBv.
  assert (Hlp : (List.length position <= 4)%nat) by lia.
  assert (Hlv : (List.length velocity <= 4)%nat) by lia.
  enter_live (get_status_Update channel_num self) Hl.
  unfold get_status_Update. cbv beta. live_fields.
  do 3 live_step Hl Ha.
  change (next_read 20 _) with (next_read 20 sp). rewrite Hreply.
  unfold bind at 1. unfold unpacked. rewrite (status_reply _ _ _ _ _ Hu Hp Hv Hr Hb).
  unfold ret at 1. cbv beta iota.
  do 2 live_step Hl Ha.
  unfold bind at 1. rewrite (py_int_div_bytes position _ _ HBp Hlp Hs). cbv beta iota.
  unfold bind at 1. rewrite (py_int_div_bytes velocity _ _ HBv Hlv) by reflexivity.
  cbv beta iota.
  unfold ret. trace_done. reflexivity.
Qed.

Lemma get_status_Update_decodes_witness :
  let reply := [0x91; 0x04; 0x0E; 0x00; 0x81; 0x50; 0x01; 0x00;
                0x50; 0xC3; 0x00; 0x00; 0x00; 0x08; 0x00; 0x00;
                0x00; 0x00; 0x00; 0x80] in
  live (KBD101 [reply]) (mkSerial [] [reply] true)
  /\ (posScaleFactor (KBD101 [reply]) =? 0)%float = false
  /\ (SF2Prim (binary_normalize prec emax 50000 0 false) / 2000 = 25)%float
  /\ (SF2Prim (binary_normalize prec emax 2048 0 false) / 204.8 = 10)%float
  /\ exists sp',
      get_status_Update 1 (KBD101 [reply])
      = Returned ((SF2Prim (binary_normalize prec emax 50000 0 false) / 2000)%float,
                  (SF2Prim (binary_normalize prec emax 2048 0 false) / 204.8)%float)
                 (set_Serial_Port (KBD101 [reply]) sp')
      /\ log sp' = [EFlushInput; EFlushOutput;
                    EWrite [0x90; 0x04; 0x01; 0x00; 0x50; 0x01];
                    ERead 20 reply;
                    EFlushInput; EFlushOutput;
                    EWrite [0x92; 0x04; 0x00; 0x00; 0x50; 0x01]].
Proof.
  intros reply.
  assert (Hs : (posScaleFactor (KBD101 [reply]) =? 0)%float = false)
    by (vm_compute; reflexivity).
  split; [apply live_KBD101|]. split; [exact Hs|].
  split; [vm_compute; reflexivity|]. split; [vm_compute; reflexivity|].
  refine (get_status_Update_decodes (KBD101 [reply]) (mkSerial [] [reply] true) 1
            [0x91; 0x04; 0x0E; 0x00; 0x81; 0x50; 0x01; 0x00]
            [0x50; 0xC3; 0x00; 0x00] [0x00; 0x08] [0x00; 0x00] [0x00; 0x00; 0x00; 0x80]
            (live_KBD101 _) (addressable_KBD101 _ 1) Hs
            eq_refl eq_refl eq_refl eq_refl eq_refl eq_refl _ _);
    repeat constructor; unfold is_byte; lia.
Defined.

(** X10. With a position scale factor of zero [getPosition] raises
    [ZeroDivisionError], and only once the whole exchange is over: the
    request is written, the reply read, the keep-alive sent. *)
Theorem getPosition_zero_scale (self : ThorController) (sp : Serial) (channel_num : Z)
    (header chan_dent count : list Z) :
  live self sp -> addressable self channel_num ->
  (posScaleFactor self =? 0)%float = true ->
  next_read 12 sp = header ++ chan_dent ++ count ->
  List.length header = 6%nat -> List.length chan_dent = 2%nat ->
  List.length count = 4%nat -> Forall is_byte count ->
  exists sp',
    getPosition channel_num self = Raised ZeroDivisionError (set_Serial_Port self sp')
    /\ log sp'
       = log sp ++ [EFlushInput; EFlushOutput;
                    EWrite (short_message 0x0411 0x01 0
                              (get_destination_byte self channel_num) 0x01);
                    ERead 12 (header ++ chan_dent ++ count);
                    EWrite (short_message 0x0492 0 0
                              (get_destination_byte self channel_num) 0x01);
                    EFlushInput; EFlushOutput].
Proof.
  intros Hl Ha Hs Hreply Hh Hc Hn Hbytes.
  assert (Hlen : (List.length count <= 4)%nat) by lia.
  enter_live (getPosition channel_num self) Hl.
  unfold getPosition. cbv beta. live_fields.
  do 3 live_step Hl Ha.
  change (next_read 12 _) with (next_read 12 sp). rewrite Hreply.
  unfold bind at 1. unfold unpacked. rewrite (counter_reply _ _ _ Hh Hc Hn).
  unfold ret at 1. cbv beta iota.
  do 2 live_step Hl Ha.
  rewrite (py_int_div_zero _ _ _ (bytes_as_float count Hbytes Hlen) Hs).
  trace_done. reflexivity.
Qed.

Lemma getPosition_zero_scale_witness :
  let reply := [0x12; 0x04; 0x06; 0x00; 0x81; 0x50; 0x01; 0x00; 0x50; 0xC3; 0x00; 0x00] in
  let self := session_of (__init__ (fun _ => Some [reply]) "COM14" [0; 0; 0]%float "cube"
                            fresh_host) in
  live self (mkSerial [] [reply] true)
  /\ (posScaleFactor self =? 0)%float = true
  /\ exists sp',
      getPosition 1 self = Raised ZeroDivisionError (set_Serial_Port self sp')
      /\ log sp' = [EFlushInput; EFlushOutput;
                    EWrite [0x11; 0x04; 0x01; 0x00; 0x50; 0x01];
                    ERead 12 reply;
                    EWrite [0x92; 0x04; 0x00; 0x00; 0x50; 0x01];
                    EFlushInput; EFlushOutput].
Proof.
  intros reply self.
  assert (Hl : live self (mkSerial [] [reply] true)) by (constructor; reflexivity).
  split; [exact Hl|]. split; [vm_compute; reflexivity|].
  refine (getPosition_zero_scale self (mkSerial [] [reply] true) 1
            [0x12; 0x04; 0x06; 0x00; 0x81; 0x50] [0x01; 0x00] [0x50; 0xC3; 0x00; 0x00]
            Hl (addressable_cube self 1 eq_refl) _ eq_refl eq_refl eq_refl eq_refl _).
  - vm_compute; reflexivity.
  - repeat constructor; unfold is_byte; lia.
Defined.

(** X11. On a live session, when the binary64 product of the scale
    factor and the position, its fraction dropped, fits the field,
    [Move_Absolute] with [wait] false returns having read nothing; with
    [wait] true it never raises, and it returns exactly when some read
    delivers the move-completed code 0x0464 in its first two bytes,
    hanging otherwise. *)
Theorem Move_Absolute_waits (self : ThorController) (sp : Serial)
    (Position : float) (channel_num : Z) (target : Z) :
  live self sp -> addressable self channel_num ->
  trunc (posScaleFactor self * Position) = Some target ->
  0 <= target < 2 ^ 32 ->
  (exists sp',
      Move_Absolute Position channel_num false self = Returned tt (set_Serial_Port self sp')
      /\ rx sp' = rx sp)
  /\ returned (Move_Absolute Position channel_num true self)
     = delivers [0x64; 0x04] (rx sp)
  /\ (forall e st, Move_Absolute Position channel_num true self <> Raised e st).
Proof.
  intros Hl Ha Ht Hd. split; [|split].
  - rewrite (Move_Absolute_live _ _ _ _ _ _ Hl Ha Ht Hd). unfold settle.
    eexists. split; reflexivity.
  - rewrite (Move_Absolute_live _ _ _ _ _ _ Hl Ha Ht Hd).
    destruct (settle_trace self channel_num true [0x64; 0x04]
                (emit (EWrite (move_message (get_destination_byte self channel_num)
                                 target)) sp)
                (live_open _ _ Hl))
      as (reads & s & _ & _ & _ & _ & _ & Hret & _).
    exact Hret.
  - rewrite (Move_Absolute_live _ _ _ _ _ _ Hl Ha Ht Hd).
    destruct (settle_trace self channel_num true [0x64; 0x04]
                (emit (EWrite (move_message (get_destination_byte self channel_num)
                                 target)) sp)
                (live_open _ _ Hl))
      as (reads & s & _ & _ & _ & _ & _ & _ & Hne).
    exact Hne.
Qed.

Lemma Move_Absolute_waits_witness :
  let script := [[0x44; 0x04]; []; [0x64; 0x04; 0x01; 0x00; 0x01; 0x50]] in
  live (KBD101 script) (mkSerial [] script true)
  /\ trunc (posScaleFactor (KBD101 script) * 25) = Some 50000
  /\ returned (Move_Absolute 25 1 true (KBD101 script)) = true.
Proof.
  intros script.
  assert (Ht : trunc (posScaleFactor (KBD101 script) * 25) = Some 50000)
    by (vm_compute; reflexivity).
  assert (Hd : 0 <= 50000 < 2 ^ 32) by (split; [discriminate | reflexivity]).
  split; [apply live_KBD101|]. split; [exact Ht|].
  exact (proj1 (proj2 (Move_Absolute_waits (KBD101 script) (mkSerial [] script true)
                         25 1 50000 (live_KBD101 _) (addressable_KBD101 _ 1) Ht Hd))).
Defined.

(** ** What no call changes *)

Lemma framed_ret {A} (a : A) : framed (ret a).
Proof. intros self. left. reflexivity. Qed.

Lemma framed_raise {A} (e : exn) : framed (@raise ThorController A e).
Proof. intros self. left. reflexivity. Qed.

Lemma framed_bind {A B} (m : M ThorController A) (f : A -> M ThorController B) :
  framed m -> (forall a, framed (f a)) -> framed (bind m f).
Proof.
  intros Hm Hf self. unfold bind.
  destruct (Hm self) as [H1|(sp1 & Hp & H1)];
    destruct (m self) as [a st1|e st1|st1]; cbn [final_state] in *; subst st1;
    try (left; reflexivity); try (right; exists sp1; split; [exact Hp | reflexivity]).
  - apply Hf.
  - destruct (Hf a (set_Serial_Port self sp1)) as [H2|(sp2 & _ & H2)]; rewrite H2.
    + right. exists sp1. split; [exact Hp | reflexivity].
    + right. exists sp2. split; [exact Hp | reflexivity].
Qed.

Lemma framed_if {A} (b : bool) (m1 m2 : M ThorController A) :
  framed m1 -> framed m2 -> framed (if b then m1 else m2).
Proof. destruct b; auto. Qed.

Lemma framed_self {A} (body : ThorController -> M ThorController A) :
  (forall s0, framed (body s0)) -> framed (fun self => body self self).
Proof. intros H self. exact (H self self). Qed.

Lemma framed_on_port {A} (m : M Serial A) : framed (on_port m).
Proof.
  intros self. unfold on_port. destruct (Serial_Port self) as [sp|] eqn:Hp.
  - right. destruct (m sp) as [a sp'|e sp'|sp']; exists sp';
      (split; [discriminate | reflexivity]).
  - left. reflexivity.
Qed.

Lemma framed_has_port : framed has_port.
Proof. intros self. left. unfold has_port. destruct (Serial_Port self); reflexivity. Qed.

Lemma framed_packed (fmt : list item) (args : list pyval) :
  framed (packed fmt args).
Proof. unfold packed. destruct (pack fmt args); [apply framed_ret | apply framed_raise]. Qed.

Lemma framed_unpacked (fmt : list item) (buf : list Z) : framed (unpacked fmt buf).
Proof. unfold unpacked. destruct (unpack fmt buf); [apply framed_ret | apply framed_raise]. Qed.

Lemma framed_py_div (num den : float) : framed (py_div num den).
Proof. unfold py_div. destruct (den =? 0)%float; [apply framed_raise | apply framed_ret]. Qed.

Lemma framed_py_float (n : Z) : framed (py_float n).
Proof.
  unfold py_float.
  destruct (binary_normalize prec emax n 0 false); try apply framed_ret; apply framed_raise.
Qed.

Lemma framed_py_int (x : float) : framed (py_int x).
Proof. unfold py_int. destruct (trunc x); [apply framed_ret | apply framed_raise]. Qed.

Lemma framed_py_int_div (n : Z) (den : float) : framed (py_int_div n den).
Proof.
  unfold py_int_div. apply framed_bind; [apply framed_py_float|].
  intros num. apply framed_py_div.
Qed.

Ltac framed_self_tac :=
  lazymatch goal with
  | |- @framed ?A ?F =>
      let body :=
        constr:(fun s0 : ThorController =>
                  ltac:(let t := eval cbv beta zeta in (F s0) in
                        lazymatch t with ?m s0 => exact m end)) in
      apply (framed_self body); intro
  end.

Ltac framed_go :=
  lazymatch goal with
  | |- framed (fun _ => _) => framed_self_tac; framed_go
  | |- framed (bind _ _) => apply framed_bind; [framed_go | intro; framed_go]
  | |- framed (if ?b then _ else _) =>
      lazymatch type of b with
      | bool => apply framed_if; [framed_go | framed_go]
      | _ => destruct b; framed_go
      end
  | |- framed (ret _) => apply framed_ret
  | |- framed (raise _) => apply framed_raise
  | |- framed (on_port _) => apply framed_on_port
  | |- framed has_port => apply framed_has_port
  | |- framed (packed _ _) => apply framed_packed
  | |- framed (unpacked _ _) => apply framed_unpacked
  | |- framed (py_int_div _ _) => apply framed_py_int_div
  | |- framed (py_int _) => apply framed_py_int
  | |- framed (Serial_Port_write _ _) => unfold Serial_Port_write; framed_go
  | |- framed Flush_Buffers => unfold Flush_Buffers; framed_go
  | |- framed (wait_for _) => unfold wait_for; framed_go
  | |- framed (Stay_Alive _) => unfold Stay_Alive; framed_go
  | |- framed (match ?v with _ => _ end) => destruct v; framed_go
  end.

Lemma framed_perform (c : call) : framed (perform c).
Proof.
  destruct c; cbn [perform];
    unfold discard, Initialize, Identify, Enable_Channel, Disable_Channel, Home,
      Move_Absolute, getPosition, get_status_Update, getEncCounter,
      Close_Port, Open_Port;
    framed_go.
Qed.

Lemma framed_run_calls (cs : list call) : framed (run_calls cs).
Proof.
  induction cs as [|c cs IH]; cbn [run_calls].
  - apply framed_ret.
  - apply framed_bind; [apply framed_perform | intros _; exact IH].
Qed.

(** X12. No run of calls changes the configuration of a session: the
    controller type, the scale factors, the port name and the source
    byte after the run, however it ends, are those before it. *)
Theorem configuration_is_kept (self : ThorController) (cs : list call) :
  same_config self (final_state (run_calls cs self)).
Proof.
  destruct (framed_run_calls cs self) as [H|(sp' & _ & H)]; rewrite H;
    repeat split; reflexivity.
Qed.

Lemma paced_perform_keep_alive (c : call) :
  sends_keep_alive c = true -> paced session_log (perform c) 1 1 true 0.
Proof.
  destruct c; cbn [perform sends_keep_alive]; try discriminate; intros _;
    unfold discard.
  - apply paced_Identify.
  - apply paced_Enable_Channel.
  - apply paced_Disable_Channel.
  - apply paced_Home.
  - apply paced_Move_Absolute.
  - eapply paced_weaken;
      [eapply paced_bind; [apply paced_getPosition | intro; apply paced_ret]
      | cbn; lia ..| reflexivity].
  - eapply paced_weaken;
      [eapply paced_bind; [apply paced_get_status_Update | intro; apply paced_ret]
      | cbn; lia ..| reflexivity].
  - eapply paced_weaken;
      [eapply paced_bind; [apply paced_getEncCounter | intro; apply paced_ret]
      | cbn; lia ..| reflexivity].
  - apply (paced_weaken _ _ _ _ _ _ _ _ _ _ (paced_Stay_Alive channel_num)); auto; lia.
Qed.

(** X13. Whatever the session and whatever went before, each of
    [Identify], [Enable_Channel], [Disable_Channel], [Home],
    [Move_Absolute], [getPosition], [get_status_Update],
    [getEncCounter] and [Stay_Alive], when it returns, leaves no
    command outstanding: a keep-alive was the last message it wrote. *)
Theorem returns_with_keep_alive (self : ThorController) (c : call) :
  sends_keep_alive c = true ->
  returned (perform c self) = true ->
  since_keep_alive (session_log (final_state (perform c self))) = 0%nat.
Proof.
  intros Hc Hret.
  destruct (paced_perform_keep_alive c Hc self) as (d & Hlog & H).
  rewrite Hlog. unfold since_keep_alive. rewrite count_from_app.
  destruct (H (count_from 0 (session_log self))) as [_ Hend].
  specialize (Hend Hret). lia.
Qed.

Lemma returns_with_keep_alive_witness :
  let self := final_state (Initialize 1 (KBD101 [])) in
  since_keep_alive (session_log self) = 2%nat
  /\ sends_keep_alive (CEnable_Channel 1) = true
  /\ returned (perform (CEnable_Channel 1) self) = true
  /\ since_keep_alive (session_log (final_state (perform (CEnable_Channel 1) self))) = 0%nat.
Proof.
  intros self. split; [reflexivity|]. split; [reflexivity|]. split; [reflexivity|].
  apply (returns_with_keep_alive self (CEnable_Channel 1)); reflexivity.
Defined.

(** ** getHWinfo *)

Lemma getHWinfo_run (sp : Serial) (destination : Z)
    (header_chunk data_chunk : list Z) (rest : list (list Z)) :
  let header := firstn 6 header_chunk in
  let length := le_value (firstn 2 (skipn 2 header)) in
  let data := firstn (Z.to_nat length) data_chunk in
  is_open sp = true -> is_byte destination ->
  rx sp = header_chunk :: data_chunk :: rest ->
  List.length header = 6%nat -> List.length data = 84%nat ->
  exists sp',
    getHWinfo destination sp
    = Returned (le_value (firstn 4 data), firstn 8 (skipn 4 data),
                le_value (firstn 2 (skipn 82 data))) sp'
    /\ log sp' = log sp ++ [EWrite (short_message 0x0005 0 0 destination 0x01);
                            ERead 6 header; ERead (Z.to_nat length) data]
    /\ rx sp' = rest
    /\ is_open sp' = true.
Proof.
  intros header length data Ho Hd Hrx Hh Hdata.
  unfold getHWinfo. unfold bind at 1. unfold packed.
  rewrite pack_short by (unfold is_byte in Hd; lia). unfold ret at 1. cbv beta iota.
  unfold bind at 1. rewrite ser_write_open by exact Ho. cbv beta iota.
  unfold bind at 1. rewrite ser_read_open by exact Ho. cbv beta iota.
  unfold next_read at 1 2. cbn [rx emit log tl]. rewrite Hrx. fold header. cbn [tl].
  unfold bind at 1. unfold unpacked, unpack. rewrite Hh.
  change (Nat.eqb 6 (calcsize header_fmt)) with true. cbv iota.
  unfold ret at 1. cbv beta iota.
  cbn [unpack_fields header_fmt width]. cbv beta iota.
  fold length.
  unfold bind at 1. rewrite ser_read_open by reflexivity. cbv beta iota.
  unfold next_read at 1 2. cbn [rx tl log]. fold data.
  unfold bind at 1. rewrite Hdata.
  change (Nat.eqb 84 (calcsize hwinfo_fmt)) with true. cbv iota.
  unfold ret at 1. cbv beta iota.
  cbn [unpack_fields hwinfo_fmt width]. cbv beta iota.
  rewrite !skipn_skipn. cbn [Nat.add].
  unfold ret. eexists. split; [reflexivity|]. cbn [log rx is_open].
  rewrite <- !app_assoc. repeat split.
Qed.


(** X14. [getHWinfo] on an open connection writes the info request,
    reads six bytes, takes the 16-bit word at offset 2 as the length
    and reads that many bytes.  When those are eighty-four it returns
    the serial number (bytes 0 to 3), the model (bytes 4 to 11) and the
    channel count (bytes 82 and 83).  It checks neither the message id
    nor the source of the reply, and it neither flushes nor closes the
    connection. *)
Theorem getHWinfo_decodes (sp : Serial) (destination : Z)
    (header_chunk data_chunk : list Z) (rest : list (list Z)) :
  let header := firstn 6 header_chunk in
  let length := le_value (firstn 2 (skipn 2 header)) in
  let data := firstn (Z.to_nat length) data_chunk in
  is_open sp = true -> is_byte destination ->
  rx sp = header_chunk :: data_chunk :: rest ->
  List.length header = 6%nat -> List.length data = 84%nat ->
  exists sp',
    getHWinfo destination sp
    = Returned (le_value (firstn 4 data), firstn 8 (skipn 4 data),
                le_value (firstn 2 (skipn 82 data))) sp'
    /\ log sp' = log sp ++ [EWrite (short_message 0x0005 0 0 destination 0x01);
                            ERead 6 header; ERead (Z.to_nat length) data]
    /\ rx sp' = rest
    /\ is_open sp' = true.
Proof. exact (getHWinfo_run sp destination header_chunk data_chunk rest). Qed.

Lemma getHWinfo_decodes_witness :
  let sp := mkSerial [] [KDC101_header; KDC101_data] true in
  is_open sp = true
  /\ is_byte 0x50
  /\ exists sp',
      getHWinfo 0x50 sp
      = Returned (27005375, [0x4B; 0x44; 0x43; 0x31; 0x30; 0x31; 0x00; 0x00], 1) sp'
      /\ log sp' = [EWrite [0x05; 0x00; 0x00; 0x00; 0x50; 0x01];
                    ERead 6 KDC101_header; ERead 84 KDC101_data]
      /\ rx sp' = []
      /\ is_open sp' = true.
Proof.
  intros sp. split; [reflexivity|].
  assert (Hd : is_byte 0x50) by (unfold is_byte; lia).
  split; [exact Hd|].
  exact (getHWinfo_decodes sp 0x50 KDC101_header KDC101_data [] eq_refl Hd
           eq_refl eq_refl eq_refl).
Defined.

Lemma getHWinfo_refuses (sp : Serial) (destination : Z) :
  is_open sp = true -> is_byte destination ->
  List.length (next_read 6 sp) <> 6%nat ->
  exists sp',
    getHWinfo destination sp = Raised StructError sp'
    /\ log sp' = log sp ++ [EWrite (short_message 0x0005 0 0 destination 0x01);
                            ERead 6 (next_read 6 sp)]
    /\ is_open sp' = true.
Proof.
  intros Ho Hd Hshort.
  unfold getHWinfo. unfold bind at 1. unfold packed.
  rewrite pack_short by (unfold is_byte in Hd; lia). unfold ret at 1. cbv beta iota.
  unfold bind at 1. rewrite ser_write_open by exact Ho. cbv beta iota.
  unfold bind at 1. rewrite ser_read_open by exact Ho. cbv beta iota.
  change (next_read 6 (emit _ sp)) with (next_read 6 sp).
  unfold bind at 1. unfold unpacked.
  rewrite (unpack_wrong_length header_fmt (next_read 6 sp)) by exact Hshort.
  unfold raise. eexists. split; [reflexivity|]. cbn [log emit is_open].
  rewrite <- !app_assoc. split; reflexivity.
Qed.


(** X15. When the read after the info request delivers fewer than six
    bytes, none at all on a timeout, [getHWinfo] raises [StructError];
    the request is written, nothing more is read, and the connection
    is left open. *)
Theorem getHWinfo_short_header (sp : Serial) (destination : Z) :
  is_open sp = true -> is_byte destination ->
  List.length (next_read 6 sp) <> 6%nat ->
  exists sp',
    getHWinfo destination sp = Raised StructError sp'
    /\ log sp' = log sp ++ [EWrite (short_message 0x0005 0 0 destination 0x01);
                            ERead 6 (next_read 6 sp)]
    /\ is_open sp' = true.
Proof. exact (getHWinfo_refuses sp destination). Qed.

Lemma getHWinfo_short_header_witness :
  let sp := mkSerial [] [[0x06; 0x00; 0x54]] true in
  is_open sp = true
  /\ is_byte 0x50
  /\ List.length (next_read 6 sp) <> 6%nat
  /\ exists sp',
      getHWinfo 0x50 sp = Raised StructError sp'
      /\ log sp' = [EWrite [0x05; 0x00; 0x00; 0x00; 0x50; 0x01];
                    ERead 6 [0x06; 0x00; 0x54]]
      /\ is_open sp' = true.
Proof.
  intros sp.
  assert (Hd : is_byte 0x50) by (unfold is_byte; lia).
  assert (Hs : List.length (next_read 6 sp) <> 6%nat) by discriminate.
  split; [reflexivity|]. split; [exact Hd|]. split; [exact Hs|].
  exact (getHWinfo_short_header sp 0x50 eq_refl Hd Hs).
Defined.

(** ** The constructor *)

(** X16. With a controller type that names a topology, in any case, a
    list of three scale factors and a port that opens, the constructor
    returns a session whose type is the lower-case name, whose scale
    factors are the three given in order, whose source byte is 1 and
    whose connection is open with an empty trace; the port is tried
    once and nothing is printed. *)
Theorem constructor_builds (connect : string -> option (list (list Z)))
    (PORT : string) (pos vel acc : float) (ct : string) (t : topology)
    (script : list (list Z)) (h : Host) :
  topology_of ct = Some t -> connect PORT = Some script ->
  __init__ connect PORT [pos; vel; acc] ct h
  = Returned (mkThorController (topology_name t) ["cube"; "benchtop"]%string PORT
                pos vel acc 0x01 (Some (mkSerial [] script true)))
             (mkHost (attempts h ++ [PORT]) (stdout h)).
Proof.
  intros Ht Hc. unfold __init__. rewrite topology_check, Ht, Hc. cbn [negb].
  rewrite (topology_of_lower _ _ Ht). reflexivity.
Qed.

Lemma constructor_builds_witness :
  topology_of "BenchTop" = Some Rack
  /\ __init__ (fun _ => Some []) "COM14" BSC202_factors "BenchTop" fresh_host
     = Returned (mkThorController "benchtop" ["cube"; "benchtop"]%string "COM14"
                   409600 21987328 4506 0x01
                   (Some (mkSerial [] [] true)))
                (mkHost ["COM14"%string] []).
Proof.
  split; [reflexivity|].
  exact (constructor_builds (fun _ => Some []) "COM14" 409600 21987328
           4506 "BenchTop" Rack [] fresh_host eq_refl eq_refl).
Defined.

(** X17. With a valid controller type and a scale-factor list that does
    not have exactly three entries, the constructor raises
    [ValueError] before it tries the port. *)
Theorem constructor_wants_three_factors (connect : string -> option (list (list Z)))
    (PORT : string) (Scale_Factors : list float) (ct : string) (t : topology) (h : Host) :
  topology_of ct = Some t -> List.length Scale_Factors <> 3%nat ->
  __init__ connect PORT Scale_Factors ct h = Raised ValueError h.
Proof.
  intros Ht Hlen. unfold __init__. rewrite topology_check, Ht. cbn [negb].
  destruct Scale_Factors as [|a [|b [|c [|d more]]]]; try reflexivity.
  exfalso. apply Hlen. reflexivity.
Qed.

Lemma constructor_wants_three_factors_witness :
  topology_of "cube" = Some Compact
  /\ List.length [2000; 13421.77]%float <> 3%nat
  /\ __init__ (fun _ => Some []) "COM14" [2000; 13421.77]%float "cube" fresh_host
     = Raised ValueError fresh_host.
Proof.
  assert (Hl : List.length [2000; 13421.77]%float <> 3%nat) by discriminate.
  split; [reflexivity|]. split; [exact Hl|].
  exact (constructor_wants_three_factors (fun _ => Some []) "COM14"
           [2000; 13421.77]%float "cube" Compact fresh_host eq_refl Hl).
Defined.

(** ** Discovery *)

Lemma prefix_spec (needle hay : string) :
  String.prefix needle hay = true <-> exists post, hay = (needle ++ post)%string.
Proof.
  revert hay; induction needle as [|a needle IH]; intros hay.
  - split; [intros _; exists hay; reflexivity | intros _; destruct hay; reflexivity].
  - destruct hay as [|b hay]; cbn [String.prefix].
    + split; [discriminate | intros [post H]; discriminate].
    + destruct (ascii_dec a b) as [->|Hne].
      * rewrite IH. split; intros [post H]; exists post.
        -- cbn. rewrite H. reflexivity.
        -- cbn in H. injection H as H. exact H.
      * split; [discriminate|]. intros [post H]. cbn in H. injection H as Hab _.
        congruence.
Qed.

Lemma occurs_in_spec (needle hay : string) :
  occurs_in needle hay = true
  <-> exists pre post, hay = (pre ++ needle ++ post)%string.
Proof.
  induction hay as [|c hay IH]; cbn [occurs_in].
  - rewrite orb_false_r, prefix_spec. split.
    + intros [post H]. exists EmptyString, post. exact H.
    + intros (pre & post & H). destruct pre; [|discriminate]. exists post. exact H.
  - rewrite orb_true_iff, prefix_spec, IH. split.
    + intros [[post H]|(pre & post & H)].
      * exists EmptyString, post. exact H.
      * exists (String c pre), post. cbn. rewrite H. reflexivity.
    + intros (pre & post & H). destruct pre as [|c' pre].
      * left. exists post. exact H.
      * right. cbn in H. injection H as _ H. exists pre, post. exact H.
Qed.

(** X18. [getAllDevices] keeps exactly the ports whose description
    contains the three characters APT, capitals as written, anywhere in
    it, and keeps them in the order they were listed. *)
Theorem getAllDevices_keeps_APT (comports : list ListPortInfo) (port : ListPortInfo) :
  (In port (getAllDevices comports)
   <-> In port comports
       /\ exists pre post, description port = (pre ++ "APT" ++ post)%string)
  /\ getAllDevices (getAllDevices comports) = getAllDevices comports
  /\ forall more, getAllDevices (comports ++ more)
                  = getAllDevices comports ++ getAllDevices more.
Proof.
  unfold getAllDevices. split; [|split].
  - rewrite filter_In, occurs_in_spec. reflexivity.
  - induction comports as [|p ps IH]; [reflexivity|]. cbn [filter].
    destruct (occurs_in "APT" (description p)) eqn:E; [|exact IH].
    cbn [filter]. rewrite E, IH. reflexivity.
  - intros more. apply filter_app.
Qed.

Lemma getDestination_run (sp : Serial) :
  is_open sp = true ->
  getDestination sp
  = Returned (match next_read 90 sp with [] => 0x11 | _ :: _ => 0x50 end)
      (mkSerial (log sp ++ [EWrite [0x05; 0x00; 0x00; 0x00; 0x50; 0x01];
                            ERead 90 (next_read 90 sp); EFlushInput; EFlushOutput])
                (tl (rx sp)) true).
Proof.
  intros Hopen.
  unfold getDestination, bind.
  change (packed short_fmt [PInt 5; PInt 0; PInt 0; PInt 80; PInt 1] sp)
    with (Returned (St:=Serial) [0x05; 0x00; 0x00; 0x00; 0x50; 0x01] sp).
  cbv beta iota.
  rewrite ser_write_open by exact Hopen. cbv beta iota.
  rewrite ser_read_open by exact Hopen. cbv beta iota.
  rewrite reset_input_buffer_open by reflexivity. cbv beta iota.
  rewrite reset_output_buffer_open by reflexivity. cbv beta iota.
  change (next_read 90 (emit (EWrite [5; 0; 0; 0; 80; 1]) sp)) with (next_read 90 sp).
  unfold emit. cbn [log rx is_open]. rewrite <- !app_assoc. cbn [app].
  destruct (next_read 90 sp); reflexivity.
Qed.

(** One turn of the discovery loop on a port that opens. *)
Lemma findControllers_loop_step (connect : string -> option (list (list Z)))
    (dev : ListPortInfo) (rest : list ListPortInfo) (deviceInfo : list deviceParams)
    (rig : Rig) (script : list (list Z)) :
  connect (device dev) = Some script ->
  findControllers_loop connect (dev :: rest) deviceInfo rig
  = match heard script with
    | [] =>
        findControllers_loop connect rest deviceInfo
          (mkRig ((device dev, shut (probed script)) :: handles rig)
                 (console rig ++ [no_cube_message]))
    | _ :: _ =>
        match getHWinfo 0x50 (probed script) with
        | Returned (serialNum, model, nChannels) ser =>
            findControllers_loop connect rest
              (deviceInfo ++ [mkDeviceParams (device dev) (str serialNum) model nChannels])
              (mkRig ((device dev, shut ser) :: handles rig) (console rig))
        | Raised e ser => Raised e (mkRig ((device dev, ser) :: handles rig) (console rig))
        | Hangs ser => Hangs (mkRig ((device dev, ser) :: handles rig) (console rig))
        end
    end.
Proof.
  intros Hc. cbn [findControllers_loop]. cbv zeta.
  unfold bind at 1. unfold open_serial. rewrite Hc.
  unfold bind at 1. unfold on_ser at 1. cbn [handles console].
  rewrite reset_input_buffer_open by reflexivity.
  unfold bind at 1. unfold on_ser at 1. cbn [handles console].
  rewrite reset_output_buffer_open by reflexivity.
  unfold bind at 1. unfold on_ser at 1. cbn [handles console].
  rewrite getDestination_run by reflexivity.
  unfold emit. cbn [log rx is_open app].
  change (next_read 90 {| log := [EFlushInput; EFlushOutput]; rx := script; is_open := true |})
    with (heard script).
  fold (probed script).
  destruct (heard script) as [|b bs] eqn:Hheard.
  - change (negb (17 =? 80)) with true. cbv iota.
    unfold bind at 1. unfold bind at 1. unfold print_line, ret. cbn [handles console].
    unfold bind at 1. unfold on_ser at 1. cbn [handles console].
    unfold ser_close. fold (shut (probed script)). reflexivity.
  - change (negb (80 =? 80)) with false. cbv iota.
    unfold bind at 1. unfold bind at 1. unfold on_ser at 1. cbn [handles console].
    destruct (getHWinfo 80 (probed script)) as [[[serialNum model] nChannels] ser|e ser|ser];
      reflexivity.
Qed.

Lemma findControllers_loop_busy (connect : string -> option (list (list Z)))
    (dev : ListPortInfo) (rest : list ListPortInfo) (deviceInfo : list deviceParams)
    (rig : Rig) :
  connect (device dev) = None ->
  findControllers_loop connect (dev :: rest) deviceInfo rig = Raised SerialException rig.
Proof.
  intros Hc. cbn [findControllers_loop]. cbv zeta.
  unfold bind at 1. unfold open_serial. rewrite Hc. reflexivity.
Qed.

Lemma findControllers_loop_returns (connect : string -> option (list (list Z)))
    (devs : list ListPortInfo) :
  forall deviceInfo rig result rig',
    findControllers_loop connect devs deviceInfo rig = Returned result rig' ->
    exists opened found k,
      handles rig' = opened ++ handles rig
      /\ Forall closed opened
      /\ map fst (rev opened) = map device devs
      /\ result = deviceInfo ++ found
      /\ console rig' = console rig ++ repeat no_cube_message k
      /\ (List.length found + k = List.length devs)%nat
      /\ incl (map COM_Port found) (map device devs).
Proof.
  induction devs as [|dev rest IH]; intros deviceInfo rig result rig' Hrun.
  - cbn in Hrun. injection Hrun as <- <-.
    exists [], [], 0%nat. cbn. rewrite !app_nil_r.
    repeat split; try constructor. intros x [].
  - destruct (connect (device dev)) as [script|] eqn:Hc.
    2:{ rewrite (findControllers_loop_busy _ _ _ _ _ Hc) in Hrun. discriminate. }
    rewrite (findControllers_loop_step _ _ _ _ _ _ Hc) in Hrun.
    destruct (heard script) as [|b bs].
    + destruct (IH _ _ _ _ Hrun)
        as (opened & found & k & Hh & Hcl & Hord & Hres & Hcon & Hlen & Hincl).
      cbn [handles console] in Hh, Hcon.
      exists (opened ++ [(device dev, shut (probed script))]), found, (S k).
      rewrite <- app_assoc. cbn [app]. split; [exact Hh|].
      split; [apply Forall_app; split; [exact Hcl | constructor; [reflexivity | constructor]]|].
      split; [rewrite rev_app_distr; cbn; rewrite Hord; reflexivity|].
      split; [exact Hres|].
      split; [rewrite Hcon, <- app_assoc; reflexivity|].
      split; [cbn; lia|].
      intros x Hx. right. apply Hincl. exact Hx.
    + destruct (getHWinfo 80 (probed script))
        as [[[serialNum model] nChannels] ser|e ser|ser]; try discriminate.
      destruct (IH _ _ _ _ Hrun)
        as (opened & found & k & Hh & Hcl & Hord & Hres & Hcon & Hlen & Hincl).
      cbn [handles console] in Hh, Hcon.
      exists (opened ++ [(device dev, shut ser)]),
        (mkDeviceParams (device dev) (str serialNum) model nChannels :: found), k.
      rewrite <- app_assoc. cbn [app]. split; [exact Hh|].
      split; [apply Forall_app; split; [exact Hcl | constructor; [reflexivity | constructor]]|].
      split; [rewrite rev_app_distr; cbn; rewrite Hord; reflexivity|].
      split; [rewrite Hres, <- app_assoc; reflexivity|].
      split; [exact Hcon|].
      split; [cbn; lia|].
      intros x [Hx|Hx]; [left; exact Hx | right; apply Hincl; exact Hx].
Qed.

(** X19. When [findControllers] returns, it has opened every port that
    [getAllDevices] kept, once each and in that order, and has closed
    every one of them. *)
Theorem findControllers_closes_ports (connect : string -> option (list (list Z)))
    (comports : list ListPortInfo) (rig rig' : Rig) (result : list deviceParams) :
  findControllers connect comports rig = Returned result rig' ->
  exists opened,
    handles rig' = opened ++ handles rig
    /\ Forall closed opened
    /\ map fst (rev opened) = map device (getAllDevices comports).
Proof.
  intros Hrun.
  destruct (findControllers_loop_returns _ _ _ _ _ _ Hrun)
    as (opened & found & k & Hh & Hcl & Hord & _).
  exists opened. repeat split; assumption.
Qed.

(** X20. When [findControllers] returns, each port that [getAllDevices]
    kept either contributed one entry to the result or had the
    no-cube message printed for it; the entries carry the names of
    kept ports only. *)
Theorem findControllers_accounts (connect : string -> option (list (list Z)))
    (comports : list ListPortInfo) (rig rig' : Rig) (result : list deviceParams) :
  findControllers connect comports rig = Returned result rig' ->
  exists k,
    console rig' = console rig ++ repeat no_cube_message k
    /\ (List.length result + k = List.length (getAllDevices comports))%nat
    /\ incl (map COM_Port result) (map device (getAllDevices comports)).
Proof.
  intros Hrun.
  destruct (findControllers_loop_returns _ _ _ _ _ _ Hrun)
    as (opened & found & k & _ & _ & _ & Hres & Hcon & Hlen & Hincl).
  cbn [app] in Hres. subst result. exists k. repeat split; assumption.
Qed.

(** X21. When the first kept port answers the probe but delivers fewer
    than six bytes to the read that follows the second info request,
    [findControllers] raises [StructError]: the remaining ports are not
    visited, and the connection it had opened is left open. *)
Theorem findControllers_leaves_port_open (connect : string -> option (list (list Z)))
    (comports : list ListPortInfo) (dev : ListPortInfo) (rest : list ListPortInfo)
    (script : list (list Z)) (rig : Rig) :
  getAllDevices comports = dev :: rest ->
  connect (device dev) = Some script ->
  heard script <> [] ->
  List.length (next_read 6 (probed script)) <> 6%nat ->
  exists ser,
    findControllers connect comports rig
    = Raised StructError (mkRig ((device dev, ser) :: handles rig) (console rig))
    /\ is_open ser = true.
Proof.
  intros Hapt Hc Hheard Hshort.
  unfold findControllers. rewrite Hapt, (findControllers_loop_step _ _ _ _ _ _ Hc).
  destruct (heard script) as [|b bs]; [contradiction|].
  assert (Hb : is_byte 0x50) by (unfold is_byte; lia).
  destruct (getHWinfo_refuses (probed script) 0x50 eq_refl Hb Hshort)
    as (ser & Hrun & _ & Hopen).
  rewrite Hrun. exists ser. split; [reflexivity | exact Hopen].
Qed.

Lemma findControllers_closes_ports_witness :
  let o := findControllers bench_connect bench_ports empty_rig in
  returned o = true
  /\ exists opened,
      handles (final_state o) = opened ++ []
      /\ Forall closed opened
      /\ map fst (rev opened) = ["COM3"; "COM4"]%string.
Proof.
  intros o. split; [reflexivity|].
  exact (findControllers_closes_ports bench_connect bench_ports empty_rig
           (final_state o) (value_of o []) eq_refl).
Defined.

Lemma findControllers_accounts_witness :
  let o := findControllers bench_connect bench_ports empty_rig in
  returned o = true
  /\ exists k,
      console (final_state o) = [] ++ repeat no_cube_message k
      /\ (1 + k = 2)%nat
      /\ incl ["COM3"%string] ["COM3"; "COM4"]%string.
Proof.
  intros o. split; [reflexivity|].
  exact (findControllers_accounts bench_connect bench_ports empty_rig
           (final_state o) (value_of o []) eq_refl).
Defined.

Lemma findControllers_leaves_port_open_witness :
  let late (comm : string) := Some [KDC101_header ++ KDC101_data] in
  getAllDevices bench_ports = nth 1 bench_ports (mkListPortInfo "" "" "")
                              :: [nth 2 bench_ports (mkListPortInfo "" "" "")]
  /\ heard [KDC101_header ++ KDC101_data] <> []
  /\ List.length (next_read 6 (probed [KDC101_header ++ KDC101_data])) <> 6%nat
  /\ exists ser,
      findControllers late bench_ports empty_rig
      = Raised StructError (mkRig [("COM3"%string, ser)] [])
      /\ is_open ser = true.
Proof.
  intros late.
  assert (H1 : heard [KDC101_header ++ KDC101_data] <> []) by discriminate.
  assert (H2 : List.length (next_read 6 (probed [KDC101_header ++ KDC101_data])) <> 6%nat)
    by discriminate.
  split; [reflexivity|]. split; [exact H1|]. split; [exact H2|].
  exact (findControllers_leaves_port_open late bench_ports _ _ _ empty_rig
           eq_refl eq_refl H1 H2).
Defined.

Lemma answers_heard (script : list (list Z)) (serialnum : Z) (model : list Z) (nchans : Z) :
  answers script serialnum model nchans ->
  heard script <> []
  /\ exists ser,
      getHWinfo 0x50 (probed script) = Returned (serialnum, model, nchans) ser.
Proof.
  intros (probe & header_chunk & data_chunk & rest & H).
  cbv zeta in H. destruct H as (Hs & Hp & Hh & Hd & Hsn & Hm & Hn).
  subst script. split; [exact Hp|].
  assert (Hb : is_byte 0x50) by (unfold is_byte; lia).
  destruct (getHWinfo_run (probed (probe :: header_chunk :: data_chunk :: rest)) 0x50
              header_chunk data_chunk rest eq_refl Hb eq_refl Hh Hd)
    as (ser & Hrun & _).
  exists ser. rewrite Hrun, Hsn, Hm, Hn. reflexivity.
Qed.

Lemma findControllers_loop_reports (connect : string -> option (list (list Z)))
    (serialnum : ListPortInfo -> Z) (model : ListPortInfo -> list Z)
    (nchans : ListPortInfo -> Z) (devs : list ListPortInfo) :
  (forall dev, In dev devs ->
     exists script, connect (device dev) = Some script
                    /\ answers script (serialnum dev) (model dev) (nchans dev)) ->
  forall deviceInfo rig,
  exists rig',
    findControllers_loop connect devs deviceInfo rig
    = Returned (deviceInfo
                ++ map (fun dev => mkDeviceParams (device dev) (str (serialnum dev))
                                     (model dev) (nchans dev)) devs) rig'
    /\ console rig' = console rig.
Proof.
  induction devs as [|dev rest IH]; intros Hall deviceInfo rig.
  - exists rig. cbn. rewrite app_nil_r. split; reflexivity.
  - destruct (Hall dev (or_introl eq_refl)) as (script & Hc & Hans).
    destruct (answers_heard _ _ _ _ Hans) as (Hheard & ser & Hrun).
    rewrite (findControllers_loop_step _ _ _ _ _ _ Hc).
    destruct (heard script) as [|b bs]; [contradiction|].
    rewrite Hrun.
    destruct (IH (fun d Hd => Hall d (or_intror Hd))
                 (deviceInfo ++ [mkDeviceParams (device dev) (str (serialnum dev))
                                   (model dev) (nchans dev)])
                 (mkRig ((device dev, shut ser) :: handles rig) (console rig)))
      as (rig' & Hloop & Hcon).
    exists rig'. rewrite Hloop, <- app_assoc. split; [reflexivity | exact Hcon].
Qed.

(** X22. When every port that [getAllDevices] kept opens and answers both
    the probe and the hardware-info request in full, [findControllers]
    returns one entry per kept port, in order, holding the port name,
    the serial number written in decimal, the model bytes and the
    channel count; nothing is printed. *)
Theorem findControllers_reports (connect : string -> option (list (list Z)))
    (serialnum : ListPortInfo -> Z) (model : ListPortInfo -> list Z)
    (nchans : ListPortInfo -> Z) (comports : list ListPortInfo) (rig : Rig) :
  (forall dev, In dev (getAllDevices comports) ->
     exists script, connect (device dev) = Some script
                    /\ answers script (serialnum dev) (model dev) (nchans dev)) ->
  exists rig',
    findControllers connect comports rig
    = Returned (map (fun dev => mkDeviceParams (device dev) (str (serialnum dev))
                                  (model dev) (nchans dev))
                    (getAllDevices comports)) rig'
    /\ console rig' = console rig.
Proof.
  intros Hall.
  exact (findControllers_loop_reports connect serialnum model nchans _ Hall [] rig).
Qed.

Lemma findControllers_loop_silent (connect : string -> option (list (list Z)))
    (devs : list ListPortInfo) :
  (forall dev, In dev devs ->
     exists script, connect (device dev) = Some script /\ heard script = []) ->
  forall deviceInfo rig,
  exists rig',
    findControllers_loop connect devs deviceInfo rig = Returned deviceInfo rig'
    /\ console rig' = console rig ++ repeat no_cube_message (List.length devs).
Proof.
  induction devs as [|dev rest IH]; intros Hall deviceInfo rig.
  - exists rig. cbn. rewrite app_nil_r. split; reflexivity.
  - destruct (Hall dev (or_introl eq_refl)) as (script & Hc & Hheard).
    rewrite (findControllers_loop_step _ _ _ _ _ _ Hc), Hheard.
    destruct (IH (fun d Hd => Hall d (or_intror Hd)) deviceInfo
                 (mkRig ((device dev, shut (probed script)) :: handles rig)
                        (console rig ++ [no_cube_message])))
      as (rig' & Hloop & Hcon).
    exists rig'. split; [exact Hloop|].
    rewrite Hcon. cbn [console List.length repeat]. rewrite <- app_assoc. reflexivity.
Qed.

(** X23. When every port that [getAllDevices] kept opens but delivers
    nothing to the probe, [findControllers] raises nothing: it returns
    an empty list, having printed the no-cube message once per kept
    port. *)
Theorem findControllers_silent (connect : string -> option (list (list Z)))
    (comports : list ListPortInfo) (rig : Rig) :
  (forall dev, In dev (getAllDevices comports) ->
     exists script, connect (device dev) = Some script /\ heard script = []) ->
  exists rig',
    findControllers connect comports rig = Returned [] rig'
    /\ console rig'
       = console rig ++ repeat no_cube_message (List.length (getAllDevices comports)).
Proof.
  intros Hall. exact (findControllers_loop_silent connect _ Hall [] rig).
Qed.

Lemma findControllers_reports_witness :
  let kdc := nth 1 bench_ports (mkListPortInfo "" "" "") in
  exists rig',
    findControllers bench_connect [kdc] empty_rig
    = Returned [mkDeviceParams "COM3" "27005375"
                  [0x4B; 0x44; 0x43; 0x31; 0x30; 0x31; 0x00; 0x00] 1] rig'
    /\ console rig' = [].
Proof.
  intros kdc.
  refine (findControllers_reports bench_connect (fun _ => 27005375)
            (fun _ => [0x4B; 0x44; 0x43; 0x31; 0x30; 0x31; 0x00; 0x00]) (fun _ => 1)
            [kdc] empty_rig _).
  intros dev [<-|[]].
  exists [KDC101_header ++ KDC101_data; KDC101_header; KDC101_data].
  split; [reflexivity|].
  exists (KDC101_header ++ KDC101_data), KDC101_header, KDC101_data, [].
  cbv zeta. split; [reflexivity|]. split; [discriminate|].
  repeat split.
Defined.

Lemma findControllers_silent_witness :
  let quiet := nth 2 bench_ports (mkListPortInfo "" "" "") in
  exists rig',
    findControllers bench_connect [quiet] empty_rig = Returned [] rig'
    /\ console rig' = [no_cube_message].
Proof.
  intros quiet.
  refine (findControllers_silent bench_connect [quiet] empty_rig _).
  intros dev [<-|[]]. exists []. split; reflexivity.
Defined.

(** ** Angles *)






(** ** The moves of the tracking loop *)

Lemma destination_cube (self : ThorController) (channel_num : Z) :
  Controller_Type self = "cube"%string -> get_destination_byte self channel_num = 0x50.
Proof.
  intros Hc. unfold get_destination_byte. rewrite Hc. reflexivity.
Qed.

Lemma Move_Absolute_no_wait (self : ThorController) (sp : Serial)
    (Position : float) (channel_num : Z) (target : Z) :
  live self sp -> addressable self channel_num ->
  trunc (posScaleFactor self * Position) = Some target ->
  0 <= target < 2 ^ 32 ->
  Move_Absolute Position channel_num false self
  = Returned tt
      (set_Serial_Port self
         (mkSerial
            (log sp ++ [EWrite (move_message (get_destination_byte self channel_num) target);
                        EFlushInput; EFlushOutput;
                        EWrite (short_message 0x0492 0 0
                                  (get_destination_byte self channel_num) 0x01)])
            (rx sp) (is_open sp))).
Proof.
  intros Hl Ha Ht Hd. rewrite (Move_Absolute_live _ _ _ _ _ _ Hl Ha Ht Hd).
  unfold settle, emit. cbn [log rx is_open]. rewrite <- !app_assoc. reflexivity.
Qed.

(** The move of a folded angle is accepted. *)
Lemma folded_move_accepted (self : ThorController) (sp : Serial) (angle : float) :
  live self sp -> Controller_Type self = "cube"%string ->
  (0 < value (posScaleFactor self)
   /\ value (posScaleFactor self) * 181 < inject_Z (2 ^ 32))%Q ->
  is_finite angle = true -> (-360 <= value angle <= 360)%Q ->
  Move_Absolute (complementary_float angle) 1 false self
  = Returned tt
      (set_Serial_Port self
         (mkSerial
            (log sp ++ [EWrite (move_message 0x50
                                  (toward_zero
                                     (value (posScaleFactor self
                                             * complementary_float angle))));
                        EFlushInput; EFlushOutput;
                        EWrite (short_message 0x0492 0 0 0x50 0x01)])
            (rx sp) (is_open sp))).
Proof.
  intros Hl Hc [Hs Hb] Hf Hr.
  destruct (complementary_float_range angle Hf Hr) as [Hff Hfr].
  destruct (scaled_angle_fits _ _ Hs Hb Hff Hfr) as [Hpf Hd].
  rewrite (Move_Absolute_no_wait self sp _ 1 _ Hl (addressable_cube _ 1 Hc)
             (trunc_toward_zero _ Hpf) Hd).
  rewrite !(destination_cube _ 1 Hc). reflexivity.
Qed.

(** X26. One turn of the tracking loop on two live cube sessions with a
    positive scale factor under which 181 degrees fit the 32-bit
    field: when each angle, offset added, is a number between -360 and
    360, both moves are accepted.  Each controller is sent one move
    message, whose target is the binary64 product of the scale factor
    and the folded angle with its fraction dropped, and one
    keep-alive; nothing is read, so the turn cannot block. *)
Theorem tracking_moves_accepted (scope : Telescope) (spE spA : Serial)
    (azimuthOffset elevationOffset azimuthPosition elevationPosition : float) :
  let elevation := elevationController scope in
  let azimuth := azimuthController scope in
  let el := complementary_float (elevationPosition + elevationOffset) in
  let az := complementary_float (azimuthPosition + azimuthOffset) in
  live elevation spE -> live azimuth spA ->
  Controller_Type elevation = "cube"%string -> Controller_Type azimuth = "cube"%string ->
  (0 < value (posScaleFactor elevation)
   /\ value (posScaleFactor elevation) * 181 < inject_Z (2 ^ 32))%Q ->
  (0 < value (posScaleFactor azimuth)
   /\ value (posScaleFactor azimuth) * 181 < inject_Z (2 ^ 32))%Q ->
  is_finite (elevationPosition + elevationOffset) = true ->
  is_finite (azimuthPosition + azimuthOffset) = true ->
  (-360 <= value (elevationPosition + elevationOffset) <= 360)%Q ->
  (-360 <= value (azimuthPosition + azimuthOffset) <= 360)%Q ->
  exists spE' spA',
    tracking_moves azimuthOffset elevationOffset azimuthPosition elevationPosition scope
    = Returned tt (mkTelescope (set_Serial_Port elevation spE')
                               (set_Serial_Port azimuth spA'))
    /\ log spE' = log spE ++ [EWrite (move_message 0x50
                                        (toward_zero
                                           (value (posScaleFactor elevation * el))));
                              EFlushInput; EFlushOutput;
                              EWrite (short_message 0x0492 0 0 0x50 0x01)]
    /\ log spA' = log spA ++ [EWrite (move_message 0x50
                                        (toward_zero
                                           (value (posScaleFactor azimuth * az))));
                              EFlushInput; EFlushOutput;
                              EWrite (short_message 0x0492 0 0 0x50 0x01)]
    /\ rx spE' = rx spE /\ rx spA' = rx spA.
Proof.
  intros elevation azimuth el az HlE HlA HcE HcA HsE HsA HfE HfA HrE HrA.
  unfold tracking_moves. cbv zeta. fold el. fold az.
  unfold bind, on_elevation, on_azimuth. fold elevation. fold azimuth.
  unfold el. rewrite (folded_move_accepted elevation spE _ HlE HcE HsE HfE HrE).
  cbn [elevationController azimuthController]. fold azimuth.
  unfold az. rewrite (folded_move_accepted azimuth spA _ HlA HcA HsA HfA HrA).
  eexists. eexists. split; [reflexivity|]. cbn [log rx]. repeat split.
Qed.

Lemma tracking_moves_accepted_witness :
  exists spE' spA',
    tracking_moves 0.05 (-0.05) 171.3 35.2 telescope
    = Returned tt (mkTelescope (set_Serial_Port (PRMTZ8 []) spE')
                               (set_Serial_Port (PRMTZ8 []) spA'))
    /\ log spE' = [] ++ [EWrite (move_message 0x50 67475);
                         EFlushInput; EFlushOutput;
                         EWrite (short_message 0x0492 0 0 0x50 0x01)]
    /\ log spA' = [] ++ [EWrite (move_message 0x50 328930);
                         EFlushInput; EFlushOutput;
                         EWrite (short_message 0x0492 0 0 0x50 0x01)]
    /\ rx spE' = [] /\ rx spA' = [].
Proof.
  assert (HE : toward_zero
                 (value (posScaleFactor (PRMTZ8 [])
                         * complementary_float (35.2 + -0.05))) = 67475)
    by (vm_compute; reflexivity).
  assert (HA : toward_zero
                 (value (posScaleFactor (PRMTZ8 [])
                         * complementary_float (171.3 + 0.05))) = 328930)
    by (vm_compute; reflexivity).
  rewrite <- HE, <- HA.
  refine (tracking_moves_accepted telescope (mkSerial [] [] true) (mkSerial [] [] true)
            0.05 (-0.05) 171.3 35.2 _ _ eq_refl eq_refl _ _ _ _ _ _).
  - constructor; reflexivity.
  - constructor; reflexivity.
  - split; vm_compute; reflexivity.
  - split; vm_compute; reflexivity.
  - vm_compute; reflexivity.
  - vm_compute; reflexivity.
  - split; vm_compute; discriminate.
  - split; vm_compute; discriminate.
Defined.

(** What rounding takes away, for a value in the normal range. *)
Lemma rounds_to_below (r a : Q) :
  rounds_to r a -> (pow2 (-1021) <= a)%Q -> (a * (1 - pow2 (-53)) <= r)%Q.
Proof.
  intros [H|[H _]] Ha; [|lra].
  apply Qabs_Qle_condition in H.
  revert H. generalize (pow2 (-53)). intros u H. lra.
Qed.

(** The folded angle of an angle beyond 360 degrees, by two device
    units or more, times the scale factor. *)
Lemma overshoot_product (s a : float) :
  (0 < value s /\ value s * 181 < inject_Z (2 ^ 32))%Q ->
  is_finite a = true -> (360 < value a <= 720)%Q ->
  (2 <= value s * (value a - 360))%Q ->
  is_finite (s * complementary_float a) = true
  /\ (value (s * complementary_float a) <= -1)%Q.
Proof.
  intros [Hs Hfit] Hfa [Hlo Hhi] Hunit.
  assert (E0 : (a <? 0)%float = false).
  { destruct (a <? 0)%float eqn:E; [|reflexivity].
    apply (ltb_value a 0 Hfa eq_refl) in E. rewrite value_0 in E. lra. }
  assert (E180 : (180 <? a)%float = true).
  { apply (ltb_value 180 a eq_refl Hfa). rewrite value_180. lra. }
  unfold complementary_float. rewrite E0. cbv zeta. rewrite E180.
  assert (H360 : (0 < value 360)%Q) by (rewrite value_360; reflexivity).
  destruct (float_difference 360 a H360 Hfa) as (_ & Hng & Hr & Hov).
  cbv zeta in Hng, Hr, Hov.
  set (D := (value a - 360)%Q) in *.
  assert (HD : (0 < D <= 360)%Q) by (unfold D; lra).
  assert (HX : (Qabs (value 360 - value a) == D)%Q).
  { rewrite value_360. setoid_replace (360 - value a)%Q with (- D)%Q by (unfold D; ring).
    rewrite Qabs_opp. apply Qabs_pos. lra. }
  set (az := (360 - a)%float) in *.
  assert (Hsign : SFsign (Prim2SF az) = true) by (apply Hng; rewrite value_360; lra).
  assert (Hc9 : (pow2 9 <= pow2 971)%Q) by (apply pow2_le; lia).
  change (pow2 9) with 512%Q in Hc9.
  assert (Hfaz : is_finite az = true).
  { destruct (is_finite az); [reflexivity|exfalso].
    specialize (Hov eq_refl). rewrite HX in Hov. lra. }
  specialize (Hr Hfaz).
  apply (rounds_to_ext _ _ D HX) in Hr.
  set (A := SFabsQ (Prim2SF az)) in *.
  pose proof (pow2_pos (-53)) as Hu. pose proof (pow2_pos (-1021)) as Ht.
  assert (Hu4 : (pow2 (-53) <= 1 # 8)%Q) by (vm_compute; discriminate).
  assert (Hc3 : (pow2 (-1021) <= pow2 (-60))%Q) by (apply pow2_le; lia).
  assert (Hc4 : (inject_Z (2 ^ 32) * pow2 (-60) <= 1)%Q) by (vm_compute; discriminate).
  assert (Hc5 : (inject_Z (2 ^ 32) * 8 < pow2 971)%Q).
  { assert (E : (inject_Z (2 ^ 32) * 8 == pow2 35)%Q) by (vm_compute; reflexivity).
    rewrite E. apply pow2_lt. lia. }
  assert (HStop : (value s <= inject_Z (2 ^ 32))%Q) by lra.
  set (S := value s) in *.
  (* the folded angle is no less than the overshoot, all but a rounding *)
  assert (HDbig : (pow2 (-1021) <= D)%Q).
  { destruct (Qlt_le_dec D (pow2 (-1021))) as [Hsmall|Hok]; [exfalso|exact Hok].
    assert (S * D <= inject_Z (2 ^ 32) * pow2 (-60))%Q.
    { apply Qmult_le_compat_nonneg; split; lra. }
    lra. }
  pose proof (rounds_to_below _ _ Hr HDbig) as HAlow.
  pose proof (rounds_to_above _ _ Hr ltac:(lra)) as HAup.
  assert (HAlow' : (D * (7 # 8) <= A)%Q).
  { revert HAlow Hu Hu4 HD. generalize (pow2 (-53)). intros u **. nra. }
  assert (HSA : (7 # 4 <= S * A)%Q).
  { assert (S * (D * (7 # 8)) <= S * A)%Q by (apply Qmult_le_l; assumption).
    lra. }
  (* the product *)
  destruct (positive_float s Hs) as (ms & es & Es).
  assert (HS : S = (inject_Z (Zpos ms) * pow2 es)%Q).
  { unfold S, value. rewrite Es. reflexivity. }
  set (F := SFmul prec emax (S754_finite false ms es) (Prim2SF az)).
  assert (HF : Prim2SF (s * az) = F).
  { rewrite FloatAxioms.mul_spec. unfold SF64mul. rewrite Es. reflexivity. }
  destruct (SFmul_spec (S754_finite false ms es) (Prim2SF az) eq_refl Hfaz)
    as (_ & HFsign & HFround).
  pose proof (SFmul_overflow (S754_finite false ms es) (Prim2SF az) eq_refl Hfaz) as HFover.
  cbv zeta in HFsign, HFround. fold F in HFsign, HFround, HFover.
  cbn [SFsign xorb] in HFsign. rewrite Hsign in HFsign.
  cbn [SFabsQ] in HFround, HFover. rewrite <- HS in HFround, HFover. fold A in HFround, HFover.
  assert (HAtop : (A <= 8 * 181)%Q).
  { pose proof (pow2_pos (-1075)) as Ht2.
    assert (pow2 (-1075) <= pow2 0)%Q by (apply pow2_le; lia).
    change (pow2 0) with 1%Q in H.
    revert HAup Hu Hu4 HD H Ht2. generalize (pow2 (-53)) (pow2 (-1075)). intros u t **. nra. }
  assert (HSAtop : (S * A <= inject_Z (2 ^ 32) * 8)%Q).
  { assert (S * A <= S * (8 * 181))%Q by (apply Qmult_le_l; assumption). lra. }
  assert (Hfin : SFfinite F = true).
  { destruct (SFfinite F); [reflexivity|exfalso]. specialize (HFover eq_refl). lra. }
  specialize (HFround Hfin).
  split; [unfold is_finite; rewrite HF; exact Hfin|].
  assert (HSAbig : (pow2 (-1021) <= S * A)%Q).
  { assert (pow2 (-1021) <= pow2 0)%Q by (apply pow2_le; lia).
    change (pow2 0) with 1%Q in H. lra. }
  pose proof (rounds_to_below _ _ HFround HSAbig) as HFlow.
  assert (HF1 : (1 <= SFabsQ F)%Q).
  { revert HFlow Hu Hu4 HSA. generalize (SFabsQ F) (S * A)%Q (pow2 (-53)).
    intros f sa u **. nra. }
  unfold value. rewrite HF. unfold SF2Q. rewrite HFsign. lra.
Qed.

(** X27. An offset that carries the azimuth beyond 360 degrees (and
    not beyond 720) by two device units or more makes the folded
    angle negative and the turn fail: the elevation controller has
    already been sent its move when the azimuth move raises
    [StructError], and the azimuth controller is sent nothing. *)
Theorem tracking_moves_overshoot (scope : Telescope) (spE spA : Serial)
    (azimuthOffset elevationOffset azimuthPosition elevationPosition : float) :
  let elevation := elevationController scope in
  let azimuth := azimuthController scope in
  let el := complementary_float (elevationPosition + elevationOffset) in
  live elevation spE -> live azimuth spA ->
  Controller_Type elevation = "cube"%string -> Controller_Type azimuth = "cube"%string ->
  (0 < value (posScaleFactor elevation)
   /\ value (posScaleFactor elevation) * 181 < inject_Z (2 ^ 32))%Q ->
  (0 < value (posScaleFactor azimuth)
   /\ value (posScaleFactor azimuth) * 181 < inject_Z (2 ^ 32))%Q ->
  is_finite (elevationPosition + elevationOffset) = true ->
  is_finite (azimuthPosition + azimuthOffset) = true ->
  (-360 <= value (elevationPosition + elevationOffset) <= 360)%Q ->
  (360 < value (azimuthPosition + azimuthOffset) <= 720)%Q ->
  (2 <= value (posScaleFactor azimuth)
        * (value (azimuthPosition + azimuthOffset) - 360))%Q ->
  exists spE',
    tracking_moves azimuthOffset elevationOffset azimuthPosition elevationPosition scope
    = Raised StructError (mkTelescope (set_Serial_Port elevation spE') azimuth)
    /\ log spE' = log spE ++ [EWrite (move_message 0x50
                                        (toward_zero
                                           (value (posScaleFactor elevation * el))));
                              EFlushInput; EFlushOutput;
                              EWrite (short_message 0x0492 0 0 0x50 0x01)].
Proof.
  intros elevation azimuth el HlE HlA HcE HcA HsE HsA HfE HfA HrE HrA Hunit.
  destruct (overshoot_product _ _ HsA HfA HrA Hunit) as [HfP HvP].
  set (az := complementary_float (azimuthPosition + azimuthOffset)) in *.
  assert (HdA : toward_zero (value (posScaleFactor azimuth * az)) < 0).
  { pose proof (toward_zero_bounds (value (posScaleFactor azimuth * az))) as [_ Hb].
    cbv zeta in Hb. specialize (Hb ltac:(lra)).
    assert (H : (inject_Z (toward_zero (value (posScaleFactor azimuth * az))) < inject_Z 0)%Q)
      by (change (inject_Z 0) with 0%Q; lra).
    rewrite <- Zlt_Qlt in H. exact H. }
  unfold tracking_moves. cbv zeta. fold el. fold az.
  unfold bind, on_elevation, on_azimuth. fold elevation. fold azimuth.
  unfold el. rewrite (folded_move_accepted elevation spE _ HlE HcE HsE HfE HrE).
  cbn [elevationController azimuthController]. fold azimuth.
  rewrite (Move_Absolute_refused azimuth spA az 1 false _ HlA (addressable_cube _ 1 HcA)
             (trunc_toward_zero _ HfP)) by (left; exact HdA).
  eexists. split; reflexivity.
Qed.

Lemma tracking_moves_overshoot_witness :
  exists spE',
    tracking_moves 20 0 350 35.2 telescope
    = Raised StructError (mkTelescope (set_Serial_Port (PRMTZ8 []) spE') (PRMTZ8 []))
    /\ log spE' = [] ++ [EWrite (move_message 0x50 67571);
                         EFlushInput; EFlushOutput;
                         EWrite (short_message 0x0492 0 0 0x50 0x01)].
Proof.
  assert (HE : toward_zero
                 (value (posScaleFactor (PRMTZ8 [])
                         * complementary_float (35.2 + 0))) = 67571)
    by (vm_compute; reflexivity).
  rewrite <- HE.
  refine (tracking_moves_overshoot telescope (mkSerial [] [] true) (mkSerial [] [] true)
            20 0 350 35.2 _ _ eq_refl eq_refl _ _ _ _ _ _ _).
  - constructor; reflexivity.
  - constructor; reflexivity.
  - split; vm_compute; reflexivity.
  - split; vm_compute; reflexivity.
  - vm_compute; reflexivity.
  - vm_compute; reflexivity.
  - split; vm_compute; discriminate.
  - split; [vm_compute; reflexivity | vm_compute; discriminate].
  - vm_compute; discriminate.
Defined.

(** One device unit beyond is not enough: an offset that carries the
    azimuth half a thousandth of a degree beyond 360, at 2000 units a
    degree, is folded to an angle just above -0.0005, and the move
    goes out with a target of zero. *)
Example overshoot_within_a_unit :
  let scope := mkTelescope (KBD101 []) (KBD101 []) in
  let o := tracking_moves 0.0005 0 360 35.2 scope in
  returned o = true
  /\ toward_zero (value (2000 * complementary_float (360 + 0.0005))) = 0
  /\ option_map le_value (last_move_target (session_log (azimuthController (final_state o))))
     = Some 0.
Proof. vm_compute. repeat split. Qed.

(** ** The control panel *)

Lemma on_event_in_step (event : option string) (p : Panel) :
  trackingFile p = trackParams p ->
  azimuthOffset (trackParams p) = aziOffset p ->
  elevationOffset (trackParams p) = eliOffset p ->
  let p' := on_event event p in
  trackingFile p' = trackParams p'
  /\ azimuthOffset (trackParams p') = aziOffset p'
  /\ elevationOffset (trackParams p') = eliOffset p'
  /\ updateRate (trackParams p') = updateRate (trackParams p)
  /\ (killTracking (trackParams p) = 1%Q \/ event_is event "-STOP-" = true ->
      killTracking (trackParams p') = 1%Q).
Proof.
  intros Hf Ha He. unfold on_event. cbv zeta.
  destruct (event_is event "-aziIncrease-"), (event_is event "-aziDecrease-"),
    (event_is event "-eliIncrease-"), (event_is event "-eliDecrease-"),
    (event_is event "-STOP-");
    cbn [set_azi set_eli set_kill writeTrackingParams trackParams trackingFile
           aziOffset eliOffset azimuthOffset elevationOffset updateRate killTracking];
    repeat split; try assumption; try reflexivity;
    intros [H|H]; try assumption; try reflexivity; try discriminate.
Qed.

Lemma event_loop_in_step (events : list (option string)) :
  forall p,
    trackingFile p = trackParams p ->
    azimuthOffset (trackParams p) = aziOffset p ->
    elevationOffset (trackParams p) = eliOffset p ->
    let p' := fst (event_loop events p) in
    trackingFile p' = trackParams p'
    /\ azimuthOffset (trackParams p') = aziOffset p'
    /\ elevationOffset (trackParams p') = eliOffset p'
    /\ updateRate (trackParams p') = updateRate (trackParams p)
    /\ (killTracking (trackParams p) = 1%Q -> killTracking (trackParams p') = 1%Q).
Proof.
  induction events as [|event rest IH]; intros p Hf Ha He; cbn [event_loop].
  - cbn. repeat split; auto.
  - destruct (closes event); [cbn; repeat split; auto|].
    destruct (on_event_in_step event p Hf Ha He) as (Hf' & Ha' & He' & Hu' & Hk').
    destruct (IH (on_event event p) Hf' Ha' He') as (H1 & H2 & H3 & H4 & H5).
    cbv zeta. repeat split; try assumption.
    + rewrite H4. exact Hu'.
    + intros Hk. apply H5, Hk'. left. exact Hk.
Qed.

(** X28. Whatever events the window delivers, the file and the panel
    stay in step: the file holds the dictionary last built, its two
    offsets are the offsets of the panel, and its update rate is still
    1. *)
Theorem panel_file_in_step (events : list (option string)) :
  let p := fst (event_loop events panel_start) in
  trackingFile p = trackParams p
  /\ azimuthOffset (trackingFile p) = aziOffset p
  /\ elevationOffset (trackingFile p) = eliOffset p
  /\ updateRate (trackingFile p) = 1%Q.
Proof.
  destruct (event_loop_in_step events panel_start eq_refl eq_refl eq_refl)
    as (H1 & H2 & H3 & H4 & _).
  cbv zeta. rewrite H1. repeat split; assumption.
Qed.

Lemma event_loop_app (before after : list (option string)) :
  forallb (fun e => negb (closes e)) before = true ->
  forall p,
    event_loop (before ++ after) p
    = event_loop after (fst (event_loop before p)).
Proof.
  induction before as [|event rest IH]; intros Hopen p; [reflexivity|].
  cbn [forallb] in Hopen. apply andb_prop in Hopen. destruct Hopen as [He Hrest].
  cbn [app event_loop]. destruct (closes event); [discriminate|].
  apply IH. exact Hrest.
Qed.

(** X29. Once the stop button has been pressed while the window was
    open, the file says [killTracking] = 1 and no later event changes
    that: the panel has no way to clear the flag. *)
Theorem stop_is_final (before after : list (option string)) :
  forallb (fun e => negb (closes e)) before = true ->
  killTracking
    (trackingFile (fst (event_loop (before ++ Some "-STOP-"%string :: after) panel_start)))
  = 1%Q.
Proof.
  intros Hopen. rewrite (event_loop_app before _ Hopen). cbn [event_loop closes].
  change (("-STOP-" =? "Close")%string) with false. cbv iota.
  set (p := fst (event_loop before panel_start)).
  destruct (event_loop_in_step before panel_start eq_refl eq_refl eq_refl)
    as (Hf & Ha & He & _). fold p in Hf, Ha, He.
  destruct (on_event_in_step (Some "-STOP-"%string) p Hf Ha He)
    as (Hf' & Ha' & He' & _ & Hk').
  destruct (event_loop_in_step after _ Hf' Ha' He') as (H1 & _ & _ & _ & H5).
  rewrite H1. apply H5, Hk'. right. reflexivity.
Qed.

Lemma stop_is_final_witness :
  let before := [Some "-aziIncrease-"; Some "-eliDecrease-"]%string in
  let after := [Some "-aziDecrease-"; Some "anything"; None; Some "-STOP-"]%string in
  forallb (fun e => negb (closes e)) before = true
  /\ killTracking
       (trackingFile (fst (event_loop (before ++ Some "-STOP-"%string :: after) panel_start)))
     = 1%Q.
Proof.
  intros before after. split; [reflexivity|].
  exact (stop_is_final before after eq_refl).
Defined.
